(** * A reactive store over a heap of plain JavaScript objects

    Shallow embedding of [src/store.ts]: the wrap/unwrap layer, the
    per-object cell registry, the proxy traps and the mutation gate.

    The JavaScript heap is explicit.  Objects live in a finite map from
    locations to records; a Proxy is a value with its own identity and
    its target; the module-level variables [Writing] and
    [CurrentReaction] are fields of the machine state.

    Modelling scope.
    - The host is an ECMAScript 2023 engine whose built-in prototypes
      are as the standard defines them.
    - Numbers are integers plus [VNaN] (the one value that is not
      strictly equal to itself).
    - A string property key is either an integer key [KIdx i] (the
      canonical decimal string of [i]) or any other string [KStr s].
      The names found on [Object.prototype] and [Array.prototype] are
      keys like any other: a lookup that misses the own properties
      continues on the prototype ([protoGet], [protoHas]), and the cell
      registry, a plain object, inherits from [Object.prototype] too
      ([inheritedNode]).
    - An object is either frozen as a whole or fully writable,
      configurable and extensible; the [length] of an array is never
      configurable.  An accessor property has a getter and no setter;
      the getter is a function of its receiver.
    - The prototype of an object is fixed by its [Shape]; objects without
      a prototype are not represented.
    - The module is an ES module, hence strict: a failed assignment or
      deletion throws.
    - A view is a Proxy: after a trap has answered, the invariants of
      the Proxy are checked against the target ([getInvariant],
      [setInvariant], [deleteInvariant]).
    - Of the traps, [get], [has], [set], [deleteProperty] and [ownKeys]
      are embedded; [getOwnPropertyDescriptor] is not.
    - A function held by the data is an opaque value ([VFun]), which
      the model never calls.  The methods that the module calls on the
      data ([hasOwnProperty], [slice]) are looked up on the data, and
      are followed when they are the built-in ones.
    - Where a run leaves what the model follows (a change of prototype,
      a view of a built-in prototype object or of a function, the
      coercion of a string or an object to an array length, a property
      of an array named by an integer beyond the index range, the
      registry handed out as a value, the call of a function that the
      data provides in place of a built-in method), its outcome is
      [Unsupported]: nothing is stated about such a run. *)

From stdpp Require Import gmap strings list sorting.
From Stdlib Require Import ZArith.

Local Open Scope string_scope.

(** ** Keys and values *)

Definition Loc := nat.

Inductive Key :=
| KStr (s : string)
| KIdx (i : nat).

(** The module-private symbols: [$RAW], [$TRACK], [$PROXY] and [$NODE].
    The last two name the hidden properties of a raw object (fields
    [proxy] and [nodes] below). *)
Inductive Sym := RAW | TRACK | PROXY | NODE.

Inductive PropertyKey :=
| PK (k : Key)
| PS (y : Sym).

(** The built-in prototype objects: [Object.prototype],
    [Array.prototype], and the prototype of the class of the [Custom]
    objects. *)
Inductive Host := ObjectPrototype | ArrayPrototype | ClassPrototype.

Inductive Value :=
| VUndef
| VNull
| VBool (b : bool)
| VNum (z : Z)
| VNaN
| VStr (s : string)
| VFun (f : string)
| VObj (l : Loc)
| VProxy (id : nat) (target : Loc)
| VHost (h : Host).

#[global] Instance Key_eq_dec : EqDecision Key.
Proof. solve_decision. Defined.

#[global] Instance Sym_eq_dec : EqDecision Sym.
Proof. solve_decision. Defined.

#[global] Instance Host_eq_dec : EqDecision Host.
Proof. solve_decision. Defined.

#[global] Instance Value_eq_dec : EqDecision Value.
Proof. solve_decision. Defined.

Definition Key_to_sum (k : Key) : string + nat :=
  match k with KStr s => inl s | KIdx i => inr i end.

Definition Key_of_sum (x : string + nat) : Key :=
  match x with inl s => KStr s | inr i => KIdx i end.

#[global] Instance Key_countable : Countable Key.
Proof.
  apply (inj_countable' Key_to_sum Key_of_sum).
  intros []; reflexivity.
Defined.

(** ** Cells (the consumed signal primitive) *)

(** Modelled from the spec: [createSignal] of [./core] is not part of
    the sources.  Section 6 of the specification gives its contract:
    [createCell(initialValue, {equals: false})] yields a reader, which
    registers the active tracking context (if any) as a dependent and
    returns the payload, and a writer, which stores the payload (an
    updater function is applied to the old payload) and schedules
    propagation on every call.  The scheduling is recorded in the
    [fired] log of the machine state. *)
Record Cell := mkCell {
  payload : Value;
  observers : gset nat
}.

(** ** Objects *)

Inductive Slot :=
| SData (v : Value)
| SGet (g : Value -> Value) (bound : option Value).

(** [Plain]: prototype [Object.prototype]; [Arr]: an array, prototype
    [Array.prototype]; [Custom]: an instance of a class [C] declared
    without members and without [extends], prototype [C.prototype]. *)
Inductive Shape := Plain | Arr | Custom.

#[global] Instance Shape_eq_dec : EqDecision Shape.
Proof. solve_decision. Defined.

Record Obj := mkObj {
  shape : Shape;
  frozen : bool;
  props : list (Key * Slot);      (* own enumerable properties, in key order *)
  elems : list (option Value);    (* array elements; [None] is a hole *)
  proxy : option nat;             (* the hidden [$PROXY] property: the
                                     identity of the view of this object *)
  nodes : option (gmap Key Cell)  (* the hidden [$NODE] property *)
}.

(** ** Machine state *)

Record State := mkState {
  heap : gmap Loc Obj;
  Writing : bool;
  CurrentReaction : option nat;
  nextProxy : nat;
  fired : list (Loc * Key)
}.

Definition set_heap (h : gmap Loc Obj) (s : State) : State :=
  mkState h (Writing s) (CurrentReaction s) (nextProxy s) (fired s).

Definition set_Writing (w : bool) (s : State) : State :=
  mkState (heap s) w (CurrentReaction s) (nextProxy s) (fired s).

Definition set_CurrentReaction (r : option nat) (s : State) : State :=
  mkState (heap s) (Writing s) r (nextProxy s) (fired s).

(** ** Outcomes and the state monad *)

(** [Throw] is a JavaScript exception (a reference to no object, which a
    JavaScript heap never holds, is reported the same way); [OutOfFuel]
    is the recursion bound of [unwrap]; [Unsupported] marks a run that
    leaves what the model follows. *)
Inductive Outcome (A : Type) :=
| Ok (a : A)
| Throw
| OutOfFuel
| Unsupported.
Arguments Ok {A} a.
Arguments Throw {A}.
Arguments OutOfFuel {A}.
Arguments Unsupported {A}.

Definition M (A : Type) : Type := State -> Outcome A * State.

Definition ret {A} (a : A) : M A := fun s => (Ok a, s).

Definition bind {A B} (m : M A) (k : A -> M B) : M B :=
  fun s =>
    match m s with
    | (Ok a, s') => k a s'
    | (Throw, s') => (Throw, s')
    | (OutOfFuel, s') => (OutOfFuel, s')
    | (Unsupported, s') => (Unsupported, s')
    end.

Definition throw {A} : M A := fun s => (Throw, s).
Definition out_of_fuel {A} : M A := fun s => (OutOfFuel, s).
Definition unsupported {A} : M A := fun s => (Unsupported, s).
Definition get_state : M State := fun s => (Ok s, s).
Definition put_state (s' : State) : M unit := fun _ => (Ok tt, s').
Definition modify (f : State -> State) : M unit := fun s => (Ok tt, f s).

Declare Scope js_scope.
Delimit Scope js_scope with js.
Notation "x <- m ;; k" := (bind m (fun x => k))
  (at level 100, m at next level, right associativity) : js_scope.
Notation "m ;;; k" := (bind m (fun _ => k))
  (at level 100, right associativity) : js_scope.
Local Open Scope js_scope.

Definition lookupObj (l : Loc) : M Obj :=
  fun s => match heap s !! l with
           | Some o => (Ok o, s)
           | None => (Throw, s)
           end.

Definition storeObj (l : Loc) (o : Obj) : M unit :=
  modify (fun s => set_heap (<[l := o]> (heap s)) s).

(** ** Primitive operations on values and objects *)

(** JavaScript truthiness ([if (v)], [!v], [v || w]). *)
Definition truthy (v : Value) : bool :=
  match v with
  | VUndef | VNull | VNaN => false
  | VBool b => b
  | VNum z => negb (z =? 0)%Z
  | VStr s => negb (bool_decide (s = EmptyString))
  | VFun _ | VObj _ | VProxy _ _ | VHost _ => true
  end.

(** The operator [===]. *)
Definition strict_eq (v w : Value) : bool :=
  match v with
  | VNaN => false
  | _ => bool_decide (v = w)
  end.

Definition is_function (v : Value) : bool :=
  match v with VFun _ => true | _ => false end.

(** Association lists for own properties. *)
Fixpoint props_get (ps : list (Key * Slot)) (k : Key) : option Slot :=
  match ps with
  | [] => None
  | (k', sl) :: ps' => if decide (k' = k) then Some sl else props_get ps' k
  end.

(** Redefines an own property in place, or appends a new one. *)
Fixpoint props_set (ps : list (Key * Slot)) (k : Key) (sl : Slot)
  : list (Key * Slot) :=
  match ps with
  | [] => [(k, sl)]
  | (k', sl') :: ps' =>
      if decide (k' = k) then (k, sl) :: ps'
      else (k', sl') :: props_set ps' k sl
  end.

Fixpoint props_del (ps : list (Key * Slot)) (k : Key) : list (Key * Slot) :=
  match ps with
  | [] => []
  | (k', sl') :: ps' =>
      if decide (k' = k) then ps' else (k', sl') :: props_del ps' k
  end.

(** The string-keyed properties of [Array.prototype] other than
    [length]: all of them hold functions. *)
Definition arrayMethods : list string :=
  ["push"; "pop"; "shift"; "unshift"; "splice"; "slice"; "concat";
   "join"; "reverse"; "sort"; "indexOf"; "includes"; "forEach"; "map";
   "filter"; "reduce"; "find"; "findIndex"; "some"; "every"; "fill";
   "keys"; "values"; "entries";
   "at"; "copyWithin"; "findLast"; "findLastIndex"; "flat"; "flatMap";
   "lastIndexOf"; "reduceRight"; "toReversed"; "toSorted"; "toSpliced";
   "with"; "constructor"; "toString"; "toLocaleString"].

(** The properties of [Object.prototype] that hold functions. *)
Definition objectMethods : list string :=
  ["constructor"; "hasOwnProperty"; "isPrototypeOf";
   "propertyIsEnumerable"; "toLocaleString"; "toString"; "valueOf";
   "__defineGetter__"; "__defineSetter__"; "__lookupGetter__";
   "__lookupSetter__"].

(** The accessor [__proto__] of [Object.prototype]. *)
Definition protoKey : Key := KStr "__proto__".

(** The prototype of an object, by its shape. *)
Definition hostOf (sh : Shape) : Host :=
  match sh with
  | Plain => ObjectPrototype
  | Arr => ArrayPrototype
  | Custom => ClassPrototype
  end.

(** What the prototype chain yields for a key that is not an own
    property.  No prototype has an integer key; [length] is an own
    property of every array. *)
Definition protoGet (sh : Shape) (k : Key) : Value :=
  match k with
  | KIdx _ => VUndef
  | KStr s =>
      if bool_decide (k = protoKey) then VHost (hostOf sh)
      else if bool_decide (sh = Arr) && bool_decide (s ∈ arrayMethods)
      then VFun ("Array.prototype." ++ s)
      else if bool_decide (sh = Custom) && bool_decide (s = "constructor")
      then VFun "C"
      else if bool_decide (s ∈ objectMethods)
      then VFun ("Object.prototype." ++ s)
      else VUndef
  end.

(** Whether the prototype chain has the key. *)
Definition protoHas (sh : Shape) (k : Key) : bool :=
  match k with
  | KIdx _ => false
  | KStr s =>
      bool_decide (k = protoKey)
      || (bool_decide (sh = Arr) && bool_decide (s ∈ arrayMethods))
      || bool_decide (s ∈ objectMethods)
  end.

(** The own property slot of [o] under [k], if any ([length] of an
    array and its elements are own data properties). *)
Definition ownSlot (o : Obj) (k : Key) : option Slot :=
  match shape o, k with
  | Arr, KIdx i => SData <$> mjoin (elems o !! i)
  | Arr, KStr "length" => Some (SData (VNum (Z.of_nat (length (elems o)))))
  | _, _ => props_get (props o) k
  end.

(** [o.hasOwnProperty(k)]. *)
Definition hasOwn (o : Obj) (k : Key) : bool :=
  bool_decide (is_Some (ownSlot o k)).

(** [desc && desc.get] for [desc = Object.getOwnPropertyDescriptor(o, k)]. *)
Definition hasGetter (o : Obj) (k : Key) : bool :=
  match ownSlot o k with Some (SGet _ _) => true | _ => false end.

(** Calling a getter with receiver [this]; a bound getter ignores it. *)
Definition callGetter (g : Value -> Value) (bound : option Value)
  (this : Value) : Value :=
  g (default this bound).

(** [o[k]] on the raw object [o], read with receiver [this]. *)
Definition rawGet (o : Obj) (this : Value) (k : Key) : Value :=
  match ownSlot o k with
  | Some (SData v) => v
  | Some (SGet g b) => callGetter g b this
  | None => protoGet (shape o) k
  end.

(** [o[$PROXY]] on the raw object at [l].  The symbol is private to the
    module and [wrap] is its only writer, so the property, when
    present, holds a Proxy whose target is [l]. *)
Definition rawGetProxy (l : Loc) (o : Obj) : Value :=
  match proxy o with
  | Some id => VProxy id l
  | None => VUndef
  end.

(** Resizing an array: truncation, or extension by holes. *)
Definition resize (n : nat) (es : list (option Value)) : list (option Value) :=
  take n es ++ replicate (n - length es) None.

(** An integer key that is an array index: below [2^32 - 1]. *)
Definition isArrayIndex (i : nat) : bool := (Z.of_nat i <? 4294967295)%Z.

(** What the setter of [__proto__] takes for a prototype: an object or
    [null]; it ignores any other value. *)
Definition isProtoCandidate (v : Value) : bool :=
  match v with
  | VNull | VFun _ | VObj _ | VProxy _ _ | VHost _ => true
  | _ => false
  end.

(** [ToNumber] of a value assigned to the [length] of an array, where
    it is an integer. *)
Definition lengthOf (v : Value) : option Z :=
  match v with
  | VNum z => Some z
  | VBool true => Some 1%Z
  | VBool false | VNull => Some 0%Z
  | _ => None
  end.

(** The values whose coercion to a length is followed: numbers,
    booleans, [null], [undefined] and [NaN] (the last two are rejected
    with a [RangeError]). *)
Definition lengthFollowed (v : Value) : bool :=
  match v with
  | VStr _ | VFun _ | VObj _ | VProxy _ _ | VHost _ => false
  | _ => true
  end.

(** [o[k] = v]; [None] when the assignment does not complete.
    - [__proto__], when it is not an own property, is the accessor of
      [Object.prototype]: its setter ignores a value that cannot be a
      prototype and accepts the prototype the object has.
    - A frozen object rejects every other assignment.
    - An index of an array extends the array (the elements of an
      array of the model are named by all integers below its length;
      a JavaScript array has fewer than [2^32 - 1] of them); the
      [length] of an array accepts an integer in [[0, 2^32)].
    - Any other key is an own property, created when absent; an
      accessor has no setter. *)
Definition obj_assign (o : Obj) (k : Key) (v : Value) : option Obj :=
  if bool_decide (k = protoKey) && negb (hasOwn o k)
  then
    if negb (isProtoCandidate v) || bool_decide (v = VHost (hostOf (shape o)))
    then Some o else None
  else if frozen o then None
  else
    match shape o, k with
    | Arr, KIdx i =>
        if bool_decide (i < length (elems o)) || isArrayIndex i
        then Some (mkObj (shape o) (frozen o) (props o)
                     (<[i := Some v]> (resize (Nat.max (S i) (length (elems o)))
                                         (elems o)))
                     (proxy o) (nodes o))
        else None
    | Arr, KStr "length" =>
        match lengthOf v with
        | Some z =>
            if (0 <=? z)%Z && (z <? 4294967296)%Z
            then Some (mkObj (shape o) (frozen o) (props o)
                         (resize (Z.to_nat z) (elems o)) (proxy o) (nodes o))
            else None
        | None => None
        end
    | _, _ =>
        match props_get (props o) k with
        | Some (SGet _ _) => None
        | _ => Some (mkObj (shape o) (frozen o)
                       (props_set (props o) k (SData v))
                       (elems o) (proxy o) (nodes o))
        end
    end.

(** Whether the model follows the assignment [o[k] = v].  It does not
    follow a change of prototype, the coercion of a string or an object
    to a length, and the creation on an array of a property named by an
    integer that is no index.  An assignment that is followed and does
    not complete throws. *)
Definition assignFollowed (o : Obj) (k : Key) (v : Value) : bool :=
  if bool_decide (k = protoKey) && negb (hasOwn o k)
  then negb (isProtoCandidate v)
       || bool_decide (v = VHost (hostOf (shape o)))
       || frozen o
  else
    match shape o, k with
    | Arr, KIdx i =>
        frozen o || bool_decide (i < length (elems o)) || isArrayIndex i
    | Arr, KStr "length" => lengthFollowed v
    | _, _ => true
    end.

(** [delete o[k]]; [None] when the deletion throws. *)
Definition obj_delete (o : Obj) (k : Key) : option Obj :=
  match ownSlot o k with
  | None => Some o
  | Some _ =>
      if frozen o then None
      else
        match shape o, k with
        | Arr, KIdx i =>
            Some (mkObj (shape o) (frozen o) (props o)
                    (<[i := None]> (elems o)) (proxy o) (nodes o))
        | Arr, KStr "length" => None
        | _, _ =>
            Some (mkObj (shape o) (frozen o) (props_del (props o) k)
                    (elems o) (proxy o) (nodes o))
        end
  end.

(** [Object.defineProperty] of the hidden markers; both throw on a
    frozen object. *)
Definition obj_defineProxy (o : Obj) (p : nat) : option Obj :=
  if frozen o then None
  else Some (mkObj (shape o) (frozen o) (props o) (elems o) (Some p) (nodes o)).

Definition obj_defineNodes (o : Obj) (n : gmap Key Cell) : option Obj :=
  if frozen o then None
  else Some (mkObj (shape o) (frozen o) (props o) (elems o) (proxy o) (Some n)).

(** Writing the registry object in place (it is an ordinary mutable
    object, also when its owner is frozen). *)
Definition obj_setNodes (o : Obj) (n : gmap Key Cell) : Obj :=
  mkObj (shape o) (frozen o) (props o) (elems o) (proxy o) (Some n).

(** ** Enumeration order *)

(** [OrdinaryOwnPropertyKeys]: the array indices in ascending order,
    then the other string keys in the order of their creation. *)
Definition indexKeys (ks : list Key) : list nat :=
  omap (fun k => match k with
                 | KIdx i => if isArrayIndex i then Some i else None
                 | KStr _ => None
                 end) ks.

Definition isName (k : Key) : bool :=
  match k with
  | KIdx i => negb (isArrayIndex i)
  | KStr _ => true
  end.

Definition keyOrder (ks : list Key) : list Key :=
  ((KIdx <$> merge_sort Nat.le (indexKeys ks))
   ++ filter (fun k => isName k = true) ks)%list.

(** [Object.keys(o)] for an object that is no array: every own
    property of the model is enumerable. *)
Definition ownEnumKeys (o : Obj) : list Key := keyOrder (fst <$> props o).

(** ** The invariants of a Proxy *)

(** A Proxy checks what its trap reports against the target
    (ECMA-262, 10.5).  An own property is non-configurable when the
    target is frozen, and the [length] of an array always is; it is
    non-writable when the target is frozen. *)

(** [[Get]]: a non-writable, non-configurable own data property must be
    reported with its value. *)
Definition getInvariant (o : Obj) (k : Key) (result : Value) : bool :=
  match ownSlot o k with
  | Some (SData v) => negb (frozen o) || bool_decide (result = v)
  | _ => true
  end.

(** [[Set]]: success must not be reported for a non-writable,
    non-configurable own data property given another value, nor for a
    non-configurable own accessor without a setter. *)
Definition setInvariant (o : Obj) (k : Key) (value : Value) : bool :=
  match ownSlot o k with
  | Some (SData w) => negb (frozen o) || bool_decide (value = w)
  | Some (SGet _ _) => negb (frozen o)
  | None => true
  end.

(** [[Delete]]: success must not be reported for an own property that
    is non-configurable, or whose object is not extensible. *)
Definition deleteInvariant (o : Obj) (k : Key) : bool :=
  match ownSlot o k with
  | Some _ =>
      negb (frozen o
            || (bool_decide (shape o = Arr) && bool_decide (k = KStr "length")))
  | None => true
  end.

(** ** The cell registry *)

(** [createDataNode(value)]: a fresh cell holding [value], with equality
    disabled, so that every write propagates. *)
Definition createDataNode (value : Value) : Cell := mkCell value ∅.

(** The registry object is reached through its owner: a cell is named
    by the location of the raw object and the key. *)
Definition cellOf (s : State) (l : Loc) (k : Key) : option Cell :=
  o ← heap s !! l; n ← nodes o; n !! k.

(** The registry is created as [{}]: a key under which it has no cell
    of its own is looked up on [Object.prototype].  Every property
    found there is truthy. *)
Definition inheritedNode (k : Key) : bool :=
  match k with
  | KStr s => bool_decide (k = protoKey) || bool_decide (s ∈ objectMethods)
  | KIdx _ => false
  end.

(** [node()]: the tracked read of the cell [(l, k)]. *)
Definition readCell (l : Loc) (k : Key) : M Value :=
  o <- lookupObj l;;
  match nodes o with
  | None => throw
  | Some n =>
      match n !! k with
      | None => throw
      | Some c =>
          s <- get_state;;
          match CurrentReaction s with
          | None => ret (payload c)
          | Some r =>
              storeObj l (obj_setNodes o
                (<[k := mkCell (payload c) ({[r]} ∪ observers c)]> n));;;
              ret (payload c)
          end
      end
  end.

(** [node.$(v)]: stores the payload and schedules the propagation.
    [node.$(() => v)] passes an updater, whose result [v] is stored.
    Where the registry has no cell of its own, [node] is a property of
    [Object.prototype], [node.$] is [undefined] and the call throws. *)
Definition writeCell (l : Loc) (k : Key) (v : Value) : M unit :=
  o <- lookupObj l;;
  match nodes o with
  | None => throw
  | Some n =>
      match n !! k with
      | None => throw
      | Some c =>
          storeObj l (obj_setNodes o (<[k := mkCell v (observers c)]> n));;;
          modify (fun s => mkState (heap s) (Writing s) (CurrentReaction s)
                             (nextProxy s) (fired s ++ [(l, k)]))
      end
  end.

(** [getDataNodes(target)]. *)
Definition getDataNodes (target : Loc) : M (gmap Key Cell) :=
  o <- lookupObj target;;
  match nodes o with
  | Some n => ret n
  | None =>
      match obj_defineNodes o ∅ with
      | Some o' => storeObj target o';;; ret ∅
      | None => throw
      end
  end.

(** [getDataNode(nodes, property, value)], for the registry of [target]:
    [nodes[property] || (nodes[property] = createDataNode(value))].  No
    cell is created under a key that [Object.prototype] answers. *)
Definition getDataNode (target : Loc) (property : Key) (value : Value)
  : M unit :=
  o <- lookupObj target;;
  match nodes o with
  | None => throw
  | Some n =>
      match n !! property with
      | Some _ => ret tt
      | None =>
          if inheritedNode property then ret tt
          else storeObj target
                 (obj_setNodes o (<[property := createDataNode value]> n))
      end
  end.

(** Allocation of a new object. *)
Definition alloc (o : Obj) : M Loc :=
  fun s =>
    let l := fresh (dom (heap s)) in
    (Ok l, set_heap (<[l := o]> (heap s)) s).

(** Calling, with no receiver and no argument, the property of
    [Object.prototype] that the registry answers under [k]:
    [toString] yields ["[object Undefined]"], [isPrototypeOf] yields
    [false], [constructor] a new empty object; the other functions
    reject an [undefined] receiver, and [__proto__] is no function. *)
Definition callInherited (k : Key) : M Value :=
  match k with
  | KStr "toString" => ret (VStr "[object Undefined]")
  | KStr "isPrototypeOf" => ret (VBool false)
  | KStr "constructor" =>
      l <- alloc (mkObj Plain false [] [] None None);;
      ret (VObj l)
  | _ => throw
  end.

(** [node()] for the node that [getDataNode] has just handed out: a
    cell of the registry, or a property of [Object.prototype]. *)
Definition callNode (l : Loc) (k : Key) : M Value :=
  o <- lookupObj l;;
  match nodes o ≫= (.!! k) with
  | Some _ => readCell l k
  | None => if inheritedNode k then callInherited k else throw
  end.

(** The reserved key of the whole-object cell, [nodes._]. *)
Definition selfKey : Key := KStr "_".

(** [trackSelf(target)]. *)
Definition trackSelf (target : Loc) : M unit :=
  s <- get_state;;
  match CurrentReaction s with
  | None => ret tt
  | Some _ =>
      _ <- getDataNodes target;;
      getDataNode target selfKey VUndef;;;
      _ <- readCell target selfKey;;
      ret tt
  end.

(** The own string keys of an array other than its indices and its
    [length]. *)
Definition otherArrayKey (k : Key) : bool :=
  match k with
  | KStr s => negb (bool_decide (s = "length"))
  | KIdx _ => false
  end.

(** [Reflect.ownKeys(o)]: the indices in ascending order, the other
    string keys in the order of their creation ([length] is the first
    of an array), then the symbols.  [$PROXY] comes before [$NODE]: the
    registry of an object is only ever created by a trap of its view. *)
Definition rawOwnKeys (o : Obj) : list PropertyKey :=
  ((PK <$> match shape o with
           | Arr =>
               (omap (fun i => match mjoin (elems o !! i) with
                               | Some _ => Some (KIdx i) | None => None end)
                     (seq 0 (length (elems o)))
                ++ [KStr "length"]
                ++ filter (fun k => otherArrayKey k = true) (fst <$> props o))%list
           | _ => ownEnumKeys o
           end)
   ++ match proxy o with Some _ => [PS PROXY] | None => [] end
   ++ match nodes o with Some _ => [PS NODE] | None => [] end)%list.

(** [ownKeys(target)]. *)
Definition ownKeys (target : Loc) : M (list PropertyKey) :=
  trackSelf target;;;
  o <- lookupObj target;;
  ret (rawOwnKeys o).

(** ** The wrap/unwrap layer *)

(** The loop of [wrap] over [Object.keys(value)]: every accessor found
    in the descriptor snapshot [desc] is redefined with its getter bound
    to the view [p]. *)
Definition rebindGetters (p : Value) (desc : list (Key * Slot))
  (keys : list Key) (ps : list (Key * Slot)) : list (Key * Slot) :=
  foldl (fun ps prop =>
           match props_get desc prop with
           | Some (SGet g b) => props_set ps prop (SGet g (Some (default p b)))
           | _ => ps
           end) ps keys.

(** [wrap(value)].  Reading [$PROXY] on a view yields the view itself
    (trap [get]); a primitive has no [$PROXY] and cannot carry one.  A
    function or a built-in prototype object would carry one: the model
    does not follow that. *)
Definition wrap (value : Value) : M Value :=
  match value with
  | VObj l =>
      o <- lookupObj l;;
      let p := rawGetProxy l o in
      if truthy p then ret p
      else
        s <- get_state;;
        let id := nextProxy s in
        let p := VProxy id l in
        modify (fun s => mkState (heap s) (Writing s) (CurrentReaction s)
                           (S (nextProxy s)) (fired s));;;
        match obj_defineProxy o id with
        | None => throw
        | Some o1 =>
            storeObj l o1;;;
            if bool_decide (shape o1 = Arr) then ret p
            else
              let keys := ownEnumKeys o1 in
              let desc := props o1 in
              storeObj l (mkObj (shape o1) (frozen o1)
                            (rebindGetters p desc keys (props o1))
                            (elems o1) (proxy o1) (nodes o1));;;
              ret p
        end
  | VProxy _ _ => ret value
  | VFun _ | VHost _ => unsupported
  | _ => throw
  end.

(** [isWrappable(obj)].  The built-in prototype objects are objects
    whose prototype is [null] or [Object.prototype]. *)
Definition isWrappable (obj : Value) : M bool :=
  match obj with
  | VObj l =>
      o <- lookupObj l;;
      ret (truthy (rawGetProxy l o)
           || bool_decide (shape o = Plain)
           || bool_decide (shape o = Arr))
  | VProxy _ _ | VHost _ => ret true
  | _ => ret false
  end.

(** ** The proxy traps *)

(** [target.hasOwnProperty(property)]: the method is looked up on the
    target.  When the target defines its own, what is found there is
    called: nothing that is no function can be called, and the model
    does not follow the call of another function. *)
Definition targetHasOwn (target : Loc) (o : Obj) (property : Key) : M bool :=
  let method := rawGet o (VObj target) (KStr "hasOwnProperty") in
  if bool_decide (method = VFun "Object.prototype.hasOwnProperty")
  then ret (hasOwn o property)
  else if is_function method then unsupported else throw.

(** [proxyTraps.get(target, property, receiver)].  The registry never
    holds a cell under a name of [Object.prototype] (see [getDataNode]),
    so that [nodes.hasOwnProperty] is the method of [Object.prototype]. *)
Definition trap_get (target : Loc) (property : PropertyKey)
  (receiver : Value) : M Value :=
  match property with
  | PS RAW => ret (VObj target)
  | PS PROXY => ret receiver
  | PS TRACK => trackSelf target;;; ret receiver
  | PS NODE =>
      (* the registry itself is handed out *)
      _ <- getDataNodes target;; unsupported
  | PK k =>
      n <- getDataNodes target;;
      let tracked := bool_decide (is_Some (n !! k)) in
      value <- (if tracked then readCell target k
                else o <- lookupObj target;; ret (rawGet o (VObj target) k));;
      if bool_decide (k = protoKey) then ret value
      else
        value <- (if tracked then ret value
                  else
                    o <- lookupObj target;;
                    s <- get_state;;
                    track <- (if bool_decide (is_Some (CurrentReaction s))
                              then
                                own <- (if is_function value
                                        then targetHasOwn target o k
                                        else ret true);;
                                ret (own && negb (hasGetter o k))
                              else ret false);;
                    if track : bool
                    then getDataNode target k value;;; callNode target k
                    else ret value);;
        w <- isWrappable value;;
        if w then wrap value else ret value
  end.

(** A property read [view[property]] on a view: the trap, then the
    invariant of [[Get]]. *)
Definition view_get (view : Value) (property : PropertyKey) : M Value :=
  match view with
  | VProxy _ target =>
      r <- trap_get target property view;;
      match property with
      | PK k =>
          o <- lookupObj target;;
          if getInvariant o k r then ret r else throw
      | PS _ => ret r
      end
  | _ => throw
  end.

(** [k in o] on a raw object. *)
Definition rawHas (o : Obj) (k : Key) : bool :=
  hasOwn o k || protoHas (shape o) k.

(** [proxyTraps.has(target, property)].  The read that tracks the
    property is made with the raw target as receiver. *)
Definition trap_has (target : Loc) (property : PropertyKey) : M bool :=
  match property with
  | PS _ => ret true
  | PK k =>
      if bool_decide (k = protoKey) then ret true
      else
        _ <- trap_get target (PK k) (VObj target);;
        o <- lookupObj target;;
        ret (rawHas o k)
  end.

(** [property in view].  The trap answers [true] whenever the target
    owns the property, so the invariant of [[HasProperty]] holds. *)
Definition view_has (view : Value) (property : PropertyKey) : M bool :=
  match view with
  | VProxy _ target => trap_has target property
  | _ => throw
  end.

(** [Reflect.ownKeys(view)]: the [ownKeys] trap of the view, which
    lists the own keys of the target as they are. *)
Definition view_ownKeys (view : Value) : M (list PropertyKey) :=
  match view with
  | VProxy _ target => ownKeys target
  | _ => throw
  end.

(** [setProperty(state, property, value, deleting)]. *)
Definition setProperty (state : Loc) (property : Key) (value : Value)
  (deleting : bool) : M unit :=
  o <- lookupObj state;;
  if negb deleting && strict_eq (rawGet o (VObj state) property) value
  then ret tt
  else
    let prev := rawGet o (VObj state) property in
    let len := rawGet o (VObj state) (KStr "length") in
    match (if deleting then obj_delete o property
           else obj_assign o property value) with
    | None =>
        if deleting || assignFollowed o property value
        then throw else unsupported
    | Some o1 =>
        storeObj state o1;;;
        n <- getDataNodes state;;
        getDataNode state property prev;;;
        writeCell state property value;;;
        o2 <- lookupObj state;;
        let len2 := rawGet o2 (VObj state) (KStr "length") in
        (if bool_decide (shape o2 = Arr) && negb (strict_eq len2 len)
         then getDataNode state (KStr "length") len;;;
              writeCell state (KStr "length") len2
         else ret tt);;;
        o3 <- lookupObj state;;
        match nodes o3 ≫= (.!! selfKey) with
        | Some _ => writeCell state selfKey VUndef
        | None => ret tt
        end
    end.

(** A [for] loop over a snapshot [xs], threading the loop state. *)
Fixpoint forM {A St : Type} (xs : list A) (f : A -> St -> M St) (st : St)
  : M St :=
  match xs with
  | [] => ret st
  | x :: xs' => st' <- f x st;; forM xs' f st'
  end.

(** [item[k] = v] as a statement. *)
Definition assignProp (l : Loc) (k : Key) (v : Value) : M unit :=
  o <- lookupObj l;;
  match obj_assign o k v with
  | Some o' => storeObj l o'
  | None => if assignFollowed o k v then throw else unsupported
  end.

(** [item.slice(0)]: a new, unfrozen array with the same elements. *)
Definition sliceCopy (o : Obj) : Obj :=
  mkObj Arr false [] (elems o) None None.

(** Whether [item.slice(0)] is followed: [item.slice] must be the
    method of [Array.prototype], which asks [item.constructor] for the
    kind of array to create: that must be the [Array] that
    [Array.prototype] answers. *)
Definition sliceFollowed (o : Obj) : bool :=
  negb (hasOwn o (KStr "slice")) && negb (hasOwn o (KStr "constructor")).

(** [Object.assign({}, item)]: a new plain object; every own enumerable
    property of [item] is read (getters run) and assigned to it.  The
    assignment of [__proto__] goes to the setter of [Object.prototype]
    and creates no property. *)
Definition assignCopy (l : Loc) (o : Obj) : Obj :=
  mkObj Plain false
    (foldl (fun ps k =>
              if bool_decide (k = protoKey) then ps
              else props_set ps k (SData (rawGet o (VObj l) k)))
       [] (ownEnumKeys o))
    [] None None.

(** Whether [Object.assign({}, item)] is followed: an own property
    [__proto__] of [item] must not change the prototype of the copy. *)
Definition copyFollowed (l : Loc) (o : Obj) : bool :=
  match props_get (props o) protoKey with
  | Some _ =>
      negb (isProtoCandidate (rawGet o (VObj l) protoKey))
      || bool_decide (rawGet o (VObj l) protoKey = VHost ObjectPrototype)
  | None => true
  end.

(** [unwrap(item, set)].  The [Set] is shared by all recursive calls, so
    it is threaded through them.  The recursion follows the object
    graph; [fuel] bounds its depth. *)
Fixpoint unwrap (fuel : nat) (item : Value) (set : gset Loc)
  : M (Value * gset Loc) :=
  match fuel with
  | O => out_of_fuel
  | S fuel' =>
      match item with
      | VProxy _ _ =>
          (* [item[$RAW]] is the target, which is truthy *)
          result <- view_get item (PS RAW);;
          ret (result, set)
      | VObj l0 =>
          w <- isWrappable item;;
          if negb w || bool_decide (l0 ∈ set) then ret (item, set)
          else
            o0 <- lookupObj l0;;
            if bool_decide (shape o0 = Arr) then
              ls <- (if frozen o0
                     then
                       if sliceFollowed o0
                       then l <- alloc (sliceCopy o0);; ret (l, set)
                       else unsupported
                     else ret (l0, {[l0]} ∪ set));;
              let l := ls.1 in
              o <- lookupObj l;;
              set' <- forM (seq 0 (length (elems o)))
                        (fun i set =>
                           o <- lookupObj l;;
                           let v := rawGet o (VObj l) (KIdx i) in
                           r <- unwrap fuel' v set;;
                           (if negb (strict_eq r.1 v)
                            then assignProp l (KIdx i) r.1
                            else ret tt);;;
                           ret r.2)
                        ls.2;;
              ret (VObj l, set')
            else
              ls <- (if frozen o0
                     then
                       if copyFollowed l0 o0
                       then l <- alloc (assignCopy l0 o0);; ret (l, set)
                       else unsupported
                     else ret (l0, {[l0]} ∪ set));;
              let l := ls.1 in
              o <- lookupObj l;;
              let keys := ownEnumKeys o in
              let desc := props o in
              set' <- forM keys
                        (fun prop set =>
                           match props_get desc prop with
                           | Some (SGet _ _) => ret set
                           | _ =>
                               o <- lookupObj l;;
                               let v := rawGet o (VObj l) prop in
                               r <- unwrap fuel' v set;;
                               (if negb (strict_eq r.1 v)
                                then assignProp l prop r.1
                                else ret tt);;;
                               ret r.2
                           end)
                        ls.2;;
              ret (VObj l, set')
      | _ =>
          (* a primitive or a function; a built-in prototype object,
             which has no enumerable property, is handed back too *)
          ret (item, set)
      end
  end.

(** [proxyTraps.set(target, property, value)]. *)
Definition trap_set (fuel : nat) (target : Loc) (property : Key)
  (value : Value) : M bool :=
  s <- get_state;;
  (if Writing s
   then u <- unwrap fuel value ∅;; setProperty target property u.1 false
   else ret tt);;;
  ret true.

(** [proxyTraps.deleteProperty(target, property)]. *)
Definition trap_deleteProperty (target : Loc) (property : Key) : M bool :=
  s <- get_state;;
  (if Writing s then setProperty target property VUndef true else ret tt);;;
  ret true.

(** An assignment [view[property] = value] and a deletion
    [delete view[property]] on a view: the trap, then the invariant of
    [[Set]] or of [[Delete]].  In strict code a trap that reports
    [false] makes the statement throw. *)
Definition view_set (fuel : nat) (view : Value) (property : Key)
  (value : Value) : M unit :=
  match view with
  | VProxy _ target =>
      b <- trap_set fuel target property value;;
      if b : bool
      then o <- lookupObj target;;
           if setInvariant o property value then ret tt else throw
      else throw
  | _ => throw
  end.

Definition view_delete (view : Value) (property : Key) : M unit :=
  match view with
  | VProxy _ target =>
      b <- trap_deleteProperty target property;;
      if b : bool
      then o <- lookupObj target;;
           if deleteInvariant o property then ret tt else throw
      else throw
  | _ => throw
  end.

(** ** The store *)

(** The mutator [setStore(fn)] returned by [createStore].  The callback
    is a computation over the view.  [batch] only defers the re-run of
    dependents, which the [fired] log does not record; the [finally]
    clause closes the gate on every outcome. *)
Definition setStore (wrappedStore : Value) (fn : Value -> M unit) : M unit :=
  fun s =>
    let r := fn wrappedStore (set_Writing true s) in
    (r.1, set_Writing false r.2).

(** [createStore(store)]: the view, to be passed to [setStore]. *)
Definition createStore (fuel : nat) (store : Value) : M Value :=
  u <- unwrap fuel store ∅;;
  wrap u.1.

(** ** Definitions used by the statements *)

(** Own properties that are all data properties. *)
Definition dataOnly (ps : list (Key * Slot)) : Prop :=
  forall k sl, In (k, sl) ps -> exists v, sl = SData v.

(** What every operation of the module keeps of an object: its shape,
    its frozen flag, its view once it has one, the absence of accessors,
    and, for a frozen object, all of its own properties (and the absence
    of a registry). *)
Definition obj_ext (o o' : Obj) : Prop :=
  shape o' = shape o
  /\ frozen o' = frozen o
  /\ (forall id, proxy o = Some id -> proxy o' = Some id)
  /\ (dataOnly (props o) -> dataOnly (props o'))
  /\ (frozen o = true ->
      props o' = props o /\ elems o' = elems o /\ proxy o' = proxy o
      /\ (nodes o = None -> nodes o' = None)).

Definition ext (s s' : State) : Prop :=
  forall l o, heap s !! l = Some o ->
    exists o', heap s' !! l = Some o' /\ obj_ext o o'.

Definition preserves {A} (m : M A) : Prop := forall s, ext s (m s).2.

(** ** Exact effect of the registry operations *)

(** The state after the object at [l] is replaced and [fs] is appended
    to the log of firings. *)
Definition upd (l : Loc) (o : Obj) (fs : list (Loc * Key)) (s : State) : State :=
  mkState (<[l := o]> (heap s)) (Writing s) (CurrentReaction s)
    (nextProxy s) (fired s ++ fs).

(** Writing [v] into the cell under [k], keeping its observers. *)
Definition fireReg (k : Key) (v : Value) (n : gmap Key Cell) : gmap Key Cell :=
  <[k := mkCell v (from_option observers ∅ (n !! k))]> n.

(** ** Exact effect of [setProperty] *)

(** The registry of [o] answers [k] with a cell: it has one, or
    [Object.prototype] does not answer [k], so that one is created. *)
Definition cellAvailable (o : Obj) (k : Key) : bool :=
  negb (inheritedNode k)
  || bool_decide (is_Some (default ∅ (nodes o) !! k)).

Definition lengthKey : Key := KStr "length".

(** The raw mutation of [setProperty]. *)
Definition rawMutation (o : Obj) (k : Key) (v : Value) (d : bool) : option Obj :=
  if d then obj_delete o k else obj_assign o k v.

(** Whether the mutation changed the length of an array. *)
Definition lengthChanged (l : Loc) (o o1 : Obj) : bool :=
  bool_decide (shape o1 = Arr)
  && negb (strict_eq (rawGet o1 (VObj l) lengthKey) (rawGet o (VObj l) lengthKey)).

(** The registry after the cell of the property and, when the length
    changed, the cell of [length] have been fired. *)
Definition nodesAfterProperty (l : Loc) (o o1 : Obj) (k : Key) (v : Value)
  : gmap Key Cell :=
  let n1 := fireReg k v (default ∅ (nodes o)) in
  if lengthChanged l o o1
  then fireReg lengthKey (rawGet o1 (VObj l) lengthKey) n1
  else n1.

Definition selfExists (l : Loc) (o o1 : Obj) (k : Key) (v : Value) : bool :=
  bool_decide (is_Some (nodesAfterProperty l o o1 k v !! selfKey)).

Definition nodesAfter (l : Loc) (o o1 : Obj) (k : Key) (v : Value)
  : gmap Key Cell :=
  if selfExists l o o1 k v
  then fireReg selfKey VUndef (nodesAfterProperty l o o1 k v)
  else nodesAfterProperty l o o1 k v.

Definition firings (l : Loc) (o o1 : Obj) (k : Key) (v : Value)
  : list (Loc * Key) :=
  (l, k)
  :: (if lengthChanged l o o1 then [(l, lengthKey)] else [])
  ++ (if selfExists l o o1 k v then [(l, selfKey)] else []).

(** The value a view hands out for [value]: its view when it is
    wrappable, the value itself otherwise. *)
Definition wrapIfWrappable (value : Value) : M Value :=
  w <- isWrappable value;;
  if w then wrap value else ret value.

(** What an untracked read hands out: the payload of the cell when the
    property has one, the raw value otherwise. *)
Definition untrackedValue (l : Loc) (o : Obj) (k : Key) : Value :=
  match default ∅ (nodes o) !! k with
  | Some c => payload c
  | None => rawGet o (VObj l) k
  end.

(** The end of the [get] trap: the value read under [__proto__] is
    handed out as it is, any other one through [wrap]. *)
Definition handOut (k : Key) (value : Value) : M Value :=
  if bool_decide (k = protoKey) then ret value else wrapIfWrappable value.

(** [Array.prototype.pop] called on a view (ECMA-262, 23.1.3.22): it
    reads [length] and the last element through the view, deletes the
    last index and assigns the new [length]. *)
Definition view_pop (fuel : nat) (view : Value) : M Value :=
  len <- view_get view (PK (KStr "length"));;
  match len with
  | VNum z =>
      if (z <=? 0)%Z
      then view_set fuel view (KStr "length") (VNum 0);;; ret VUndef
      else
        let index := KIdx (Z.to_nat (z - 1)) in
        element <- view_get view (PK index);;
        view_delete view index;;;
        view_set fuel view (KStr "length") (VNum (z - 1));;;
        ret element
  | _ =>
      (* [ToLength] of a value that is no number *)
      unsupported
  end.

Definition isPrimitive (v : Value) : Prop :=
  (forall l, v <> VObj l) /\ (forall i l, v <> VProxy i l).

(** A built-in prototype object. *)
Definition isHost (v : Value) : bool :=
  match v with VHost _ => true | _ => false end.

(** ** [unwrap] on data that holds no view *)


(** [isWrappable], as a property of the object. *)
Definition wrappableObj (o : Obj) : bool :=
  bool_decide (is_Some (proxy o))
  || bool_decide (shape o = Plain) || bool_decide (shape o = Arr).



(** [o.hasOwnProperty] is the method of [Object.prototype]. *)
Definition plainHasOwn (l : Loc) (o : Obj) : Prop :=
  rawGet o (VObj l) (KStr "hasOwnProperty")
  = VFun "Object.prototype.hasOwnProperty".

(** Whether the [get] trap, in a tracking context, creates a cell for
    the property [k] of [o] that has none: the registry inherits nothing
    under [k]; the property is no accessor; and its value is no
    function, unless the target owns the property and answers
    [hasOwnProperty] with the method of [Object.prototype]. *)
Definition creatable (l : Loc) (o : Obj) (k : Key) : Prop :=
  inheritedNode k = false
  /\ hasGetter o k = false
  /\ (is_function (rawGet o (VObj l) k) = false
      \/ (hasOwn o k = true /\ plainHasOwn l o)).

(** ** Frozen input *)

(** The private copy [unwrap] makes of a frozen object. *)
Definition frozenCopy (l : Loc) (o : Obj) : Obj :=
  if bool_decide (shape o = Arr) then sliceCopy o else assignCopy l o.

(** Whether the copy of a frozen object is followed. *)
Definition frozenCopyFollowed (l : Loc) (o : Obj) : bool :=
  if bool_decide (shape o = Arr) then sliceFollowed o else copyFollowed l o.

(** One step of [Object.assign({}, item)]. *)
Definition copyStep (l : Loc) (o : Obj) (ps : list (Key * Slot)) (k : Key)
  : list (Key * Slot) :=
  if bool_decide (k = protoKey) then ps
  else props_set ps k (SData (rawGet o (VObj l) k)).

(** The keys whose assignment is followed and never rejected on an
    unfrozen object without accessors: on an array, not [length], and
    no integer key beyond the index range. *)
Definition assignableKey (sh : Shape) (k : Key) : Prop :=
  sh = Arr ->
  k <> lengthKey /\ (forall i, k = KIdx i -> isArrayIndex i = true).


(** ** Invariants of the whole module *)

(** A computation keeps the relation [R] when its final state is
    related to its initial one, whatever the outcome. *)
Definition keeps (R : State -> State -> Prop) {A} (m : M A) : Prop :=
  forall s, R s (m s).2.

(** The cells of a registry are still there, with at least the same
    observers. *)
Definition cells_le (n n' : option (gmap Key Cell)) : Prop :=
  forall k c, n ≫= (.!! k) = Some c ->
    exists c', n' ≫= (.!! k) = Some c' /\ observers c ⊆ observers c'.

(** Every cell is still there, with at least the same observers. *)
Definition cells_kept (s s' : State) : Prop :=
  forall l k c, cellOf s l k = Some c ->
    exists c', cellOf s' l k = Some c' /\ observers c ⊆ observers c'.

(** Whether a tracked read of [k] on [o] goes through a cell: the cell
    exists, or the read creates it. *)
Definition trackable (l : Loc) (o : Obj) (k : Key) : Prop :=
  is_Some (default ∅ (nodes o) !! k) \/ creatable l o k.

(** The object once its registry exists. *)
Definition withRegistry (o : Obj) : Obj := obj_setNodes o (default ∅ (nodes o)).

(** ** A frozen cycle *)

(** A frozen object that holds itself, in an element of an array or in
    an own property other than [__proto__] of another object, and holds
    nothing else but primitives. *)
Definition holdsItself (l0 : Loc) (o0 : Obj) : Prop :=
  (if bool_decide (shape o0 = Arr)
   then exists i, elems o0 !! i = Some (Some (VObj l0))
   else exists k, k <> protoKey /\ hasOwn o0 k = true
                  /\ rawGet o0 (VObj l0) k = VObj l0)
  /\ forall k, isPrimitive (rawGet o0 (VObj l0) k)
               \/ rawGet o0 (VObj l0) k = VObj l0.

(** ** [unwrap] on a heap that holds views *)

Definition isView (v : Value) : bool :=
  match v with VProxy _ _ => true | _ => false end.

(** What [unwrap] hands back for [item]. *)
Definition stripped (item : Value) : Value :=
  match item with VProxy _ t => VObj t | _ => item end.

(** The keys the loops of [unwrap] go through: the own keys of an
    object, the indices of an array. *)
Definition traversed (o : Obj) (k : Key) : bool :=
  match shape o, k with Arr, KStr _ => false | _, _ => true end.

(** No traversed data property of [o] holds a view. *)
Definition viewFree (o : Obj) : Prop :=
  forall k v, traversed o k = true -> ownSlot o k = Some (SData v) ->
    isView v = false.

Definition refersInside (s : State) (v : Value) : Prop :=
  match v with
  | VObj l | VProxy _ l => l ∈ dom (heap s)
  | _ => True
  end.

(** Every reference held in a data property leads to an object of the
    heap, and no wrappable object is frozen. *)
Definition closedHeap (s : State) : Prop :=
  forall l o, heap s !! l = Some o ->
    (wrappableObj o = true -> frozen o = false)
    /\ forall k v, ownSlot o k = Some (SData v) -> refersInside s v.

Definition sameKind (a b : option Slot) : Prop :=
  match a, b with
  | None, None => True
  | Some (SData _), Some (SData _) => True
  | Some (SGet _ _), Some (SGet _ _) => True
  | _, _ => False
  end.

(** [o'] is [o] up to the values of its data properties. *)
Definition sameLayout (o o' : Obj) : Prop :=
  shape o' = shape o /\ frozen o' = frozen o /\ proxy o' = proxy o
  /\ length (elems o') = length (elems o)
  /\ (forall k, sameKind (ownSlot o' k) (ownSlot o k))
  /\ nodes o' = nodes o.

(** A key the loop of [unwrap] may assign to. *)
Definition assignable (o : Obj) (k : Key) : Prop :=
  match shape o, k with
  | Arr, KIdx i => i < length (elems o)
  | Arr, KStr _ => False
  | _, _ => exists v, props_get (props o) k = Some (SData v)
  end.

(** The body of both loops of [unwrap], for the key [k] of the object
    at [l]. *)
Definition visit (fuel : nat) (l : Loc) (k : Key) (set : gset Loc)
  : M (gset Loc) :=
  o <- lookupObj l;;
  let v := rawGet o (VObj l) k in
  r <- unwrap fuel v set;;
  (if negb (strict_eq r.1 v) then assignProp l k r.1 else ret tt);;;
  ret r.2.

(** The effect of [unwrap] with [fuel] on a closed heap. *)
Definition strips (fuel : nat) : Prop :=
  forall item set s,
    closedHeap s -> refersInside s item ->
    size (dom (heap s) ∖ set) < fuel ->
    exists set' s',
      unwrap fuel item set s = (Ok (stripped item, set'), s')
      /\ set ⊆ set'
      /\ closedHeap s'
      /\ dom (heap s') = dom (heap s)
      /\ s' = set_heap (heap s') s
      /\ (forall l, l ∈ set \/ l ∉ set' -> heap s' !! l = heap s !! l)
      /\ (forall l, l ∈ set' -> l ∉ set ->
            exists o', heap s' !! l = Some o' /\ viewFree o')
      /\ (forall l o, item = VObj l -> heap s !! l = Some o ->
            wrappableObj o = true -> l ∈ set')
      /\ (forall l o, heap s !! l = Some o ->
            exists o', heap s' !! l = Some o' /\ sameLayout o o').

(** The invariant of the loops of [unwrap] over the object [o0] at
    [l0], entered with the visited set [set0] in the state [s0]. *)
Definition unwrapInv (l0 : Loc) (o0 : Obj) (set0 : gset Loc) (s0 : State)
  (done : list Key) (st : gset Loc) (s : State) : Prop :=
  {[l0]} ∪ set0 ⊆ st
  /\ closedHeap s /\ dom (heap s) = dom (heap s0)
  /\ s = set_heap (heap s) s0
  /\ (exists o, heap s !! l0 = Some o /\ sameLayout o0 o
        /\ forall k v, k ∈ done -> ownSlot o k = Some (SData v) ->
             isView v = false)
  /\ (forall l, l <> l0 -> l ∈ set0 \/ l ∉ st -> heap s !! l = heap s0 !! l)
  /\ (forall l, l ∈ st -> l ∉ {[l0]} ∪ set0 ->
        exists o', heap s !! l = Some o' /\ viewFree o')
  /\ (forall l o, heap s0 !! l = Some o ->
        exists o', heap s !! l = Some o' /\ sameLayout o o').

(** ** Drivers and example heaps *)

(** Running a computation as the body of the reaction [r]: the ambient
    tracking context is [r] during the run and restored afterwards. *)
Definition inReaction {A} (r : nat) (m : M A) : M A :=
  fun s =>
    let x := m (set_CurrentReaction (Some r) s) in
    (x.1, set_CurrentReaction (CurrentReaction s) x.2).

(** The object [{_: 5, a: 1}] at location 0. *)
Definition exObj : Obj :=
  mkObj Plain false
    [(KStr "_", SData (VNum 5)); (KStr "a", SData (VNum 1))] [] None None.

Definition exState : State := mkState {[0 := exObj]} false None 0 [].

(** The same heap inside a transaction. *)
Definition exStateW : State := set_Writing true exState.



(** The array [[1, 2, 3]] at location 0, inside a transaction. *)
Definition exArr : Obj :=
  mkObj Arr false [] [Some (VNum 1); Some (VNum 2); Some (VNum 3)] None None.

Definition exArrState : State := mkState {[0 := exArr]} true None 0 [].

(** An object that refers to itself: [r.self = r]. *)
Definition exCyclic : Obj :=
  mkObj Plain false [(KStr "self", SData (VObj 0))] [] None None.

Definition exCyclicState : State := mkState {[0 := exCyclic]} false None 0 [].

(** The same array outside a transaction. *)
Definition exArrIdle : State := mkState {[0 := exArr]} false None 0 [].

(** The frozen object [Object.freeze({a: 1})] at location 0. *)
Definition exFrozen : Obj :=
  mkObj Plain true [(KStr "a", SData (VNum 1))] [] None None.


(** A store over [[1, 2, 3]]; the reaction 7 reads index 2; a
    transaction assigns [length = 0]; then index 2 is read again, outside
    any tracking context. *)
Definition exTruncation : M Value :=
  store <- createStore 2 (VObj 0);;
  _ <- inReaction 7 (view_get store (PK (KIdx 2)));;
  setStore store (fun d => view_set 1 d (KStr "length") (VNum 0));;;
  view_get store (PK (KIdx 2)).

(** The heap of [exState] while the reaction 7 runs. *)
Definition exTracked : State := set_CurrentReaction (Some 7) exState.

(** The object [{_: 5, a: 1}] once wrapped, with the view 0. *)
Definition exWrapped : Obj :=
  mkObj Plain false
    [(KStr "_", SData (VNum 5)); (KStr "a", SData (VNum 1))] [] (Some 0) None.

Definition exWrappedState : State := mkState {[0 := exWrapped]} false None 1 [].




(** A frozen object that refers to itself. *)
Definition exFrozenCyclic : Obj :=
  mkObj Plain true [(KStr "self", SData (VObj 0))] [] None None.

Definition exFrozenCyclicState : State :=
  mkState {[0 := exFrozenCyclic]} false None 0 [].

(** A holder at location 0 whose property [a] is the view 0 of the
    object at location 1, inside a transaction. *)
Definition exHolder : Obj :=
  mkObj Plain false
    [(KStr "a", SData (VProxy 0 1)); (KStr "n", SData (VNum 1))] [] None None.

Definition exTarget : Obj :=
  mkObj Plain false [(KStr "c", SData (VNum 2))] [] (Some 0) None.

Definition exViewsState : State :=
  mkState (<[0 := exHolder]> {[1 := exTarget]}) true None 1 [].

(** A parent at location 0 whose property [child] is the frozen object
    at location 1. *)
Definition exParent : Obj :=
  mkObj Plain false [(KStr "child", SData (VObj 1))] [] None None.

Definition exFrozenChildState : State :=
  mkState (<[0 := exParent]> {[1 := exFrozen]}) false None 0 [].

(** * Proofs *)

Ltac unfold_m :=
  unfold bind, ret, throw, unsupported, get_state, put_state, modify,
    lookupObj, storeObj.

(** ** What every operation preserves *)
Lemma obj_ext_refl o : obj_ext o o.
Proof. unfold obj_ext. repeat split; auto. Qed.

Lemma obj_ext_trans o1 o2 o3 : obj_ext o1 o2 -> obj_ext o2 o3 -> obj_ext o1 o3.
Proof.
  intros (Hs & Hf & Hp & Hd & Hz) (Hs' & Hf' & Hp' & Hd' & Hz').
  unfold obj_ext. split; [congruence|]. split; [congruence|].
  split; [auto|]. split; [auto|].
  intros Hfr. destruct (Hz Hfr) as (? & ? & ? & Hn).
  destruct Hz' as (? & ? & ? & Hn'); [congruence|].
  repeat split; try congruence. auto.
Qed.

(** An update that touches the registry only. *)
Lemma obj_ext_registry o o' :
  shape o' = shape o -> frozen o' = frozen o -> props o' = props o ->
  elems o' = elems o -> proxy o' = proxy o ->
  (frozen o = true -> nodes o = None -> nodes o' = None) ->
  obj_ext o o'.
Proof.
  intros Hs Hf Hp He Hx Hn. unfold obj_ext.
  split; [exact Hs|]. split; [exact Hf|].
  split; [intros; congruence|]. split; [rewrite Hp; auto|].
  intros Hfr. repeat split; auto.
Qed.

(** An update of an object that is not frozen. *)
Lemma obj_ext_unfrozen o o' :
  frozen o = false -> shape o' = shape o -> frozen o' = false ->
  (forall id, proxy o = Some id -> proxy o' = Some id) ->
  (dataOnly (props o) -> dataOnly (props o')) ->
  obj_ext o o'.
Proof.
  intros Hf Hs Hf' Hp Hd. unfold obj_ext.
  split; [exact Hs|]. split; [congruence|].
  split; [exact Hp|]. split; [exact Hd|]. congruence.
Qed.

#[global] Instance ext_preorder : PreOrder ext.
Proof.
  split.
  - intros s l o Ho. exists o. split; [done|apply obj_ext_refl].
  - intros s1 s2 s3 H12 H23 l o Ho.
    destruct (H12 l o Ho) as (o2 & Ho2 & He2).
    destruct (H23 l o2 Ho2) as (o3 & Ho3 & He3).
    exists o3. split; [done|]. eapply obj_ext_trans; eauto.
Qed.

Lemma preserves_ret {A} (a : A) : preserves (ret a).
Proof. intros s. reflexivity. Qed.

Lemma preserves_throw {A} : preserves (@throw A).
Proof. intros s. reflexivity. Qed.

Lemma preserves_out_of_fuel {A} : preserves (@out_of_fuel A).
Proof. intros s. reflexivity. Qed.

Lemma preserves_unsupported {A} : preserves (@unsupported A).
Proof. intros s. reflexivity. Qed.

Lemma preserves_get_state : preserves get_state.
Proof. intros s. reflexivity. Qed.

Lemma preserves_lookupObj l : preserves (lookupObj l).
Proof. intros s. unfold lookupObj. destruct (heap s !! l); reflexivity. Qed.

Lemma preserves_bind {A B} (m : M A) (k : A -> M B) :
  preserves m -> (forall a, preserves (k a)) -> preserves (bind m k).
Proof.
  intros Hm Hk s. unfold bind. specialize (Hm s).
  destruct (m s) as [[a| | |] s1]; simpl in *; try assumption.
  etransitivity; [exact Hm|apply Hk].
Qed.

(** Replacing the object at [l] by an extension of it. *)
Lemma ext_store s s' l o o' :
  heap s !! l = Some o -> obj_ext o o' ->
  heap s' = <[l := o']> (heap s) ->
  ext s s'.
Proof.
  intros Ho He Hh l1 o1 H1. rewrite Hh.
  destruct (decide (l = l1)) as [->|Hne].
  - rewrite lookup_insert_eq. exists o'. split; [done|]. congruence.
  - rewrite lookup_insert_ne by done. exists o1. split; [done|apply obj_ext_refl].
Qed.

Lemma ext_heap_eq s s' : heap s' = heap s -> ext s s'.
Proof. intros H l o Ho. exists o. rewrite H. split; [done|apply obj_ext_refl]. Qed.

Lemma obj_setNodes_ext o n n' :
  nodes o = Some n -> obj_ext o (obj_setNodes o n').
Proof.
  intros Hn. apply obj_ext_registry; try reflexivity. congruence.
Qed.

Lemma props_get_In ps k sl : props_get ps k = Some sl -> In (k, sl) ps.
Proof.
  induction ps as [|[k' sl'] ps IH]; simpl; [discriminate|].
  destruct (decide (k' = k)) as [->|Hne].
  - intros [= ->]. left. reflexivity.
  - intros H. right. apply IH. exact H.
Qed.

Lemma props_set_In ps k sl k' sl' :
  In (k', sl') (props_set ps k sl) -> (k', sl') = (k, sl) \/ In (k', sl') ps.
Proof.
  induction ps as [|[k0 sl0] ps IH]; simpl.
  - intros [H|[]]. left. congruence.
  - destruct (decide (k0 = k)) as [->|Hne]; simpl.
    + intros [H|H]; [left; congruence|right; right; exact H].
    + intros [H|H]; [right; left; exact H|].
      destruct (IH H) as [?|?]; [left; assumption|right; right; assumption].
Qed.

Lemma props_del_In ps k k' sl' :
  In (k', sl') (props_del ps k) -> In (k', sl') ps.
Proof.
  induction ps as [|[k0 sl0] ps IH]; simpl; [tauto|].
  destruct (decide (k0 = k)) as [->|Hne]; simpl.
  - intros H. right. exact H.
  - intros [H|H]; [left; exact H|right; apply IH; exact H].
Qed.

Lemma props_set_dataOnly ps k v :
  dataOnly ps -> dataOnly (props_set ps k (SData v)).
Proof.
  intros Hd k' sl' Hin. destruct (props_set_In _ _ _ _ _ Hin) as [[= -> ->]|H].
  - eauto.
  - eapply Hd. exact H.
Qed.

Lemma props_del_dataOnly ps k : dataOnly ps -> dataOnly (props_del ps k).
Proof. intros Hd k' sl' Hin. eapply Hd. eapply props_del_In. exact Hin. Qed.

Lemma obj_assign_ext o k v o' : obj_assign o k v = Some o' -> obj_ext o o'.
Proof.
  unfold obj_assign.
  destruct (bool_decide (k = protoKey) && negb (hasOwn o k)).
  { case_match; [intros [= <-]; apply obj_ext_refl|discriminate]. }
  destruct (frozen o) eqn:Hf; [discriminate|].
  intros H.
  assert (shape o' = shape o /\ frozen o' = frozen o /\ proxy o' = proxy o
          /\ (dataOnly (props o) -> dataOnly (props o'))) as (?&?&?&?).
  { destruct (shape o), k; repeat case_match; simplify_eq; simpl;
      auto using props_set_dataOnly. }
  apply obj_ext_unfrozen; auto; congruence.
Qed.

Lemma obj_delete_ext o k o' : obj_delete o k = Some o' -> obj_ext o o'.
Proof.
  unfold obj_delete. destruct (ownSlot o k); [|intros [= <-]; apply obj_ext_refl].
  destruct (frozen o) eqn:Hf; [discriminate|].
  intros H.
  assert (shape o' = shape o /\ frozen o' = frozen o /\ proxy o' = proxy o
          /\ (dataOnly (props o) -> dataOnly (props o'))) as (?&?&?&?).
  { destruct (shape o), k; repeat case_match; simplify_eq; simpl;
      auto using props_del_dataOnly. }
  apply obj_ext_unfrozen; auto; congruence.
Qed.

Lemma preserves_readCell l k : preserves (readCell l k).
Proof.
  intros s. unfold readCell; unfold_m.
  destruct (heap s !! l) as [o|] eqn:Ho; simpl; [|reflexivity].
  destruct (nodes o) as [n|] eqn:Hn; simpl; [|reflexivity].
  destruct (n !! k) as [c|]; simpl; [|reflexivity].
  destruct (CurrentReaction s); simpl; [|reflexivity].
  eapply ext_store; [exact Ho|eapply obj_setNodes_ext; exact Hn|reflexivity].
Qed.

Lemma preserves_writeCell l k v : preserves (writeCell l k v).
Proof.
  intros s. unfold writeCell; unfold_m.
  destruct (heap s !! l) as [o|] eqn:Ho; simpl; [|reflexivity].
  destruct (nodes o) as [n|] eqn:Hn; simpl; [|reflexivity].
  destruct (n !! k) as [c|]; simpl; [|reflexivity].
  eapply ext_store; [exact Ho|eapply obj_setNodes_ext; exact Hn|reflexivity].
Qed.

Lemma preserves_getDataNodes l : preserves (getDataNodes l).
Proof.
  intros s. unfold getDataNodes; unfold_m.
  destruct (heap s !! l) as [o|] eqn:Ho; simpl; [|reflexivity].
  destruct (nodes o) as [n|] eqn:Hn; simpl; [reflexivity|].
  unfold obj_defineNodes. destruct (frozen o) eqn:Hf; simpl; [reflexivity|].
  eapply ext_store; [exact Ho| |reflexivity].
  apply obj_ext_registry; try reflexivity; simpl; congruence.
Qed.

Lemma preserves_getDataNode l k v : preserves (getDataNode l k v).
Proof.
  intros s. unfold getDataNode; unfold_m.
  destruct (heap s !! l) as [o|] eqn:Ho; simpl; [|reflexivity].
  destruct (nodes o) as [n|] eqn:Hn; simpl; [|reflexivity].
  destruct (n !! k) as [c|]; simpl; [reflexivity|].
  destruct (inheritedNode k); simpl; [reflexivity|].
  eapply ext_store; [exact Ho|eapply obj_setNodes_ext; exact Hn|reflexivity].
Qed.

Lemma preserves_assignProp l k v : preserves (assignProp l k v).
Proof.
  intros s. unfold assignProp; unfold_m.
  destruct (heap s !! l) as [o|] eqn:Ho; simpl; [|reflexivity].
  destruct (obj_assign o k v) as [o'|] eqn:Ha; simpl;
    [|destruct (assignFollowed o k v); reflexivity].
  eapply ext_store; [exact Ho|eauto using obj_assign_ext|reflexivity].
Qed.

Lemma preserves_alloc o : preserves (alloc o).
Proof.
  intros s l1 o1 H1. unfold alloc. simpl.
  exists o1. split; [|apply obj_ext_refl].
  rewrite lookup_insert_ne; [done|].
  intros <-. apply (is_fresh (dom (heap s))). apply elem_of_dom. eauto.
Qed.

Ltac pres_bind :=
  match goal with
  | |- preserves (bind _ _) => apply preserves_bind; [|intro]
  end.

Lemma preserves_modify_heap_eq (f : State -> State) :
  (forall s, heap (f s) = heap s) -> preserves (modify f).
Proof. intros H s. apply ext_heap_eq. simpl. apply H. Qed.

Lemma preserves_trackSelf l : preserves (trackSelf l).
Proof.
  unfold trackSelf. apply preserves_bind; [apply preserves_get_state|].
  intros s. destruct (CurrentReaction s); [|apply preserves_ret].
  repeat pres_bind;
    auto using preserves_getDataNodes, preserves_getDataNode,
      preserves_readCell, preserves_ret.
Qed.

Lemma preserves_ownKeys l : preserves (ownKeys l).
Proof.
  unfold ownKeys.
  repeat pres_bind;
    auto using preserves_trackSelf, preserves_lookupObj, preserves_ret.
Qed.

Lemma preserves_isWrappable v : preserves (isWrappable v).
Proof.
  destruct v; simpl; try apply preserves_ret.
  apply preserves_bind; [apply preserves_lookupObj|intros; apply preserves_ret].
Qed.

Lemma rebindGetters_dataOnly p ps keys :
  dataOnly ps -> rebindGetters p ps keys ps = ps.
Proof.
  intros Hd. unfold rebindGetters.
  assert (H : forall ks acc,
             foldl (fun ps0 prop =>
                      match props_get ps prop with
                      | Some (SGet g b) =>
                          props_set ps0 prop (SGet g (Some (default p b)))
                      | _ => ps0
                      end) acc ks = acc).
  { induction ks as [|k ks IH]; intros acc; simpl; [reflexivity|].
    destruct (props_get ps k) as [[v|g b]|] eqn:Hk; try apply IH.
    apply props_get_In in Hk. destruct (Hd _ _ Hk) as [v ?]. discriminate. }
  apply H.
Qed.

Lemma preserves_wrap v : preserves (wrap v).
Proof.
  destruct v; simpl; try apply preserves_throw; try apply preserves_ret;
    try apply preserves_unsupported.
  intros s. unfold_m.
  destruct (heap s !! l) as [o|] eqn:Ho; simpl; [|reflexivity].
  unfold rawGetProxy. destruct (proxy o) as [id|] eqn:Hp; simpl; [reflexivity|].
  unfold obj_defineProxy. destruct (frozen o) eqn:Hf; simpl.
  { apply ext_heap_eq. reflexivity. }
  case_bool_decide; simpl.
  - eapply ext_store; [exact Ho| |reflexivity].
    apply obj_ext_unfrozen; simpl; auto; congruence.
  - rewrite insert_insert_eq.
    eapply ext_store; [exact Ho| |reflexivity].
    apply obj_ext_unfrozen; simpl; auto; [congruence|].
    intros Hd. rewrite rebindGetters_dataOnly by exact Hd. exact Hd.
Qed.

Lemma preserves_callInherited k : preserves (callInherited k).
Proof.
  unfold callInherited.
  repeat case_match; try apply preserves_throw; try apply preserves_ret.
  apply preserves_bind; [apply preserves_alloc|intros; apply preserves_ret].
Qed.

Lemma preserves_callNode l k : preserves (callNode l k).
Proof.
  unfold callNode. apply preserves_bind; [apply preserves_lookupObj|intros o].
  destruct (nodes o ≫= _); [apply preserves_readCell|].
  destruct (inheritedNode k); [apply preserves_callInherited|apply preserves_throw].
Qed.

Lemma preserves_targetHasOwn l o k : preserves (targetHasOwn l o k).
Proof.
  unfold targetHasOwn. case_bool_decide; [apply preserves_ret|].
  destruct (is_function _); [apply preserves_unsupported|apply preserves_throw].
Qed.

Lemma preserves_trap_get l p r : preserves (trap_get l p r).
Proof.
  unfold trap_get. destruct p as [k|[]];
    try apply preserves_ret.
  2:{ apply preserves_bind; [apply preserves_trackSelf|intros; apply preserves_ret]. }
  2:{ apply preserves_bind; [apply preserves_getDataNodes|].
      intros; apply preserves_unsupported. }
  apply preserves_bind; [apply preserves_getDataNodes|intros n].
  apply preserves_bind.
  { case_bool_decide; [apply preserves_readCell|].
    apply preserves_bind; [apply preserves_lookupObj|intros; apply preserves_ret]. }
  intros value. case_bool_decide; [apply preserves_ret|].
  apply preserves_bind.
  { case_bool_decide; [apply preserves_ret|].
    apply preserves_bind; [apply preserves_lookupObj|intros o].
    apply preserves_bind; [apply preserves_get_state|intros s].
    apply preserves_bind.
    { case_bool_decide; [|apply preserves_ret].
      apply preserves_bind; [|intros; apply preserves_ret].
      destruct (is_function value); [apply preserves_targetHasOwn|apply preserves_ret]. }
    intros [|]; [|apply preserves_ret].
    apply preserves_bind; [apply preserves_getDataNode|intros; apply preserves_callNode]. }
  intros value'. apply preserves_bind; [apply preserves_isWrappable|intros w].
  destruct w; [apply preserves_wrap|apply preserves_ret].
Qed.

Lemma preserves_view_get v p : preserves (view_get v p).
Proof.
  destruct v; simpl; try apply preserves_throw.
  apply preserves_bind; [apply preserves_trap_get|intros r].
  destruct p; [|apply preserves_ret].
  apply preserves_bind; [apply preserves_lookupObj|intros o].
  case_match; [apply preserves_ret|apply preserves_throw].
Qed.

Lemma preserves_setProperty l k v d : preserves (setProperty l k v d).
Proof.
  intros s. unfold setProperty. unfold bind at 1. unfold lookupObj.
  destruct (heap s !! l) as [o|] eqn:Ho; simpl; [|reflexivity].
  match goal with |- context [if ?b then _ else _] => destruct b end;
    [reflexivity|].
  match goal with |- context [match ?x with Some _ => _ | None => _ end] =>
    destruct x as [o1|] eqn:Hm end;
    [|destruct (d || assignFollowed o k v); reflexivity].
  assert (He : obj_ext o o1).
  { destruct d; eauto using obj_assign_ext, obj_delete_ext. }
  unfold bind at 1. unfold storeObj at 1, modify. 
  match goal with |- ext _ (?m ?s1).2 =>
    assert (Hp : preserves m); [|etransitivity; [|apply (Hp s1)]] end.
  2:{ eapply ext_store; [exact Ho|exact He|reflexivity]. }
  apply preserves_bind; [apply preserves_getDataNodes|intros n].
  apply preserves_bind; [apply preserves_getDataNode|intros _].
  apply preserves_bind; [apply preserves_writeCell|intros _].
  apply preserves_bind; [apply preserves_lookupObj|intros o2].
  apply preserves_bind.
  { match goal with |- preserves (if ?b then _ else _) => destruct b end;
      [|apply preserves_ret].
    apply preserves_bind; [apply preserves_getDataNode|intros; apply preserves_writeCell]. }
  intros _. apply preserves_bind; [apply preserves_lookupObj|intros o3].
  destruct (nodes o3 ≫= _); [apply preserves_writeCell|apply preserves_ret].
Qed.

Lemma preserves_forM {A St} (xs : list A) (f : A -> St -> M St) st :
  (forall x st, preserves (f x st)) -> preserves (forM xs f st).
Proof.
  intros Hf. revert st. induction xs as [|x xs IH]; intros st; simpl.
  - apply preserves_ret.
  - apply preserves_bind; [apply Hf|intros; apply IH].
Qed.

Lemma preserves_unwrap fuel : forall v set, preserves (unwrap fuel v set).
Proof.
  induction fuel as [|fuel IH]; intros v set; simpl.
  - apply preserves_out_of_fuel.
  - destruct v; try apply preserves_ret.
    apply preserves_bind; [apply preserves_isWrappable|intros w].
    match goal with |- preserves (if ?b then _ else _) => destruct b end;
      [apply preserves_ret|].
    apply preserves_bind; [apply preserves_lookupObj|intros o0].
    case_bool_decide.
    + apply preserves_bind.
        { destruct (frozen o0); [|apply preserves_ret].
          case_match; [|apply preserves_unsupported].
          apply preserves_bind; [apply preserves_alloc|intros; apply preserves_ret]. }
        intros ls. apply preserves_bind; [apply preserves_lookupObj|intros o].
        apply preserves_bind; [|intros; apply preserves_ret].
        apply preserves_forM. intros i st.
        apply preserves_bind; [apply preserves_lookupObj|intros o'].
        apply preserves_bind; [apply IH|intros r].
        apply preserves_bind; [|intros; apply preserves_ret].
        match goal with |- preserves (if ?b then _ else _) => destruct b end;
          [apply preserves_assignProp|apply preserves_ret].
    + apply preserves_bind.
        { destruct (frozen o0); [|apply preserves_ret].
          case_match; [|apply preserves_unsupported].
          apply preserves_bind; [apply preserves_alloc|intros; apply preserves_ret]. }
        intros ls. apply preserves_bind; [apply preserves_lookupObj|intros o].
        apply preserves_bind; [|intros; apply preserves_ret].
        apply preserves_forM. intros prop st.
        assert (Hb : preserves (o' <- lookupObj ls.1;;
                     (let v := rawGet o' (VObj ls.1) prop in
                      r <- unwrap fuel v st;;
                      (if negb (strict_eq r.1 v) then assignProp ls.1 prop r.1 else ret tt);;;
                      ret r.2))).
        { apply preserves_bind; [apply preserves_lookupObj|intros o'].
          apply preserves_bind; [apply IH|intros r].
          apply preserves_bind; [|intros; apply preserves_ret].
          match goal with |- preserves (if ?b then _ else _) => destruct b end;
            [apply preserves_assignProp|apply preserves_ret]. }
        destruct (props_get (props o) prop) as [[]|]; try exact Hb.
        apply preserves_ret.
Qed.

Lemma preserves_trap_set fuel l k v : preserves (trap_set fuel l k v).
Proof.
  unfold trap_set. apply preserves_bind; [apply preserves_get_state|intros s].
  apply preserves_bind; [|intros; apply preserves_ret].
  destruct (Writing s); [|apply preserves_ret].
  apply preserves_bind; [apply preserves_unwrap|intros; apply preserves_setProperty].
Qed.

Lemma preserves_trap_deleteProperty l k : preserves (trap_deleteProperty l k).
Proof.
  unfold trap_deleteProperty. apply preserves_bind; [apply preserves_get_state|intros s].
  apply preserves_bind; [|intros; apply preserves_ret].
  destruct (Writing s); [|apply preserves_ret]. apply preserves_setProperty.
Qed.

Lemma preserves_view_set fuel v k x : preserves (view_set fuel v k x).
Proof.
  destruct v; simpl; try apply preserves_throw.
  apply preserves_bind; [apply preserves_trap_set|intros []];
    [|apply preserves_throw].
  apply preserves_bind; [apply preserves_lookupObj|intros o].
  case_match; [apply preserves_ret|apply preserves_throw].
Qed.

Lemma preserves_view_delete v k : preserves (view_delete v k).
Proof.
  destruct v; simpl; try apply preserves_throw.
  apply preserves_bind; [apply preserves_trap_deleteProperty|intros []];
    [|apply preserves_throw].
  apply preserves_bind; [apply preserves_lookupObj|intros o].
  case_match; [apply preserves_ret|apply preserves_throw].
Qed.



(** ** Facts about [wrap] *)

Lemma wrap_cached r o id s :
  heap s !! r = Some o -> proxy o = Some id ->
  wrap (VObj r) s = (Ok (VProxy id r), s).
Proof.
  intros Ho Hp. simpl; unfold_m. rewrite Ho. simpl.
  unfold rawGetProxy. rewrite Hp. reflexivity.
Qed.

Lemma wrap_fresh r o s :
  heap s !! r = Some o -> proxy o = None -> frozen o = false ->
  exists s1 o1,
    wrap (VObj r) s = (Ok (VProxy (nextProxy s) r), s1)
    /\ heap s1 = <[r := o1]> (heap s)
    /\ proxy o1 = Some (nextProxy s)
    /\ nodes o1 = nodes o /\ elems o1 = elems o /\ shape o1 = shape o
    /\ frozen o1 = false
    /\ nextProxy s1 = S (nextProxy s)
    /\ Writing s1 = Writing s /\ CurrentReaction s1 = CurrentReaction s
    /\ fired s1 = fired s.
Proof.
  intros Ho Hp Hf. simpl; unfold_m. rewrite Ho. simpl.
  unfold rawGetProxy, obj_defineProxy. rewrite Hp, Hf. simpl.
  case_bool_decide; simpl.
  - eexists _, _. split; [reflexivity|]. simpl. repeat split; auto.
  - eexists _, _. split; [reflexivity|]. simpl.
    rewrite insert_insert_eq. repeat split; auto.
Qed.

Lemma wrap_ok_inv r s p s1 :
  wrap (VObj r) s = (Ok p, s1) ->
  exists o1 id, heap s1 !! r = Some o1 /\ proxy o1 = Some id /\ p = VProxy id r.
Proof.
  intros H.
  destruct (heap s !! r) as [o|] eqn:Ho.
  2:{ simpl in H. unfold bind, lookupObj in H. rewrite Ho in H. discriminate. }
  destruct (proxy o) as [id|] eqn:Hp.
  { rewrite (wrap_cached _ _ _ _ Ho Hp) in H. simplify_eq. eauto. }
  destruct (frozen o) eqn:Hf.
  { simpl in H. unfold bind, lookupObj in H. rewrite Ho in H. simpl in H.
    unfold rawGetProxy, obj_defineProxy in H. rewrite Hp, Hf in H. discriminate. }
  destruct (wrap_fresh _ _ _ Ho Hp Hf) as (s1' & o1 & Hw & Hh & Hp1 & _).
  rewrite Hw in H. simplify_eq. exists o1, (nextProxy s).
  rewrite Hh, lookup_insert_eq. auto.
Qed.

(** C5: identity stability.  Once [wrap] has returned a view for the
    raw object [r], every later call returns that same view and creates
    nothing, also after any computation built from the operations of the
    module (each of which is shown to satisfy [preserves]): at most one
    view ever exists for [r], cached in its [proxy] field. *)
Theorem wrap_identity_stable r s p s1 :
  wrap (VObj r) s = (Ok p, s1) ->
  wrap (VObj r) s1 = (Ok p, s1)
  /\ (forall A (m : M A), preserves m ->
        wrap (VObj r) (m s1).2 = (Ok p, (m s1).2)).
Proof.
  intros H. destruct (wrap_ok_inv _ _ _ _ H) as (o1 & id & Ho1 & Hp1 & ->).
  split; [eapply wrap_cached; eauto|].
  intros A m Hm. destruct (Hm s1 r o1 Ho1) as (o2 & Ho2 & _ & _ & Hp2 & _).
  eapply wrap_cached; eauto.
Qed.

Lemma unwrap_view fuel id r set s :
  unwrap (S fuel) (VProxy id r) set s = (Ok (VObj r, set), s).
Proof. reflexivity. Qed.

Lemma unwrap_not_wrappable fuel l o set s :
  heap s !! l = Some o -> shape o = Custom -> proxy o = None ->
  unwrap (S fuel) (VObj l) set s = (Ok (VObj l, set), s).
Proof.
  intros Ho Hs Hp. simpl; unfold_m. rewrite Ho. simpl.
  unfold rawGetProxy. rewrite Hp, Hs. reflexivity.
Qed.

(** ** The registry operations, step by step *)
Lemma upd_upd l o1 o2 fs1 fs2 s :
  upd l o2 fs2 (upd l o1 fs1 s) = upd l o2 (fs1 ++ fs2) s.
Proof. unfold upd; simpl. rewrite insert_insert_eq, app_assoc. reflexivity. Qed.

Lemma upd_lookup l o fs s : heap (upd l o fs s) !! l = Some o.
Proof. simpl. apply lookup_insert_eq. Qed.

Lemma obj_setNodes_twice o n1 n2 :
  obj_setNodes (obj_setNodes o n1) n2 = obj_setNodes o n2.
Proof. reflexivity. Qed.

Lemma getDataNodes_present l o n s :
  heap s !! l = Some o -> nodes o = Some n ->
  getDataNodes l s = (Ok n, s).
Proof. intros Ho Hn. unfold getDataNodes; unfold_m. rewrite Ho; simpl. rewrite Hn. reflexivity. Qed.

Lemma getDataNodes_absent l o s :
  heap s !! l = Some o -> nodes o = None -> frozen o = false ->
  getDataNodes l s = (Ok ∅, upd l (obj_setNodes o ∅) [] s).
Proof.
  intros Ho Hn Hf. unfold getDataNodes; unfold_m. rewrite Ho; simpl.
  unfold obj_defineNodes. rewrite Hn, Hf. simpl.
  unfold upd, set_heap, obj_setNodes. rewrite app_nil_r, Hf. reflexivity.
Qed.


(** [getDataNode] followed by the write of the cell. *)
Lemma fire_cell l o n k prev v s :
  heap s !! l = Some o -> nodes o = Some n ->
  (inheritedNode k = false \/ is_Some (n !! k)) ->
  (getDataNode l k prev;;; writeCell l k v) s
  = (Ok tt, upd l (obj_setNodes o (fireReg k v n)) [(l, k)] s).
Proof.
  intros Ho Hn Hi. unfold getDataNode, writeCell; unfold_m.
  rewrite Ho; simpl. rewrite Hn; simpl.
  unfold fireReg.
  destruct (n !! k) as [c|] eqn:Hc; simpl.
  - rewrite Ho; simpl. rewrite Hn, Hc; simpl. reflexivity.
  - destruct Hi as [Hi|[? Hi]]; [|discriminate]. rewrite Hi. simpl.
    rewrite lookup_insert_eq; simpl. rewrite lookup_insert_eq; simpl.
    rewrite !insert_insert_eq. reflexivity.
Qed.


Lemma writeCell_present l o n k c v s :
  heap s !! l = Some o -> nodes o = Some n -> n !! k = Some c ->
  writeCell l k v s
  = (Ok tt, upd l (obj_setNodes o (fireReg k v n)) [(l, k)] s).
Proof.
  intros Ho Hn Hc. unfold writeCell; unfold_m.
  rewrite Ho; simpl. rewrite Hn, Hc; simpl.
  unfold fireReg. rewrite Hc. reflexivity.
Qed.

Lemma rawGet_setNodes o n this k :
  rawGet (obj_setNodes o n) this k = rawGet o this k.
Proof. reflexivity. Qed.

Lemma obj_assign_fields o k v o' :
  obj_assign o k v = Some o' ->
  shape o' = shape o /\ frozen o' = frozen o
  /\ proxy o' = proxy o /\ nodes o' = nodes o.
Proof.
  unfold obj_assign.
  destruct (bool_decide (k = protoKey) && negb (hasOwn o k)).
  { case_match; [intros [= <-]; auto|discriminate]. }
  destruct (frozen o) eqn:Hf; [discriminate|].
  intros H. destruct (shape o), k; repeat case_match; simplify_eq; simpl; auto.
Qed.

Lemma obj_delete_fields o k o' :
  obj_delete o k = Some o' ->
  shape o' = shape o /\ frozen o' = frozen o
  /\ proxy o' = proxy o /\ nodes o' = nodes o.
Proof.
  unfold obj_delete. destruct (ownSlot o k); [|intros [= <-]; auto].
  destruct (frozen o) eqn:Hf; [discriminate|].
  intros H. destruct (shape o), k; repeat case_match; simplify_eq; simpl; auto.
Qed.

(** Continuation forms, to step through a sequence of statements. *)
Lemma lookupObj_k {B} l o (K : Obj -> M B) s :
  heap s !! l = Some o -> (o' <- lookupObj l;; K o') s = K o s.
Proof. intros Ho. unfold_m. rewrite Ho. reflexivity. Qed.

Lemma storeObj_k {B} l o (K : M B) s :
  (storeObj l o;;; K) s = K (upd l o [] s).
Proof. unfold_m. unfold upd, set_heap. rewrite app_nil_r. reflexivity. Qed.

Lemma get_state_k {B} (K : State -> M B) s :
  (s' <- get_state;; K s') s = K s s.
Proof. reflexivity. Qed.

Lemma ret_k {A B} (a : A) (K : A -> M B) s :
  (x <- ret a;; K x) s = K a s.
Proof. reflexivity. Qed.

Lemma bind_assoc_s {A B C} (m : M A) (k : A -> M B) (k' : B -> M C) s :
  bind (bind m k) k' s = bind m (fun a => bind (k a) k') s.
Proof. unfold bind. destruct (m s) as [[a| | |] s1]; reflexivity. Qed.

Lemma obj_setNodes_id o n : nodes o = Some n -> obj_setNodes o n = o.
Proof. destruct o; simpl; intros ->; reflexivity. Qed.

Lemma upd_id l o s : heap s !! l = Some o -> upd l o [] s = s.
Proof.
  intros Ho. unfold upd. rewrite insert_id by done. rewrite app_nil_r.
  destruct s; reflexivity.
Qed.

Lemma getDataNodes_k {B} l o (K : gmap Key Cell -> M B) s :
  heap s !! l = Some o ->
  (frozen o = false \/ is_Some (nodes o)) ->
  (n <- getDataNodes l;; K n) s
  = K (default ∅ (nodes o))
      (upd l (obj_setNodes o (default ∅ (nodes o))) [] s).
Proof.
  intros Ho Hreg. unfold bind at 1.
  destruct (nodes o) as [n|] eqn:Hn; simpl.
  - rewrite (getDataNodes_present _ _ _ _ Ho Hn).
    rewrite obj_setNodes_id by done. rewrite upd_id by done. reflexivity.
  - destruct Hreg as [Hf|[? ?]]; [|discriminate].
    rewrite (getDataNodes_absent _ _ _ Ho Hn Hf). reflexivity.
Qed.

Lemma fire_cell_k {B} l o n k prev v (K : M B) s :
  heap s !! l = Some o -> nodes o = Some n ->
  (inheritedNode k = false \/ is_Some (n !! k)) ->
  (getDataNode l k prev;;; writeCell l k v;;; K) s
  = K (upd l (obj_setNodes o (fireReg k v n)) [(l, k)] s).
Proof.
  intros Ho Hn Hi.
  pose proof (fire_cell l o n k prev v s Ho Hn Hi) as H.
  unfold bind in *.
  destruct (getDataNode l k prev s) as [[[]| | |] s1]; try discriminate.
  destruct (writeCell l k v s1) as [[[]| | |] s2]; try discriminate.
  congruence.
Qed.

Lemma writeCell_k {B} l o n k c v (K : M B) s :
  heap s !! l = Some o -> nodes o = Some n -> n !! k = Some c ->
  (writeCell l k v;;; K) s
  = K (upd l (obj_setNodes o (fireReg k v n)) [(l, k)] s).
Proof.
  intros Ho Hn Hc. unfold bind.
  rewrite (writeCell_present _ _ _ _ _ _ _ Ho Hn Hc). reflexivity.
Qed.

Lemma cellAvailable_ordinary o k : inheritedNode k = false -> cellAvailable o k = true.
Proof. intros H. unfold cellAvailable. rewrite H. reflexivity. Qed.

Lemma cellAvailable_inv o k :
  cellAvailable o k = true ->
  inheritedNode k = false \/ is_Some (default ∅ (nodes o) !! k).
Proof.
  unfold cellAvailable. intros H. apply orb_true_iff in H.
  destruct H as [H|H]; [left; apply negb_true_iff; exact H|].
  right. apply bool_decide_eq_true_1 in H. exact H.
Qed.

Lemma rawMutation_fields o k v d o1 :
  rawMutation o k v d = Some o1 ->
  shape o1 = shape o /\ frozen o1 = frozen o
  /\ proxy o1 = proxy o /\ nodes o1 = nodes o.
Proof.
  destruct d; simpl; intros H.
  - apply obj_delete_fields in H. tauto.
  - apply obj_assign_fields in H. tauto.
Qed.

Lemma setProperty_effect l o o1 k v d s :
  heap s !! l = Some o ->
  (d = true \/ strict_eq (rawGet o (VObj l) k) v = false) ->
  rawMutation o k v d = Some o1 ->
  (frozen o = false \/ is_Some (nodes o)) ->
  cellAvailable o k = true ->
  setProperty l k v d s
  = (Ok tt, upd l (obj_setNodes o1 (nodesAfter l o o1 k v)) (firings l o o1 k v) s).
Proof.
  intros Ho Hguard Hmut Hreg Hi. apply cellAvailable_inv in Hi.
  destruct (rawMutation_fields _ _ _ _ _ Hmut) as (Hsh & Hfr & Hpx & Hnd).
  unfold setProperty. rewrite (lookupObj_k _ _ _ _ Ho).
  assert (Hg : negb d && strict_eq (rawGet o (VObj l) k) v = false).
  { destruct Hguard as [->| ->]; [reflexivity|apply andb_false_r]. }
  rewrite Hg. unfold rawMutation in Hmut. rewrite Hmut.
  rewrite storeObj_k.
  rewrite (getDataNodes_k l o1); [|apply upd_lookup|rewrite Hfr, Hnd; exact Hreg].
  rewrite upd_upd. simpl app.
  rewrite (fire_cell_k l (obj_setNodes o1 (default ∅ (nodes o1)))
             (default ∅ (nodes o1)));
    [|apply upd_lookup|reflexivity|rewrite Hnd; exact Hi].
  rewrite upd_upd, obj_setNodes_twice. simpl app.
  erewrite lookupObj_k by apply upd_lookup.
  rewrite !rawGet_setNodes. simpl shape.
  fold lengthKey. fold (lengthChanged l o o1).
  unfold firings, nodesAfter, selfExists, nodesAfterProperty.
  rewrite Hnd.
  destruct (lengthChanged l o o1) eqn:Hlen.
  - cbv iota. rewrite bind_assoc_s.
    erewrite fire_cell_k; [|apply upd_lookup|reflexivity|left; reflexivity].
    rewrite upd_upd, obj_setNodes_twice.
    erewrite lookupObj_k by apply upd_lookup. cbn [nodes obj_setNodes mbind option_bind].
    destruct (_ !! selfKey) as [c|] eqn:Hself.
    + rewrite bool_decide_eq_true_2 by eauto.
      erewrite writeCell_present; [|apply upd_lookup|reflexivity|exact Hself].
      rewrite upd_upd, obj_setNodes_twice. reflexivity.
    + rewrite bool_decide_eq_false_2 by (intros [? ?]; congruence).
      reflexivity.
  - cbv iota. rewrite ret_k.
    erewrite lookupObj_k by apply upd_lookup. cbn [nodes obj_setNodes mbind option_bind].
    destruct (_ !! selfKey) as [c|] eqn:Hself.
    + rewrite bool_decide_eq_true_2 by eauto.
      erewrite writeCell_present; [|apply upd_lookup|reflexivity|exact Hself].
      rewrite upd_upd, obj_setNodes_twice. reflexivity.
    + rewrite bool_decide_eq_false_2 by (intros [? ?]; congruence).
      rewrite app_nil_r. reflexivity.
Qed.



(** ** Reads outside a tracking context *)

Lemma cellOf_heap_eq s s' l k : heap s' = heap s -> cellOf s' l k = cellOf s l k.
Proof. unfold cellOf. intros ->. reflexivity. Qed.

(** Replacing an object by one with the same registry leaves all cells. *)
Lemma cellOf_upd_same_nodes l o o' fs s l' k :
  heap s !! l = Some o -> nodes o' = nodes o ->
  cellOf (upd l o' fs s) l' k = cellOf s l' k.
Proof.
  intros Ho Hn. unfold cellOf, upd; simpl.
  destruct (decide (l = l')) as [<-|Hne].
  - rewrite lookup_insert_eq, Ho. simpl. rewrite Hn. reflexivity.
  - rewrite lookup_insert_ne by done. reflexivity.
Qed.

(** Attaching the registry, empty when it is new, creates no cell. *)
Lemma cellOf_ensure_nodes l o fs s l' k :
  heap s !! l = Some o ->
  cellOf (upd l (obj_setNodes o (default ∅ (nodes o))) fs s) l' k = cellOf s l' k.
Proof.
  intros Ho. unfold cellOf, upd; simpl.
  destruct (decide (l = l')) as [<-|Hne].
  - rewrite lookup_insert_eq, Ho. simpl.
    destruct (nodes o); simpl; [reflexivity|apply lookup_empty].
  - rewrite lookup_insert_ne by done. reflexivity.
Qed.

Lemma wrap_cells v s l k : cellOf (wrap v s).2 l k = cellOf s l k.
Proof.
  destruct v; try reflexivity. simpl; unfold_m.
  destruct (heap s !! l0) as [o|] eqn:Ho; simpl; [|reflexivity].
  unfold rawGetProxy. destruct (proxy o) as [id|] eqn:Hp; simpl; [reflexivity|].
  unfold obj_defineProxy. destruct (frozen o) eqn:Hf; simpl; [reflexivity|].
  case_bool_decide; simpl.
  - unfold cellOf; simpl.
    destruct (decide (l0 = l)) as [<-|Hne].
    + rewrite lookup_insert_eq, Ho. reflexivity.
    + rewrite lookup_insert_ne by done. reflexivity.
  - rewrite insert_insert_eq. unfold cellOf; simpl.
    destruct (decide (l0 = l)) as [<-|Hne].
    + rewrite lookup_insert_eq, Ho. reflexivity.
    + rewrite lookup_insert_ne by done. reflexivity.
Qed.


Lemma isWrappable_state v s : (isWrappable v s).2 = s.
Proof.
  destruct v; try reflexivity. simpl; unfold_m.
  destruct (heap s !! l); reflexivity.
Qed.

Lemma wrapIfWrappable_cells v s l k :
  cellOf (wrapIfWrappable v s).2 l k = cellOf s l k.
Proof.
  unfold wrapIfWrappable, bind.
  pose proof (isWrappable_state v s) as Hs.
  destruct (isWrappable v s) as [[[]| | |] s1]; simpl in Hs; subst s1;
    try reflexivity.
  apply wrap_cells.
Qed.


Lemma readCell_untracked l o n k c s :
  CurrentReaction s = None ->
  heap s !! l = Some o -> nodes o = Some n -> n !! k = Some c ->
  readCell l k s = (Ok (payload c), s).
Proof.
  intros Hr Ho Hn Hc. unfold readCell; unfold_m.
  rewrite Ho; simpl. rewrite Hn, Hc, Hr. reflexivity.
Qed.

Lemma trap_get_untracked_gen l o k recv s :
  CurrentReaction s = None ->
  heap s !! l = Some o ->
  (frozen o = false \/ is_Some (nodes o)) ->
  trap_get l (PK k) recv s
  = handOut k (untrackedValue l o k)
      (upd l (obj_setNodes o (default ∅ (nodes o))) [] s).
Proof.
  intros Hr Ho Hreg. unfold trap_get.
  rewrite (getDataNodes_k l o) by assumption.
  unfold untrackedValue, handOut, wrapIfWrappable.
  set (s1 := upd l _ [] s).
  assert (Ho1 : heap s1 !! l = Some (obj_setNodes o (default ∅ (nodes o))))
    by apply upd_lookup.
  assert (Hr1 : CurrentReaction s1 = None) by exact Hr.
  destruct (default ∅ (nodes o) !! k) as [c|] eqn:Hc.
  - rewrite bool_decide_eq_true_2 by eauto.
    unfold bind at 1.
    erewrite readCell_untracked; [|exact Hr1|exact Ho1|reflexivity|exact Hc].
    case_bool_decide; reflexivity.
  - rewrite bool_decide_eq_false_2 by (intros [? ?]; congruence).
    cbv iota. rewrite bind_assoc_s.
    erewrite lookupObj_k by exact Ho1.
    rewrite ret_k. case_bool_decide; [reflexivity|].
    rewrite bind_assoc_s.
    erewrite lookupObj_k by exact Ho1.
    rewrite bind_assoc_s, get_state_k, Hr1.
    rewrite bool_decide_eq_false_2 by (intros [? ?]; discriminate).
    reflexivity.
Qed.

Lemma trap_get_untracked l o k recv s :
  CurrentReaction s = None ->
  heap s !! l = Some o ->
  (frozen o = false \/ is_Some (nodes o)) ->
  k <> protoKey ->
  trap_get l (PK k) recv s
  = wrapIfWrappable (untrackedValue l o k)
      (upd l (obj_setNodes o (default ∅ (nodes o))) [] s).
Proof.
  intros Hr Ho Hreg Hk.
  rewrite (trap_get_untracked_gen l o k recv s Hr Ho Hreg).
  unfold handOut. rewrite bool_decide_eq_false_2 by exact Hk. reflexivity.
Qed.








(** ** Which cells a mutation fires *)
Lemma fireReg_lookup k v n k' :
  fireReg k v n !! k'
  = if decide (k = k') then Some (mkCell v (from_option observers ∅ (n !! k)))
    else n !! k'.
Proof.
  unfold fireReg. destruct (decide (k = k')) as [<-|Hne].
  - apply lookup_insert_eq.
  - apply lookup_insert_ne. exact Hne.
Qed.

Lemma fireReg_is_Some k v n k' :
  is_Some (n !! k') -> is_Some (fireReg k v n !! k').
Proof. rewrite fireReg_lookup. destruct (decide (k = k')); eauto. Qed.


Lemma cellOf_upd l o fs s k :
  cellOf (upd l o fs s) l k = nodes o ≫= (.!! k).
Proof. unfold cellOf. rewrite upd_lookup. reflexivity. Qed.

Lemma cellOf_Some_inv s l k c :
  cellOf s l k = Some c ->
  exists o n, heap s !! l = Some o /\ nodes o = Some n /\ n !! k = Some c.
Proof.
  unfold cellOf. intros H.
  destruct (heap s !! l) as [o|]; simpl in H; [|discriminate].
  destruct (nodes o) as [n|] eqn:Hn; simpl in H; [|discriminate].
  eauto.
Qed.





(** ** Removing the last element of an array *)
Lemma wrapIfWrappable_primitive v s :
  isPrimitive v -> isHost v = false -> wrapIfWrappable v s = (Ok v, s).
Proof.
  intros [H1 H2] H3.
  destruct v; try discriminate;
    first [reflexivity
          | exfalso; eapply H1; reflexivity
          | exfalso; eapply H2; reflexivity].
Qed.

Lemma rawGet_length_arr o this :
  shape o = Arr ->
  rawGet o this lengthKey = VNum (Z.of_nat (length (elems o))).
Proof. intros Hs. unfold rawGet, ownSlot, lengthKey. rewrite Hs. reflexivity. Qed.

(** Only the assignment of an index or of [length], on an unfrozen
    array, changes the number of elements. *)
Lemma length_change_key o k v d o1 :
  rawMutation o k v d = Some o1 ->
  length (elems o1) <> length (elems o) ->
  frozen o = false /\ inheritedNode k = false.
Proof.
  intros Hm Hl. destruct d; simpl in Hm.
  - exfalso. apply Hl. revert Hm. unfold obj_delete.
    destruct (ownSlot o k); [|intros [= <-]; reflexivity].
    destruct (frozen o); [discriminate|].
    destruct (shape o), k; repeat case_match; intros; simplify_eq; simpl;
      try reflexivity; apply length_insert.
  - revert Hm. unfold obj_assign.
    destruct (bool_decide (k = protoKey) && negb (hasOwn o k)).
    { case_match; [intros [= <-]; congruence|discriminate]. }
    destruct (frozen o); [discriminate|].
    destruct (shape o), k; repeat case_match; intros; simplify_eq;
      simpl in Hl; try congruence; split; reflexivity.
Qed.

(** A mutation that changes the length of an array fires [length]. *)
Lemma length_change_fires l o o1 k v d s :
  heap s !! l = Some o ->
  shape o = Arr ->
  (d = true \/ strict_eq (rawGet o (VObj l) k) v = false) ->
  rawMutation o k v d = Some o1 ->
  length (elems o1) <> length (elems o) ->
  exists s' c,
    setProperty l k v d s = (Ok tt, s')
    /\ fired s' = (fired s ++ firings l o o1 k v)%list
    /\ In (l, lengthKey) (firings l o o1 k v)
    /\ In (l, k) (firings l o o1 k v)
    /\ cellOf s' l lengthKey = Some c
    /\ payload c = VNum (Z.of_nat (length (elems o1))).
Proof.
  intros Ho Hsh Hg Hm Hlen.
  destruct (length_change_key _ _ _ _ _ Hm Hlen) as (Hf & Hi).
  assert (Hreg : frozen o = false \/ is_Some (nodes o)) by (left; exact Hf).
  destruct (rawMutation_fields _ _ _ _ _ Hm) as (Hsh1 & _).
  assert (Hch : lengthChanged l o o1 = true).
  { unfold lengthChanged. rewrite bool_decide_eq_true_2 by congruence.
    rewrite !rawGet_length_arr by congruence. simpl.
    unfold strict_eq. rewrite bool_decide_eq_false_2; [reflexivity|].
    intros [= H]. apply Hlen. lia. }
  rewrite (setProperty_effect _ _ _ _ _ _ _ Ho Hg Hm Hreg
             (cellAvailable_ordinary o k Hi)).
  assert (Hc : exists c, nodesAfter l o o1 k v !! lengthKey = Some c
               /\ payload c = VNum (Z.of_nat (length (elems o1)))).
  { unfold nodesAfter, nodesAfterProperty. rewrite Hch.
    rewrite (rawGet_length_arr o1) by congruence.
    destruct (selfExists l o o1 k v).
    - rewrite fireReg_lookup. rewrite decide_False by discriminate.
      rewrite fireReg_lookup, decide_True by reflexivity.
      eexists; split; reflexivity.
    - rewrite fireReg_lookup, decide_True by reflexivity.
      eexists; split; reflexivity. }
  destruct Hc as (c & Hc & Hpay).
  eexists _, c. split; [reflexivity|].
  split; [reflexivity|].
  split; [unfold firings; rewrite Hch; simpl; auto|].
  split; [unfold firings; simpl; auto|].
  split; [rewrite cellOf_upd; exact Hc|exact Hpay].
Qed.

Lemma view_get_untracked_primitive id l o k s :
  CurrentReaction s = None ->
  heap s !! l = Some o ->
  (frozen o = false \/ is_Some (nodes o)) ->
  isPrimitive (untrackedValue l o k) ->
  isHost (untrackedValue l o k) = false ->
  getInvariant o k (untrackedValue l o k) = true ->
  view_get (VProxy id l) (PK k) s
  = (Ok (untrackedValue l o k),
     upd l (obj_setNodes o (default ∅ (nodes o))) [] s).
Proof.
  intros Hr Ho Hreg Hp Hh Hinv. unfold view_get, bind.
  rewrite (trap_get_untracked_gen _ _ _ _ _ Hr Ho Hreg).
  assert (Hout : forall s1, handOut k (untrackedValue l o k) s1
                            = (Ok (untrackedValue l o k), s1)).
  { intros s1. unfold handOut. case_bool_decide; [reflexivity|].
    apply wrapIfWrappable_primitive; assumption. }
  rewrite Hout. unfold lookupObj. rewrite upd_lookup.
  change (getInvariant (obj_setNodes o _) k) with (getInvariant o k).
  rewrite Hinv. reflexivity.
Qed.

Lemma getInvariant_unfrozen o k r : frozen o = false -> getInvariant o k r = true.
Proof.
  intros Hf. unfold getInvariant. rewrite Hf. repeat case_match; reflexivity.
Qed.

Lemma setInvariant_unfrozen o k v : frozen o = false -> setInvariant o k v = true.
Proof.
  intros Hf. unfold setInvariant. rewrite Hf. repeat case_match; reflexivity.
Qed.

Lemma unwrap_primitive fuel v set s :
  isPrimitive v -> unwrap (S fuel) v set s = (Ok (v, set), s).
Proof.
  intros [H1 H2].
  destruct v;
    first [reflexivity
          | exfalso; eapply H1; reflexivity
          | exfalso; eapply H2; reflexivity].
Qed.

Lemma trap_set_open fuel l k v s s' :
  Writing s = true -> isPrimitive v ->
  setProperty l k v false s = (Ok tt, s') ->
  trap_set (S fuel) l k v s = (Ok true, s').
Proof.
  intros Hw Hp Hs. unfold trap_set.
  rewrite get_state_k, Hw. cbv iota.
  rewrite !bind_assoc_s. unfold bind at 1.
  rewrite (unwrap_primitive _ _ _ _ Hp). simpl.
  unfold bind. rewrite Hs. reflexivity.
Qed.

Lemma view_set_open fuel id l k v s s' o' :
  Writing s = true -> isPrimitive v ->
  setProperty l k v false s = (Ok tt, s') ->
  heap s' !! l = Some o' ->
  setInvariant o' k v = true ->
  view_set (S fuel) (VProxy id l) k v s = (Ok tt, s').
Proof.
  intros Hw Hp Hs Ho' Hinv. unfold view_set, bind.
  rewrite (trap_set_open _ _ _ _ _ _ Hw Hp Hs).
  unfold lookupObj. rewrite Ho', Hinv. reflexivity.
Qed.

Lemma trap_deleteProperty_open l k s s' :
  Writing s = true ->
  setProperty l k VUndef true s = (Ok tt, s') ->
  trap_deleteProperty l k s = (Ok true, s').
Proof.
  intros Hw Hs. unfold trap_deleteProperty.
  rewrite get_state_k, Hw. cbv iota.
  unfold bind. rewrite Hs. reflexivity.
Qed.

Lemma view_delete_open id l k s s' o' :
  Writing s = true ->
  setProperty l k VUndef true s = (Ok tt, s') ->
  heap s' !! l = Some o' ->
  deleteInvariant o' k = true ->
  view_delete (VProxy id l) k s = (Ok tt, s').
Proof.
  intros Hw Hs Ho' Hinv. unfold view_delete, bind.
  rewrite (trap_deleteProperty_open _ _ _ _ Hw Hs).
  unfold lookupObj. rewrite Ho', Hinv. reflexivity.
Qed.

Lemma obj_delete_index o i :
  shape o = Arr -> frozen o = false ->
  exists o1,
    obj_delete o (KIdx i) = Some o1
    /\ shape o1 = Arr /\ frozen o1 = false /\ nodes o1 = nodes o
    /\ length (elems o1) = length (elems o)
    /\ take i (elems o1) = take i (elems o).
Proof.
  intros Hs Hf. unfold obj_delete.
  destruct (ownSlot o (KIdx i)).
  - rewrite Hf, Hs. eexists. split; [reflexivity|]. simpl.
    repeat split; auto.
    + apply length_insert.
    + apply take_insert_ge. lia.
  - exists o. repeat split; auto.
Qed.

Lemma resize_shrink n (es : list (option Value)) :
  n <= length es -> resize n es = take n es.
Proof.
  intros H. unfold resize.
  replace (n - length es) with 0 by lia. simpl. apply app_nil_r.
Qed.

Lemma obj_assign_length o z :
  shape o = Arr -> frozen o = false -> (0 <= z < 4294967296)%Z ->
  exists o1,
    obj_assign o lengthKey (VNum z) = Some o1
    /\ elems o1 = resize (Z.to_nat z) (elems o).
Proof.
  intros Hs Hf Hz. unfold obj_assign, lengthKey.
  rewrite (bool_decide_eq_false_2 (_ = protoKey)) by discriminate.
  simpl. rewrite Hf, Hs.
  destruct (0 <=? z)%Z eqn:Hle; [|lia].
  destruct (z <? 4294967296)%Z eqn:Hlt; [|lia].
  eexists. split; reflexivity.
Qed.

Lemma untrackedValue_setNodes l o k :
  untrackedValue l (obj_setNodes o (default ∅ (nodes o))) k = untrackedValue l o k.
Proof. reflexivity. Qed.

(** C7: array length sync.  (1) Every mutation that [setProperty]
    applies to an array and that changes its length completes and fires
    the cell of [length] after the cell of the property; the cell of
    [length] exists afterwards (created when absent) and holds the new
    length.  (2) In particular, inside a transaction, [pop] through the
    view of an unfrozen array that is not empty removes the last element
    and fires the cell of the last index and the cell of [length].
    ([pop] is followed outside a tracking context, for a last element
    that needs no view, and a cell of [length] that holds the length.) *)
Theorem array_length_sync l o s :
  heap s !! l = Some o ->
  shape o = Arr ->
  (forall k v d o1,
      (d = true \/ strict_eq (rawGet o (VObj l) k) v = false) ->
      rawMutation o k v d = Some o1 ->
      length (elems o1) <> length (elems o) ->
      exists s' c,
        setProperty l k v d s = (Ok tt, s')
        /\ fired s' = (fired s ++ firings l o o1 k v)%list
        /\ In (l, k) (firings l o o1 k v)
        /\ In (l, lengthKey) (firings l o o1 k v)
        /\ cellOf s' l lengthKey = Some c
        /\ payload c = VNum (Z.of_nat (length (elems o1))))
  /\ (forall fuel id,
        Writing s = true ->
        frozen o = false ->
        elems o <> [] ->
        CurrentReaction s = None ->
        untrackedValue l o lengthKey = VNum (Z.of_nat (length (elems o))) ->
        isPrimitive (untrackedValue l o (KIdx (Nat.pred (length (elems o))))) ->
        isHost (untrackedValue l o (KIdx (Nat.pred (length (elems o))))) = false ->
        (Z.of_nat (length (elems o)) <= 4294967296)%Z ->
        exists s' new o',
          view_pop (S fuel) (VProxy id l) s
          = (Ok (untrackedValue l o (KIdx (Nat.pred (length (elems o))))), s')
          /\ fired s' = (fired s ++ new)%list
          /\ In (l, KIdx (Nat.pred (length (elems o)))) new
          /\ In (l, lengthKey) new
          /\ heap s' !! l = Some o'
          /\ elems o' = take (Nat.pred (length (elems o))) (elems o)).
Proof.
  intros Ho Hsh.
  split.
  { intros k v d o1 Hg Hm Hl.
    destruct (length_change_fires _ _ _ _ _ _ _ Ho Hsh Hg Hm Hl)
      as (s' & c & H1 & H2 & H3 & H3' & H4 & H5).
    exists s', c. repeat split; assumption. }
  intros fuel id Hw Hf Hne Hr Hlen Hlast Hhost Hbound.
  assert (Hreg : frozen o = false \/ is_Some (nodes o)) by (left; exact Hf).
  set (n := Nat.pred (length (elems o))) in *.
  assert (Hn : length (elems o) = S n).
  { destruct (elems o); [congruence|reflexivity]. }
  (* the two reads *)
  set (oA := obj_setNodes o (default ∅ (nodes o))).
  set (sA := upd l oA [] s).
  assert (HoA : heap sA !! l = Some oA) by apply upd_lookup.
  assert (HregA : frozen oA = false \/ is_Some (nodes oA)) by (left; exact Hf).
  assert (Hget1 : view_get (VProxy id l) (PK lengthKey) s
                  = (Ok (VNum (Z.of_nat (S n))), sA)).
  { rewrite (view_get_untracked_primitive _ _ _ _ _ Hr Ho Hreg);
      rewrite ?Hlen, ?Hn; [reflexivity| |reflexivity|].
    - split; intros; discriminate.
    - apply getInvariant_unfrozen. exact Hf. }
  assert (Hget2 : view_get (VProxy id l) (PK (KIdx n)) sA
                  = (Ok (untrackedValue l o (KIdx n)), sA)).
  { rewrite (view_get_untracked_primitive id l oA (KIdx n) sA Hr HoA HregA);
      [|exact Hlast|exact Hhost|apply getInvariant_unfrozen; exact Hf].
    f_equal. unfold sA. rewrite upd_upd. reflexivity. }
  (* the deletion of the last index *)
  destruct (obj_delete_index oA n Hsh Hf)
    as (oB & HdelB & HshB & HfB & HnB & HlenB & HtakeB).
  pose (oB' := obj_setNodes oB (nodesAfter l oA oB (KIdx n) VUndef)).
  pose (sB := upd l oB' (firings l oA oB (KIdx n) VUndef) sA).
  assert (HwA : Writing sA = true) by exact Hw.
  assert (Hdel : setProperty l (KIdx n) VUndef true sA = (Ok tt, sB)).
  { apply (setProperty_effect l oA oB); auto. }
  assert (HoB : heap sB !! l = Some oB') by apply upd_lookup.
  assert (HdelV : view_delete (VProxy id l) (KIdx n) sA = (Ok tt, sB)).
  { apply (view_delete_open id l (KIdx n) sA sB oB' HwA Hdel HoB).
    unfold deleteInvariant. simpl frozen. rewrite HfB.
    rewrite (bool_decide_eq_false_2 (KIdx n = _)) by discriminate.
    rewrite andb_false_r. destruct (ownSlot oB' (KIdx n)); reflexivity. }
  (* the assignment of the new length *)
  destruct (obj_assign_length oB' (Z.of_nat n) HshB HfB ltac:(lia))
    as (oC & HasgC & HelC).
  assert (HlC : length (elems oC) <> length (elems oB')).
  { rewrite HelC, Nat2Z.id. simpl elems.
    rewrite resize_shrink by (rewrite HlenB; simpl; lia).
    rewrite length_take. simpl. rewrite HlenB. simpl. lia. }
  assert (HgC : false = true
                \/ strict_eq (rawGet oB' (VObj l) lengthKey) (VNum (Z.of_nat n)) = false).
  { right. rewrite rawGet_length_arr by exact HshB. simpl elems.
    rewrite HlenB. simpl elems. rewrite Hn.
    unfold strict_eq. apply bool_decide_eq_false_2. intros [= H]. lia. }
  destruct (length_change_fires l oB' oC lengthKey (VNum (Z.of_nat n)) false sB
              HoB HshB HgC HasgC HlC)
    as (sC & c & HsetC & HfiredC & HinC & _ & _ & _).
  assert (HoC : heap sC !! l
                = Some (obj_setNodes oC
                          (nodesAfter l oB' oC lengthKey (VNum (Z.of_nat n))))).
  { rewrite (setProperty_effect l oB' oC lengthKey (VNum (Z.of_nat n)) false sB
               HoB HgC HasgC (or_introl HfB)
               (cellAvailable_ordinary oB' lengthKey eq_refl)) in HsetC.
    injection HsetC as <-. apply upd_lookup. }
  destruct (obj_assign_fields _ _ _ _ HasgC) as (_ & HfC & _).
  (* putting the steps together *)
  exists sC, (firings l oA oB (KIdx n) VUndef
              ++ firings l oB' oC lengthKey (VNum (Z.of_nat n)))%list,
    (obj_setNodes oC (nodesAfter l oB' oC lengthKey (VNum (Z.of_nat n)))).
  split.
  { unfold view_pop. fold lengthKey. unfold bind at 1. rewrite Hget1.
    replace (Z.of_nat (S n) <=? 0)%Z with false by (symmetry; apply Z.leb_gt; lia).
    replace (Z.to_nat (Z.of_nat (S n) - 1)) with n by lia.
    replace (Z.of_nat (S n) - 1)%Z with (Z.of_nat n) by lia.
    unfold bind at 1. rewrite Hget2.
    unfold bind at 1. rewrite HdelV.
    unfold bind at 1.
    rewrite (view_set_open fuel id l lengthKey (VNum (Z.of_nat n)) sB sC _
               Hw ltac:(split; intros; discriminate) HsetC HoC);
      [reflexivity|].
    apply setInvariant_unfrozen. simpl. rewrite HfC. exact HfB. }
  split.
  { rewrite HfiredC. simpl. rewrite app_nil_r, <- app_assoc. reflexivity. }
  split; [apply in_or_app; left; simpl; auto|].
  split; [apply in_or_app; right; exact HinC|].
  split; [exact HoC|].
  simpl. rewrite HelC, Nat2Z.id. simpl elems.
  rewrite resize_shrink by (rewrite HlenB; simpl; lia).
  rewrite HtakeB. reflexivity.
Qed.


(** [keyOrder] lists the same keys, in another order. *)
Lemma keyOrder_elem ks k : k ∈ keyOrder ks <-> k ∈ ks.
Proof.
  unfold keyOrder. rewrite elem_of_app, list_elem_of_fmap, list_elem_of_filter.
  split.
  - intros [(i & -> & Hi)|[_ H]]; [|exact H].
    rewrite merge_sort_Permutation in Hi. unfold indexKeys in Hi.
    apply list_elem_of_omap in Hi. destruct Hi as (k0 & Hk0 & Hf).
    destruct k0 as [?|j]; [discriminate|].
    destruct (isArrayIndex j); [|discriminate].
    injection Hf as ->. exact Hk0.
  - intros Hk. destruct k as [t|i]; [right; split; [reflexivity|exact Hk]|].
    destruct (isArrayIndex i) eqn:Hi.
    + left. exists i. split; [reflexivity|].
      rewrite merge_sort_Permutation. unfold indexKeys.
      apply list_elem_of_omap. exists (KIdx i). split; [exact Hk|].
      rewrite Hi. reflexivity.
    + right. split; [simpl; rewrite Hi; reflexivity|exact Hk].
Qed.

Lemma props_get_is_Some ps k : k ∈ (fst <$> ps) -> is_Some (props_get ps k).
Proof.
  induction ps as [|[k' sl] ps IH]; simpl.
  - intros H. apply elem_of_nil in H. destruct H.
  - intros H. destruct (decide (k' = k)); [eauto|].
    apply elem_of_cons in H. destruct H as [->|H]; [congruence|].
    apply IH. exact H.
Qed.

Lemma ownEnumKeys_own o k : k ∈ ownEnumKeys o -> is_Some (props_get (props o) k).
Proof.
  unfold ownEnumKeys. rewrite keyOrder_elem. apply props_get_is_Some.
Qed.

Lemma props_set_same ps k sl : props_get ps k = Some sl -> props_set ps k sl = ps.
Proof.
  induction ps as [|[k' sl'] ps IH]; simpl; [discriminate|].
  destruct (decide (k' = k)) as [->|Hne].
  - intros [= ->]. reflexivity.
  - intros H. rewrite IH by exact H. reflexivity.
Qed.

Lemma obj_eta o :
  mkObj (shape o) (frozen o) (props o) (elems o) (proxy o) (nodes o) = o.
Proof. destruct o; reflexivity. Qed.

Lemma storeObj_same l o s :
  heap s !! l = Some o -> storeObj l o s = (Ok tt, s).
Proof.
  intros Ho. unfold storeObj, modify, set_heap. rewrite insert_id by exact Ho.
  destruct s; reflexivity.
Qed.

(** Assigning to a data property the value it holds changes nothing. *)
Lemma assignProp_same l o k v s :
  heap s !! l = Some o -> frozen o = false ->
  ownSlot o k = Some (SData v) ->
  (shape o = Arr -> exists i, k = KIdx i) ->
  assignProp l k v s = (Ok tt, s).
Proof.
  intros Ho Hf Hown Hk. unfold assignProp.
  rewrite (lookupObj_k _ _ _ _ Ho).
  assert (Ha : obj_assign o k v = Some o).
  { unfold obj_assign.
    assert (Hh : hasOwn o k = true).
    { unfold hasOwn. rewrite Hown. apply bool_decide_eq_true_2. eauto. }
    rewrite Hh, andb_false_r. rewrite Hf. unfold ownSlot in Hown.
    destruct (shape o) eqn:Hs.
    - destruct k; rewrite Hown, props_set_same by exact Hown;
        rewrite <- Hf, <- Hs; f_equal; apply obj_eta.
    - destruct (Hk eq_refl) as [i ->].
      destruct (elems o !! i) as [[v'|]|] eqn:Hi; simpl in Hown; try discriminate.
      injection Hown as ->.
      assert (Hlt : i < length (elems o)) by (eapply lookup_lt_Some; eauto).
      rewrite (bool_decide_eq_true_2 _ Hlt). cbn [orb].
      replace (Nat.max (S i) (length (elems o))) with (length (elems o)) by lia.
      unfold resize. rewrite Nat.sub_diag, firstn_all. simpl.
      rewrite app_nil_r, list_insert_id by exact Hi.
      rewrite <- Hf, <- Hs. f_equal. apply obj_eta.
    - destruct k; rewrite Hown, props_set_same by exact Hown;
        rewrite <- Hf, <- Hs; f_equal; apply obj_eta. }
  rewrite Ha. apply storeObj_same. exact Ho.
Qed.

Lemma isWrappable_obj l o s :
  heap s !! l = Some o -> isWrappable (VObj l) s = (Ok (wrappableObj o), s).
Proof.
  intros Ho. simpl. unfold_m. rewrite Ho. simpl.
  unfold rawGetProxy, wrappableObj. destruct (proxy o); reflexivity.
Qed.

Lemma visited_measure (d set st : gset Loc) l fuel :
  l ∈ d -> l ∉ set -> {[l]} ∪ set ⊆ st ->
  size (d ∖ set) < S fuel ->
  size (d ∖ st) < fuel.
Proof.
  intros Hd Hs Hsub Hsz.
  assert (H1 : d ∖ st ⊆ d ∖ ({[l]} ∪ set)).
  { intros x. rewrite !elem_of_difference. intros [Hx Hn].
    split; [exact Hx|]. intros Hc. apply Hn, Hsub, Hc. }
  assert (H2 : d ∖ ({[l]} ∪ set) ⊂ d ∖ set).
  { split.
    - intros x. rewrite !elem_of_difference, elem_of_union.
      intros [Hx Hn]. split; [exact Hx|]. intros Hc. apply Hn. right. exact Hc.
    - intros Hc. specialize (Hc l). rewrite !elem_of_difference, elem_of_union in Hc.
      destruct Hc as [_ Hc]; [split; assumption|].
      apply Hc. left. apply elem_of_singleton. reflexivity. }
  apply subseteq_size in H1. apply subset_size in H2. lia.
Qed.



(** ** Unwrap fidelity *)





Lemma wrap_unfrozen r o s :
  heap s !! r = Some o -> frozen o = false ->
  exists id s1, wrap (VObj r) s = (Ok (VProxy id r), s1).
Proof.
  intros Ho Hf. destruct (proxy o) as [id|] eqn:Hp.
  - exists id, s. eapply wrap_cached; eauto.
  - destruct (wrap_fresh _ _ _ Ho Hp Hf) as (s1 & o1 & Hw & _).
    eauto.
Qed.


(** ** Where cells come from *)

Lemma getDataNode_absent_k {B} l o n k v (K : M B) s :
  heap s !! l = Some o -> nodes o = Some n -> n !! k = None ->
  inheritedNode k = false ->
  (getDataNode l k v;;; K) s
  = K (upd l (obj_setNodes o (<[k := createDataNode v]> n)) [] s).
Proof.
  intros Ho Hn Hk Hi. unfold getDataNode.
  rewrite bind_assoc_s. rewrite (lookupObj_k _ _ _ _ Ho). rewrite Hn, Hk, Hi.
  apply storeObj_k.
Qed.

Lemma readCell_tracked l o n k c r s :
  CurrentReaction s = Some r ->
  heap s !! l = Some o -> nodes o = Some n -> n !! k = Some c ->
  readCell l k s
  = (Ok (payload c),
     upd l (obj_setNodes o (<[k := mkCell (payload c) ({[r]} ∪ observers c)]> n))
       [] s).
Proof.
  intros Hr Ho Hn Hc. unfold readCell.
  rewrite (lookupObj_k _ _ _ _ Ho). rewrite Hn, Hc.
  rewrite get_state_k, Hr. rewrite storeObj_k. reflexivity.
Qed.

Lemma inheritedNode_protoKey k : inheritedNode k = false -> k <> protoKey.
Proof. intros H ->. discriminate. Qed.

Lemma callNode_cell l o n k c s :
  heap s !! l = Some o -> nodes o = Some n -> n !! k = Some c ->
  callNode l k s = readCell l k s.
Proof.
  intros Ho Hn Hc. unfold callNode. rewrite (lookupObj_k _ _ _ _ Ho).
  rewrite Hn. simpl. rewrite Hc. reflexivity.
Qed.

(** The tracked read of a property that has no cell yet. *)
Lemma trap_get_tracked_absent l o k recv r s :
  CurrentReaction s = Some r ->
  heap s !! l = Some o ->
  (frozen o = false \/ is_Some (nodes o)) ->
  default ∅ (nodes o) !! k = None ->
  creatable l o k ->
  trap_get l (PK k) recv s
  = wrapIfWrappable (rawGet o (VObj l) k)
      (upd l (obj_setNodes o
                (<[k := mkCell (rawGet o (VObj l) k) ({[r]} ∪ ∅)]>
                   (default ∅ (nodes o)))) [] s).
Proof.
  intros Hr Ho Hreg Hk (Hi & Hg & Hfun). unfold trap_get.
  rewrite (getDataNodes_k l o) by assumption.
  set (n := default ∅ (nodes o)) in *.
  set (o1 := obj_setNodes o n).
  set (s1 := upd l o1 [] s).
  assert (Ho1 : heap s1 !! l = Some o1) by apply upd_lookup.
  rewrite bool_decide_eq_false_2 by (rewrite Hk; intros [? ?]; discriminate).
  cbv iota. rewrite bind_assoc_s.
  rewrite (lookupObj_k _ _ _ _ Ho1). rewrite ret_k.
  rewrite (bool_decide_eq_false_2 _ (inheritedNode_protoKey k Hi)).
  rewrite !bind_assoc_s.
  rewrite (lookupObj_k _ _ _ _ Ho1).
  rewrite bind_assoc_s, get_state_k.
  change (CurrentReaction s1) with (CurrentReaction s). rewrite Hr.
  rewrite bool_decide_eq_true_2 by eauto.
  change (rawGet o1 (VObj l) k) with (rawGet o (VObj l) k).
  change (hasGetter o1 k) with (hasGetter o k).
  rewrite Hg.
  assert (Hown : (if is_function (rawGet o (VObj l) k)
                  then targetHasOwn l o1 k else ret true) s1 = (Ok true, s1)).
  { destruct Hfun as [-> | [Hh Hm]]; [reflexivity|].
    destruct (is_function _); [|reflexivity].
    unfold targetHasOwn.
    change (rawGet o1 (VObj l) (KStr "hasOwnProperty"))
      with (rawGet o (VObj l) (KStr "hasOwnProperty")).
    unfold plainHasOwn in Hm.
    rewrite Hm, bool_decide_eq_true_2 by reflexivity.
    change (hasOwn o1 k) with (hasOwn o k). rewrite Hh. reflexivity. }
  rewrite !bind_assoc_s. unfold bind at 1. rewrite Hown.
  rewrite ret_k. cbn [andb negb]. cbv iota.
  rewrite bind_assoc_s.
  rewrite (getDataNode_absent_k l o1 n) by (assumption || reflexivity).
  subst s1 o1. rewrite upd_upd, obj_setNodes_twice. cbn [app].
  unfold bind at 1.
  erewrite callNode_cell;
    [|apply upd_lookup|reflexivity|apply lookup_insert_eq].
  erewrite readCell_tracked;
    [|exact Hr|apply upd_lookup|reflexivity|apply lookup_insert_eq].
  rewrite upd_upd, obj_setNodes_twice. cbn [app payload observers createDataNode].
  rewrite insert_insert_eq.
  reflexivity.
Qed.

Lemma tracked_read_creates l o k recv r s :
  CurrentReaction s = Some r ->
  heap s !! l = Some o ->
  (frozen o = false \/ is_Some (nodes o)) ->
  default ∅ (nodes o) !! k = None ->
  creatable l o k ->
  cellOf (trap_get l (PK k) recv s).2 l k
  = Some (mkCell (rawGet o (VObj l) k) {[r]}).
Proof.
  intros Hr Ho Hreg Hk Hc.
  rewrite (trap_get_tracked_absent l o k recv r s Hr Ho Hreg Hk Hc).
  rewrite wrapIfWrappable_cells, cellOf_upd.
  cbn [nodes obj_setNodes mbind option_bind].
  rewrite lookup_insert_eq, union_empty_r_L. reflexivity.
Qed.


(** ** The copy of a frozen input *)
Lemma props_get_set_eq ps k sl : props_get (props_set ps k sl) k = Some sl.
Proof.
  induction ps as [|[k' sl'] ps IH]; simpl.
  - rewrite decide_True by reflexivity. reflexivity.
  - destruct (decide (k' = k)) as [->|Hne]; simpl.
    + rewrite decide_True by reflexivity. reflexivity.
    + rewrite decide_False by exact Hne. exact IH.
Qed.

Lemma props_get_set_ne ps k sl k' :
  k <> k' -> props_get (props_set ps k sl) k' = props_get ps k'.
Proof.
  intros Hne. induction ps as [|[k0 sl0] ps IH]; simpl.
  - rewrite decide_False by exact Hne. reflexivity.
  - destruct (decide (k0 = k)) as [->|Hne0]; simpl.
    + rewrite !decide_False by exact Hne. reflexivity.
    + destruct (decide (k0 = k')); [reflexivity|exact IH].
Qed.

Lemma assignCopy_fold l o :
  props (assignCopy l o) = foldl (copyStep l o) [] (ownEnumKeys o).
Proof. reflexivity. Qed.

Lemma copyStep_dataOnly l o keys : forall acc,
  dataOnly acc -> dataOnly (foldl (copyStep l o) acc keys).
Proof.
  induction keys as [|k keys IH]; intros acc Hacc; simpl; [exact Hacc|].
  apply IH. unfold copyStep. case_bool_decide; [exact Hacc|].
  apply props_set_dataOnly. exact Hacc.
Qed.

Lemma assignCopy_dataOnly l o : dataOnly (props (assignCopy l o)).
Proof.
  rewrite assignCopy_fold. apply copyStep_dataOnly. intros k sl [].
Qed.

Lemma copyStep_get l o keys : forall acc k,
  props_get (foldl (copyStep l o) acc keys) k
  = if bool_decide (k ∈ keys) && negb (bool_decide (k = protoKey))
    then Some (SData (rawGet o (VObj l) k))
    else props_get acc k.
Proof.
  induction keys as [|key keys IH]; intros acc k; simpl.
  - reflexivity.
  - rewrite IH.
    destruct (decide (k ∈ keys)) as [Hin|Hin].
    + rewrite (bool_decide_eq_true_2 (k ∈ keys)) by exact Hin.
      rewrite (bool_decide_eq_true_2 (k ∈ key :: keys))
        by (apply list_elem_of_further; exact Hin).
      cbn [andb]. case_bool_decide as Hp; cbn [negb]; [|reflexivity].
      unfold copyStep. case_bool_decide as Hkey; [reflexivity|].
      apply props_get_set_ne. congruence.
    + rewrite (bool_decide_eq_false_2 (k ∈ keys)) by exact Hin. cbn [andb].
      unfold copyStep. destruct (decide (key = k)) as [->|Hne].
      * rewrite (bool_decide_eq_true_2 (k ∈ k :: keys)) by apply list_elem_of_here.
        cbn [andb]. case_bool_decide; cbn [negb]; [reflexivity|].
        apply props_get_set_eq.
      * rewrite (bool_decide_eq_false_2 (k ∈ key :: keys)).
        2:{ intros H. apply elem_of_cons in H. destruct H; congruence. }
        cbn [andb]. case_bool_decide; [reflexivity|].
        apply props_get_set_ne. exact Hne.
Qed.

Lemma props_get_Some_elem ps k sl : props_get ps k = Some sl -> k ∈ (fst <$> ps).
Proof.
  intros H. apply props_get_In in H. apply list_elem_of_fmap.
  exists (k, sl). split; [reflexivity|]. apply list_elem_of_In. exact H.
Qed.

(** The copy owns the own properties of the object, each as a data
    property that holds the value read on the object. *)
Lemma assignCopy_own l o k :
  shape o <> Arr -> k <> protoKey ->
  ownSlot (assignCopy l o) k
  = if hasOwn o k then Some (SData (rawGet o (VObj l) k)) else None.
Proof.
  intros Hs Hk.
  assert (Hown : ownSlot o k = props_get (props o) k).
  { unfold ownSlot. destruct (shape o); [reflexivity|congruence|reflexivity]. }
  change (ownSlot (assignCopy l o) k) with (props_get (props (assignCopy l o)) k).
  rewrite assignCopy_fold, copyStep_get.
  rewrite (bool_decide_eq_false_2 (k = protoKey)) by exact Hk.
  cbn [negb]. rewrite andb_true_r. unfold hasOwn. rewrite Hown.
  destruct (props_get (props o) k) as [sl|] eqn:Hp.
  - rewrite !bool_decide_eq_true_2; eauto.
    unfold ownEnumKeys. apply keyOrder_elem. eapply props_get_Some_elem. exact Hp.
  - rewrite !bool_decide_eq_false_2; [reflexivity| |].
    + intros [? ?]; discriminate.
    + intros Hin. apply ownEnumKeys_own in Hin. rewrite Hp in Hin.
      destruct Hin; discriminate.
Qed.

Lemma frozenCopy_fields l o :
  frozen (frozenCopy l o) = false
  /\ dataOnly (props (frozenCopy l o))
  /\ (shape (frozenCopy l o) = Arr <-> shape o = Arr)
  /\ proxy (frozenCopy l o) = None /\ nodes (frozenCopy l o) = None.
Proof.
  unfold frozenCopy. case_bool_decide as Hs.
  - repeat split; auto. intros k sl [].
  - repeat split; auto using assignCopy_dataOnly; simpl; congruence.
Qed.

Lemma alloc_fresh o s :
  alloc o s = (Ok (fresh (dom (heap s))),
               set_heap (<[fresh (dom (heap s)) := o]> (heap s)) s).
Proof. reflexivity. Qed.

Lemma fresh_not_in_heap s l o :
  heap s !! l = Some o -> fresh (dom (heap s)) <> l.
Proof.
  intros Ho <-. apply (is_fresh (dom (heap s))). apply elem_of_dom. eauto.
Qed.






Lemma view_set_steps f id l k v u set' s s2 s3 o3 :
  Writing s = true ->
  unwrap f v ∅ s = (Ok (u, set'), s2) ->
  setProperty l k u false s2 = (Ok tt, s3) ->
  heap s3 !! l = Some o3 ->
  setInvariant o3 k v = true ->
  view_set f (VProxy id l) k v s = (Ok tt, s3).
Proof.
  intros Hw Hu Hset Ho3 Hinv. unfold view_set, trap_set.
  rewrite bind_assoc_s, get_state_k, Hw. cbv iota.
  rewrite !bind_assoc_s. unfold bind at 1. rewrite Hu. cbn [fst].
  unfold bind at 1. rewrite Hset. rewrite ret_k. cbv iota.
  rewrite (lookupObj_k _ _ _ _ Ho3). rewrite Hinv. reflexivity.
Qed.

Lemma deleteInvariant_unfrozen o k :
  frozen o = false -> (shape o = Arr -> k <> lengthKey) ->
  deleteInvariant o k = true.
Proof.
  intros Hf Hk. unfold deleteInvariant. destruct (ownSlot o k); [|reflexivity].
  rewrite Hf. cbn [orb]. apply negb_true_iff.
  destruct (bool_decide (shape o = Arr)) eqn:Hs; [|reflexivity].
  apply bool_decide_eq_true_1 in Hs. cbn [andb].
  apply bool_decide_eq_false_2. apply Hk. exact Hs.
Qed.





Lemma assignCopy_slots l o k sl :
  In (k, sl) (props (assignCopy l o)) ->
  exists k', sl = SData (rawGet o (VObj l) k').
Proof.
  rewrite assignCopy_fold.
  assert (H : forall keys acc,
            (forall k sl, In (k, sl) acc -> exists k', sl = SData (rawGet o (VObj l) k')) ->
            forall k sl,
              In (k, sl) (foldl (copyStep l o) acc keys) ->
              exists k', sl = SData (rawGet o (VObj l) k')).
  { induction keys as [|key keys IH]; intros acc Hacc k0 sl0; simpl; [apply Hacc|].
    apply IH. intros k1 sl1 Hin. unfold copyStep in Hin.
    case_bool_decide; [eauto|].
    destruct (props_set_In _ _ _ _ _ Hin) as [[= -> ->]|Hin']; eauto. }
  apply H. intros k0 sl0 [].
Qed.




(** ** The write gate, idempotent writes, and worked instances *)



(** C3: assigning to a property the value it already holds (as [===]
    sees it) is a no-op of [setProperty]: the state is returned as it
    was, so the raw object is unchanged and no cell fires.  Through the
    view, inside a transaction, the same holds for every value that
    [unwrap] hands on as it is. *)
Theorem idempotent_write_is_noop state o property value s :
  heap s !! state = Some o ->
  strict_eq (rawGet o (VObj state) property) value = true ->
  setProperty state property value false s = (Ok tt, s)
  /\ (forall fuel,
        Writing s = true -> isPrimitive value ->
        trap_set (S fuel) state property value s = (Ok true, s)).
Proof.
  intros Ho Heq.
  assert (Hp : setProperty state property value false s = (Ok tt, s)).
  { unfold setProperty; unfold_m. rewrite Ho. simpl. rewrite Heq. reflexivity. }
  split; [exact Hp|].
  intros fuel Hw Hprim.
  unfold trap_set, bind, get_state. rewrite Hw.
  rewrite unwrap_primitive by assumption. simpl.
  rewrite Hp. reflexivity.
Qed.

Lemma idempotent_write_is_noop_witness :
  setProperty 0 (KStr "a") (VNum 1) false exStateW = (Ok tt, exStateW).
Proof.
  exact (proj1 (idempotent_write_is_noop 0 exObj (KStr "a") (VNum 1) exStateW
                  eq_refl eq_refl)).
Defined.

Lemma wrap_identity_stable_witness :
  wrap (VObj 0) (wrap (VObj 0) exState).2
  = (Ok (VProxy 0 0), (wrap (VObj 0) exState).2).
Proof.
  exact (proj1 (wrap_identity_stable 0 exState (VProxy 0 0)
                  (wrap (VObj 0) exState).2 eq_refl)).
Defined.



Lemma array_length_sync_witness :
  exists s' new o',
    view_pop 1 (VProxy 0 0) exArrState = (Ok (VNum 3), s')
    /\ fired s' = (fired exArrState ++ new)%list
    /\ In (0, KIdx 2) new
    /\ In (0, lengthKey) new
    /\ heap s' !! 0 = Some o'
    /\ elems o' = [Some (VNum 1); Some (VNum 2)].
Proof.
  apply (proj2 (array_length_sync 0 exArr exArrState eq_refl eq_refl) 0 0).
  - reflexivity.
  - reflexivity.
  - discriminate.
  - reflexivity.
  - reflexivity.
  - split; intros; discriminate.
  - reflexivity.
  - vm_compute. discriminate.
Defined.










(** C9: the failing input.  After a tracked read of index 2 and the
    truncation [length = 0] through the mutator, the raw array is empty,
    so reading index 2 on it yields [undefined]; the untracked read
    through the view still answers 3, the payload left in the cell of
    the index, which the truncation never fired. *)
Theorem stale_read_after_truncation :
  (exTruncation exArrIdle).1 = Ok (VNum 3)
  /\ CurrentReaction (exTruncation exArrIdle).2 = None
  /\ (o ← heap (exTruncation exArrIdle).2 !! 0;
      Some (elems o, rawGet o (VObj 0) (KIdx 2)))
     = Some ([], VUndef)
  /\ fired (exTruncation exArrIdle).2
     = [(0, KStr "length"); (0, KStr "length")].
Proof. vm_compute. repeat split. Qed.

(** * Further properties of the store *)

(** ** The mutator and the gate *)






(** ** A store over a view *)

(** X2: [createStore] applied to the view of an existing store hands
    back that very view and changes nothing: [unwrap] yields the raw
    node of the view and [wrap] finds the view cached on it. *)
Theorem createStore_of_view fuel id r o s :
  heap s !! r = Some o -> proxy o = Some id ->
  createStore (S fuel) (VProxy id r) s = (Ok (VProxy id r), s)
  /\ (forall set, unwrap (S fuel) (VProxy id r) set s = (Ok (VObj r, set), s))
  /\ wrap (VObj r) s = (Ok (VProxy id r), s).
Proof.
  intros Ho Hp.
  assert (Hw : wrap (VObj r) s = (Ok (VProxy id r), s))
    by (eapply wrap_cached; eauto).
  split; [|split; [reflexivity|exact Hw]].
  unfold createStore, bind. rewrite unwrap_view. exact Hw.
Qed.

(** ** What a read through the view hands out *)

Lemma bind_Ok_inv {A B} (m : M A) (k : A -> M B) s b s' :
  bind m k s = (Ok b, s') ->
  exists a s1, m s = (Ok a, s1) /\ k a s1 = (Ok b, s').
Proof.
  unfold bind. destruct (m s) as [[a| | |] s1]; intros H; try discriminate.
  eauto.
Qed.

Lemma trap_get_PK_inv l k recv s x s' :
  k <> protoKey ->
  trap_get l (PK k) recv s = (Ok x, s') ->
  exists value s1, wrapIfWrappable value s1 = (Ok x, s').
Proof.
  unfold trap_get. intros Hk H.
  apply bind_Ok_inv in H. destruct H as (n & s1 & _ & H).
  apply bind_Ok_inv in H. destruct H as (v1 & s2 & _ & H).
  rewrite bool_decide_eq_false_2 in H by exact Hk.
  apply bind_Ok_inv in H. destruct H as (v2 & s3 & _ & H).
  exists v2, s3. exact H.
Qed.

(** X3: a read through the view of a property other than [__proto__]
    never hands out a raw wrappable object: the result is a view, or a
    value that [isWrappable] rejects in the final state (a primitive, a
    function, or an object of a class that has no view). *)
Theorem view_read_never_leaks_raw l k recv s x s' :
  k <> protoKey ->
  trap_get l (PK k) recv s = (Ok x, s') ->
  (exists id t, x = VProxy id t) \/ isWrappable x s' = (Ok false, s').
Proof.
  intros Hk H. apply trap_get_PK_inv in H; [|exact Hk].
  destruct H as (value & s1 & H).
  unfold wrapIfWrappable in H. apply bind_Ok_inv in H.
  destruct H as (w & s2 & Hw & H).
  pose proof (isWrappable_state value s1) as Hs. rewrite Hw in Hs.
  cbn [snd] in Hs. subst s2.
  destruct w.
  - left. destruct value; try discriminate.
    + apply wrap_ok_inv in H. destruct H as (o1 & id & _ & _ & ->). eauto.
    + injection H as <- <-. eauto.
  - right. injection H as <- <-. exact Hw.
Qed.

(** ** Writing, then reading *)

(** Outside the indices and the [length] of an array, the own
    properties are those of the list. *)
Lemma ownSlot_props o k :
  (shape o = Arr -> k <> lengthKey /\ forall i, k <> KIdx i) ->
  ownSlot o k = props_get (props o) k.
Proof.
  intros Hk. unfold ownSlot.
  destruct (shape o) eqn:Hs; try reflexivity.
  destruct (Hk eq_refl) as [Hl Hi].
  destruct k; [|exfalso; eapply Hi; reflexivity].
  repeat case_match; try reflexivity.
  exfalso. apply Hl. reflexivity.
Qed.

(** The raw round trip: a successful assignment is read back. *)
Lemma obj_assign_get o k v this :
  frozen o = false -> hasGetter o k = false ->
  k <> protoKey ->
  assignableKey (shape o) k ->
  exists o1, obj_assign o k v = Some o1 /\ rawGet o1 this k = v.
Proof.
  intros Hf Hg Hp Hk. unfold obj_assign.
  rewrite (bool_decide_eq_false_2 (k = protoKey)) by exact Hp. cbn [andb].
  rewrite Hf.
  destruct (decide (shape o = Arr)) as [Hs|Hs].
  - destruct (Hk Hs) as [Hne Hidx].
    destruct k as [str|i].
    + assert (Hown : forall o', shape o' = Arr -> ownSlot o' (KStr str)
                                = props_get (props o') (KStr str)).
      { intros o' Hs'. unfold ownSlot. rewrite Hs'.
        repeat case_match; try reflexivity.
        exfalso. apply Hne. reflexivity. }
      unfold hasGetter in Hg. rewrite (Hown o Hs) in Hg.
      rewrite Hs.
      repeat case_match; try (exfalso; apply Hne; reflexivity); subst;
        try discriminate;
        (eexists; split; [reflexivity|]);
        unfold rawGet; rewrite Hown by reflexivity; simpl;
        rewrite props_get_set_eq; reflexivity.
    + rewrite Hs. rewrite (Hidx i eq_refl), orb_true_r.
      eexists. split; [reflexivity|].
      unfold rawGet, ownSlot. simpl.
      rewrite list_lookup_insert_eq; [reflexivity|].
      unfold resize. rewrite length_app, length_take, length_replicate. lia.
  - assert (Hown : forall o', shape o' = shape o -> forall k',
               ownSlot o' k' = props_get (props o') k').
    { intros o' Hs' k'. apply ownSlot_props. congruence. }
    unfold hasGetter in Hg. rewrite (Hown o eq_refl) in Hg.
    destruct (shape o) eqn:Hsh; try congruence;
      destruct (props_get (props o) k) as [[w|g b]|] eqn:Hpg; try discriminate;
      (eexists; split; [reflexivity|]);
      unfold rawGet; rewrite Hown by (simpl; congruence); simpl;
      rewrite props_get_set_eq; reflexivity.
Qed.

Lemma strict_eq_true v w : strict_eq v w = true -> v = w.
Proof.
  unfold strict_eq. destruct v; try discriminate;
    intros H; apply bool_decide_eq_true_1 in H; exact H.
Qed.

Lemma isPrimitive_undef : isPrimitive VUndef.
Proof. split; intros; discriminate. Qed.

Lemma nodesAfterProperty_written l o o1 k v :
  (lengthChanged l o o1 = true -> k <> lengthKey) ->
  exists c, nodesAfterProperty l o o1 k v !! k = Some c /\ payload c = v.
Proof.
  intros Hlen. unfold nodesAfterProperty.
  destruct (lengthChanged l o o1).
  - rewrite fireReg_lookup, decide_False by (intros H; apply Hlen; auto).
    rewrite fireReg_lookup, decide_True by reflexivity.
    eexists; split; reflexivity.
  - rewrite fireReg_lookup, decide_True by reflexivity.
    eexists; split; reflexivity.
Qed.

Lemma nodesAfter_written l o o1 k v :
  k <> selfKey ->
  (lengthChanged l o o1 = true -> k <> lengthKey) ->
  exists c, nodesAfter l o o1 k v !! k = Some c /\ payload c = v.
Proof.
  intros Hself Hlen. unfold nodesAfter.
  destruct (nodesAfterProperty_written l o o1 k v Hlen) as (c & Hc & Hp).
  destruct (selfExists l o o1 k v); [|eauto].
  rewrite fireReg_lookup, decide_False by congruence. eauto.
Qed.

Lemma lengthChanged_arr l o o1 :
  lengthChanged l o o1 = true -> shape o1 = Arr.
Proof.
  unfold lengthChanged. intros H. apply andb_true_iff in H.
  destruct H as [H _]. apply bool_decide_eq_true_1 in H. exact H.
Qed.

Lemma setProperty_same l o k v s :
  heap s !! l = Some o ->
  strict_eq (rawGet o (VObj l) k) v = true ->
  setProperty l k v false s = (Ok tt, s).
Proof.
  intros Ho Heq. unfold setProperty.
  rewrite (lookupObj_k _ _ _ _ Ho). simpl. rewrite Heq. reflexivity.
Qed.

(** X4: write, then read.  Inside a transaction, assigning a primitive
    [v] to a data property [k] of an unfrozen raw node through its view
    succeeds, and an untracked read of [k] through the view then yields
    [v], which is also what the raw node holds.  The key is neither the
    reserved "_" nor a name of [Object.prototype], and on an array
    neither [length] nor an integer beyond the index range; the cell of
    [k], when one exists beforehand, mirrors the raw value. *)
Theorem write_then_read fuel id l o k v s :
  Writing s = true ->
  CurrentReaction s = None ->
  heap s !! l = Some o ->
  frozen o = false ->
  hasGetter o k = false ->
  k <> selfKey ->
  inheritedNode k = false ->
  assignableKey (shape o) k ->
  isPrimitive v ->
  isHost v = false ->
  untrackedValue l o k = rawGet o (VObj l) k ->
  exists s1 s2 o2,
    view_set (S fuel) (VProxy id l) k v s = (Ok tt, s1)
    /\ view_get (VProxy id l) (PK k) s1 = (Ok v, s2)
    /\ heap s2 !! l = Some o2
    /\ rawGet o2 (VObj l) k = v.
Proof.
  intros Hw Hr Ho Hf Hg Hself Hi Hk Hprim Hhost Hsync.
  destruct (strict_eq (rawGet o (VObj l) k) v) eqn:Heq.
  - (* the write is idempotent *)
    pose proof (strict_eq_true _ _ Heq) as Hv.
    exists s. eexists. eexists.
    split.
    { apply (view_set_open fuel id l k v s s o);
        [exact Hw|exact Hprim|apply (setProperty_same l o); assumption
        |exact Ho|apply setInvariant_unfrozen; exact Hf]. }
    rewrite (view_get_untracked_primitive id l o k s Hr Ho (or_introl Hf));
      [|rewrite Hsync, Hv; exact Hprim|rewrite Hsync, Hv; exact Hhost
       |apply getInvariant_unfrozen; exact Hf].
    split; [rewrite Hsync, Hv; reflexivity|].
    split; [apply upd_lookup|exact Hv].
  - destruct (obj_assign_get o k v (VObj l) Hf Hg (inheritedNode_protoKey k Hi) Hk)
      as (o1 & Ha & Hget).
    pose proof (setProperty_effect l o o1 k v false s Ho (or_intror Heq) Ha
                  (or_introl Hf) (cellAvailable_ordinary o k Hi)) as Hset.
    destruct (rawMutation_fields o k v false o1 Ha) as (Hsh & Hfr & _ & _).
    destruct (nodesAfter_written l o o1 k v Hself) as (c & Hc & Hpay).
    { intros Hch. apply Hk. rewrite <- Hsh. eapply lengthChanged_arr. exact Hch. }
    set (oB := obj_setNodes o1 (nodesAfter l o o1 k v)) in *.
    set (s1 := upd l oB (firings l o o1 k v) s) in *.
    assert (HoB : heap s1 !! l = Some oB) by apply upd_lookup.
    assert (HfB : frozen oB = false) by (simpl; congruence).
    assert (Huv : untrackedValue l oB k = v).
    { unfold untrackedValue. simpl. rewrite Hc. exact Hpay. }
    exists s1. eexists. eexists.
    split.
    { apply (view_set_open fuel id l k v s s1 oB); try assumption.
      apply setInvariant_unfrozen. exact HfB. }
    assert (HregB : frozen oB = false \/ is_Some (nodes oB))
      by (right; simpl; eauto).
    rewrite (view_get_untracked_primitive id l oB k s1 Hr HoB HregB);
      [|rewrite Huv; exact Hprim|rewrite Huv; exact Hhost
       |apply getInvariant_unfrozen; exact HfB].
    split; [rewrite Huv; reflexivity|].
    split; [apply upd_lookup|exact Hget].
Qed.

(** X5: the reserved key.  A user property named "_" shares its slot of
    the registry with the whole-object cell.  After a non-idempotent
    assignment of a primitive [v] to "_" inside a transaction, the raw
    node holds [v], yet an untracked read of "_" through the view yields
    [undefined]: the firing of the whole-object cell, which ends
    [setProperty], overwrites the payload. *)
Theorem reserved_key_reads_undefined fuel id l o v s :
  Writing s = true ->
  CurrentReaction s = None ->
  heap s !! l = Some o ->
  frozen o = false ->
  hasGetter o selfKey = false ->
  isPrimitive v ->
  strict_eq (rawGet o (VObj l) selfKey) v = false ->
  exists s1 s2 o2,
    view_set (S fuel) (VProxy id l) selfKey v s = (Ok tt, s1)
    /\ view_get (VProxy id l) (PK selfKey) s1 = (Ok VUndef, s2)
    /\ heap s2 !! l = Some o2
    /\ rawGet o2 (VObj l) selfKey = v.
Proof.
  intros Hw Hr Ho Hf Hg Hprim Heq.
  destruct (obj_assign_get o selfKey v (VObj l) Hf Hg) as (o1 & Ha & Hget);
    [discriminate|intros _; split; intros; discriminate|].
  pose proof (setProperty_effect l o o1 selfKey v false s Ho (or_intror Heq) Ha
                (or_introl Hf) (cellAvailable_ordinary o selfKey eq_refl)) as Hset.
  destruct (rawMutation_fields o selfKey v false o1 Ha) as (Hsh & Hfr & _ & _).
  assert (Hse : selfExists l o o1 selfKey v = true).
  { unfold selfExists. apply bool_decide_eq_true_2.
    destruct (nodesAfterProperty_written l o o1 selfKey v) as (c & Hc & _);
      [discriminate|eauto]. }
  assert (Hc : nodesAfter l o o1 selfKey v !! selfKey
               = Some (mkCell VUndef
                         (from_option observers ∅
                            (nodesAfterProperty l o o1 selfKey v !! selfKey)))).
  { unfold nodesAfter. rewrite Hse. rewrite fireReg_lookup, decide_True by reflexivity.
    reflexivity. }
  set (oB := obj_setNodes o1 (nodesAfter l o o1 selfKey v)) in *.
  set (s1 := upd l oB (firings l o o1 selfKey v) s) in *.
  assert (HoB : heap s1 !! l = Some oB) by apply upd_lookup.
  assert (Huv : untrackedValue l oB selfKey = VUndef).
  { unfold untrackedValue. simpl. rewrite Hc. reflexivity. }
  assert (HfB : frozen oB = false) by (simpl; congruence).
  exists s1. eexists. eexists.
  split.
  { apply (view_set_open fuel id l selfKey v s s1 oB); try assumption.
    apply setInvariant_unfrozen. exact HfB. }
  assert (HregB : frozen oB = false \/ is_Some (nodes oB))
    by (right; simpl; eauto).
  rewrite (view_get_untracked_primitive id l oB selfKey s1 Hr HoB HregB);
    [|rewrite Huv; exact isPrimitive_undef|rewrite Huv; reflexivity
     |apply getInvariant_unfrozen; exact HfB].
  split; [rewrite Huv; reflexivity|].
  split; [apply upd_lookup|exact Hget].
Qed.

(** ** Deleting, then reading *)

Lemma props_get_None_notin ps k :
  k ∉ (fst <$> ps) -> props_get ps k = None.
Proof.
  induction ps as [|[k' sl'] ps IH]; simpl; [reflexivity|].
  intros Hn. rewrite not_elem_of_cons in Hn. destruct Hn as [Hne Hn].
  rewrite decide_False by congruence. apply IH. exact Hn.
Qed.

Lemma props_get_del_eq ps k :
  NoDup (fst <$> ps) -> props_get (props_del ps k) k = None.
Proof.
  induction ps as [|[k' sl'] ps IH]; simpl; [reflexivity|].
  intros Hnd. apply NoDup_cons in Hnd. destruct Hnd as [Hn Hnd].
  destruct (decide (k' = k)) as [->|Hne]; simpl.
  - apply props_get_None_notin. exact Hn.
  - rewrite decide_False by exact Hne. apply IH. exact Hnd.
Qed.

(** The raw deletion: afterwards the key is not an own property. *)
Lemma obj_delete_gone o k :
  frozen o = false -> NoDup (fst <$> props o) ->
  (shape o = Arr -> k <> lengthKey) ->
  exists o1, obj_delete o k = Some o1 /\ ownSlot o1 k = None.
Proof.
  intros Hf Hnd Hk. unfold obj_delete.
  destruct (ownSlot o k) as [sl|] eqn:Hown; [|eauto].
  rewrite Hf.
  destruct (decide (shape o = Arr)) as [Hs|Hs].
  - rewrite Hs. destruct k as [str|i].
    + assert (Hne : KStr str <> lengthKey) by (apply Hk; exact Hs).
      repeat case_match; try (exfalso; apply Hne; reflexivity);
        (eexists; split; [reflexivity|]);
        (rewrite ownSlot_props by (intros _; split; [exact Hne|discriminate]));
        apply props_get_del_eq; exact Hnd.
    + eexists. split; [reflexivity|]. unfold ownSlot. simpl.
      destruct (decide (i < length (elems o))) as [Hlt|Hge].
      * rewrite list_lookup_insert_eq by exact Hlt. reflexivity.
      * rewrite list_insert_ge by lia.
        rewrite lookup_ge_None_2 by lia. reflexivity.
  - assert (Hgen : exists o1,
               Some (mkObj (shape o) false (props_del (props o) k) (elems o)
                       (proxy o) (nodes o)) = Some o1
               /\ ownSlot o1 k = None).
    { eexists. split; [reflexivity|]. rewrite ownSlot_props by (simpl; congruence).
      simpl. apply props_get_del_eq. exact Hnd. }
    destruct (shape o); try congruence; destruct k; exact Hgen.
Qed.

Lemma nodesAfter_deleted l o o1 k :
  (lengthChanged l o o1 = true -> k <> lengthKey) ->
  exists c, nodesAfter l o o1 k VUndef !! k = Some c /\ payload c = VUndef.
Proof.
  intros Hlen.
  destruct (nodesAfterProperty_written l o o1 k VUndef Hlen) as (c & Hc & Hp).
  unfold nodesAfter. destruct (selfExists l o o1 k VUndef); [|eauto].
  rewrite fireReg_lookup. destruct (decide (selfKey = k)).
  - eexists; split; reflexivity.
  - eauto.
Qed.

Lemma trap_has_untracked l o k s :
  CurrentReaction s = None ->
  heap s !! l = Some o ->
  (frozen o = false \/ is_Some (nodes o)) ->
  isPrimitive (untrackedValue l o k) ->
  isHost (untrackedValue l o k) = false ->
  k <> protoKey ->
  trap_has l (PK k) s
  = (Ok (rawHas o k), upd l (obj_setNodes o (default ∅ (nodes o))) [] s).
Proof.
  intros Hr Ho Hreg Hp Hh Hk. unfold trap_has.
  rewrite (bool_decide_eq_false_2 _ Hk). unfold bind at 1.
  rewrite (trap_get_untracked _ _ _ _ _ Hr Ho Hreg Hk).
  rewrite (wrapIfWrappable_primitive _ _ Hp Hh).
  erewrite lookupObj_k by apply upd_lookup. reflexivity.
Qed.

(** X6: delete, then read.  Inside a transaction, deleting a key of an
    unfrozen raw node through its view succeeds; afterwards an untracked
    read of the key through the view yields [undefined], the raw node no
    longer owns the key, and [key in view] answers what the prototype
    chain alone gives.  The key is not the [length] of an array and no
    name of [Object.prototype]. *)
Theorem delete_then_read id l o k s :
  Writing s = true ->
  CurrentReaction s = None ->
  heap s !! l = Some o ->
  frozen o = false ->
  NoDup (fst <$> props o) ->
  (shape o = Arr -> k <> lengthKey) ->
  inheritedNode k = false ->
  exists s1 s2 s3 o3,
    view_delete (VProxy id l) k s = (Ok tt, s1)
    /\ view_get (VProxy id l) (PK k) s1 = (Ok VUndef, s2)
    /\ view_has (VProxy id l) (PK k) s2 = (Ok (protoHas (shape o) k), s3)
    /\ heap s3 !! l = Some o3
    /\ hasOwn o3 k = false.
Proof.
  intros Hw Hr Ho Hf Hnd Hk Hi.
  destruct (obj_delete_gone o k Hf Hnd Hk) as (o1 & Hd & Hgone).
  destruct (rawMutation_fields o k VUndef true o1 Hd) as (Hsh & Hfr & _ & _).
  pose proof (setProperty_effect l o o1 k VUndef true s Ho (or_introl eq_refl) Hd
                (or_introl Hf) (cellAvailable_ordinary o k Hi)) as Hset.
  destruct (nodesAfter_deleted l o o1 k) as (c & Hc & Hpay).
  { intros Hch. apply Hk. rewrite <- Hsh. eapply lengthChanged_arr. exact Hch. }
  set (oB := obj_setNodes o1 (nodesAfter l o o1 k VUndef)) in *.
  set (s1 := upd l oB (firings l o o1 k VUndef) s) in *.
  assert (HoB : heap s1 !! l = Some oB) by apply upd_lookup.
  assert (HregB : frozen oB = false \/ is_Some (nodes oB))
    by (right; simpl; eauto).
  assert (Huv : untrackedValue l oB k = VUndef).
  { unfold untrackedValue. simpl. rewrite Hc. exact Hpay. }
  set (s2 := upd l (obj_setNodes oB (default ∅ (nodes oB))) [] s1).
  assert (HoB2 : heap s2 !! l = Some oB) by apply upd_lookup.
  assert (Hr2 : CurrentReaction s2 = None) by exact Hr.
  assert (HfB : frozen oB = false) by (simpl; congruence).
  exists s1, s2. eexists. exists oB.
  split.
  { apply (view_delete_open id l k s s1 oB); try assumption.
    apply deleteInvariant_unfrozen; [exact HfB|].
    intros H. apply Hk. rewrite <- Hsh. exact H. }
  split.
  { rewrite (view_get_untracked_primitive id l oB k s1 Hr HoB HregB);
      [|rewrite Huv; exact isPrimitive_undef|rewrite Huv; reflexivity
       |apply getInvariant_unfrozen; exact HfB].
    rewrite Huv. reflexivity. }
  assert (Hown : hasOwn oB k = false).
  { unfold hasOwn. apply bool_decide_eq_false_2.
    change (ownSlot oB k) with (ownSlot o1 k). rewrite Hgone.
    intros [? ?]; discriminate. }
  split.
  { unfold view_has.
    rewrite (trap_has_untracked l oB k s2 Hr2 HoB2 HregB);
      [|rewrite Huv; exact isPrimitive_undef|rewrite Huv; reflexivity
       |apply inheritedNode_protoKey; exact Hi].
    unfold rawHas. rewrite Hown. simpl. rewrite Hsh. reflexivity. }
  split; [apply upd_lookup|exact Hown].
Qed.

Section Keeps.

Context (R : State -> State -> Prop) `{!PreOrder R}.

Hypothesis R_flags : forall s s', heap s' = heap s -> R s s'.
Hypothesis R_readCell : forall l k, keeps R (readCell l k).
Hypothesis R_writeCell : forall l k v, keeps R (writeCell l k v).
Hypothesis R_getDataNodes : forall l, keeps R (getDataNodes l).
Hypothesis R_getDataNode : forall l k v, keeps R (getDataNode l k v).
Hypothesis R_assignProp : forall l k v, keeps R (assignProp l k v).
Hypothesis R_alloc : forall o, keeps R (alloc o).
Hypothesis R_wrap : forall v, keeps R (wrap v).
Hypothesis R_setProperty : forall l k v d, keeps R (setProperty l k v d).

Lemma keeps_ret {A} (a : A) : keeps R (ret a).
Proof. intros s. reflexivity. Qed.

Lemma keeps_throw {A} : keeps R (@throw A).
Proof. intros s. reflexivity. Qed.

Lemma keeps_out_of_fuel {A} : keeps R (@out_of_fuel A).
Proof. intros s. reflexivity. Qed.

Lemma keeps_unsupported {A} : keeps R (@unsupported A).
Proof. intros s. reflexivity. Qed.

Lemma keeps_get_state : keeps R get_state.
Proof. intros s. reflexivity. Qed.

Lemma keeps_lookupObj l : keeps R (lookupObj l).
Proof. intros s. unfold lookupObj. destruct (heap s !! l); reflexivity. Qed.

Lemma keeps_bind {A B} (m : M A) (k : A -> M B) :
  keeps R m -> (forall a, keeps R (k a)) -> keeps R (bind m k).
Proof.
  intros Hm Hk s. unfold bind. specialize (Hm s).
  destruct (m s) as [[a| | |] s1]; simpl in *; try assumption.
  etransitivity; [exact Hm|apply Hk].
Qed.

Lemma keeps_forM {A St} (xs : list A) (f : A -> St -> M St) st :
  (forall x st, keeps R (f x st)) -> keeps R (forM xs f st).
Proof.
  intros Hf. revert st. induction xs as [|x xs IH]; intros st; simpl.
  - apply keeps_ret.
  - apply keeps_bind; [apply Hf|intros; apply IH].
Qed.

Lemma keeps_trackSelf l : keeps R (trackSelf l).
Proof.
  unfold trackSelf. apply keeps_bind; [apply keeps_get_state|].
  intros s. destruct (CurrentReaction s); [|apply keeps_ret].
  apply keeps_bind; [apply R_getDataNodes|intros _].
  apply keeps_bind; [apply R_getDataNode|intros _].
  apply keeps_bind; [apply R_readCell|intros _]. apply keeps_ret.
Qed.

Lemma keeps_ownKeys l : keeps R (ownKeys l).
Proof.
  unfold ownKeys. apply keeps_bind; [apply keeps_trackSelf|intros _].
  apply keeps_bind; [apply keeps_lookupObj|intros; apply keeps_ret].
Qed.

Lemma keeps_isWrappable v : keeps R (isWrappable v).
Proof.
  intros s. rewrite isWrappable_state. reflexivity.
Qed.

Lemma keeps_targetHasOwn l o k : keeps R (targetHasOwn l o k).
Proof.
  unfold targetHasOwn. case_bool_decide; [apply keeps_ret|].
  destruct (is_function _); [apply keeps_unsupported|apply keeps_throw].
Qed.

Lemma keeps_callInherited k : keeps R (callInherited k).
Proof.
  unfold callInherited.
  repeat case_match; try apply keeps_throw; try apply keeps_ret.
  apply keeps_bind; [apply R_alloc|intros; apply keeps_ret].
Qed.

Lemma keeps_callNode l k : keeps R (callNode l k).
Proof.
  unfold callNode. apply keeps_bind; [apply keeps_lookupObj|intros o].
  destruct (nodes o ≫= _); [apply R_readCell|].
  destruct (inheritedNode k); [apply keeps_callInherited|apply keeps_throw].
Qed.

Lemma keeps_trap_get l p r : keeps R (trap_get l p r).
Proof.
  unfold trap_get. destruct p as [k|[]];
    try apply keeps_ret.
  2:{ apply keeps_bind; [apply keeps_trackSelf|intros; apply keeps_ret]. }
  2:{ apply keeps_bind; [apply R_getDataNodes|intros; apply keeps_unsupported]. }
  apply keeps_bind; [apply R_getDataNodes|intros n].
  apply keeps_bind.
  { case_bool_decide; [apply R_readCell|].
    apply keeps_bind; [apply keeps_lookupObj|intros; apply keeps_ret]. }
  intros value. case_bool_decide; [apply keeps_ret|].
  apply keeps_bind.
  { case_bool_decide; [apply keeps_ret|].
    apply keeps_bind; [apply keeps_lookupObj|intros o].
    apply keeps_bind; [apply keeps_get_state|intros s].
    apply keeps_bind.
    { case_bool_decide; [|apply keeps_ret].
      apply keeps_bind; [|intros; apply keeps_ret].
      destruct (is_function value); [apply keeps_targetHasOwn|apply keeps_ret]. }
    intros [|]; [|apply keeps_ret].
    apply keeps_bind; [apply R_getDataNode|intros; apply keeps_callNode]. }
  intros value'. apply keeps_bind; [apply keeps_isWrappable|intros w].
  destruct w; [apply R_wrap|apply keeps_ret].
Qed.

Lemma keeps_view_get v p : keeps R (view_get v p).
Proof.
  destruct v; simpl; try apply keeps_throw.
  apply keeps_bind; [apply keeps_trap_get|intros r].
  destruct p; [|apply keeps_ret].
  apply keeps_bind; [apply keeps_lookupObj|intros o].
  case_match; [apply keeps_ret|apply keeps_throw].
Qed.

Lemma keeps_trap_has l p : keeps R (trap_has l p).
Proof.
  destruct p as [k|y]; unfold trap_has; [|apply keeps_ret].
  case_bool_decide; [apply keeps_ret|].
  apply keeps_bind; [apply keeps_trap_get|intros _].
  apply keeps_bind; [apply keeps_lookupObj|intros; apply keeps_ret].
Qed.

Lemma keeps_view_has v p : keeps R (view_has v p).
Proof.
  destruct v; unfold view_has; try apply keeps_throw. apply keeps_trap_has.
Qed.

Lemma keeps_view_ownKeys v : keeps R (view_ownKeys v).
Proof.
  destruct v; simpl; try apply keeps_throw. apply keeps_ownKeys.
Qed.

Lemma keeps_unwrap_body fuel l k st :
  (forall v set, keeps R (unwrap fuel v set)) ->
  keeps R (o <- lookupObj l;;
           (let v := rawGet o (VObj l) k in
            r <- unwrap fuel v st;;
            (if negb (strict_eq r.1 v) then assignProp l k r.1 else ret tt);;;
            ret r.2)).
Proof.
  intros IH.
  apply keeps_bind; [apply keeps_lookupObj|intros o'].
  apply keeps_bind; [apply IH|intros r].
  apply keeps_bind; [|intros; apply keeps_ret].
  match goal with |- keeps R (if ?b then _ else _) => destruct b end;
    [apply R_assignProp|apply keeps_ret].
Qed.

Lemma keeps_unwrap fuel : forall v set, keeps R (unwrap fuel v set).
Proof.
  induction fuel as [|fuel IH]; intros v set; simpl.
  - apply keeps_out_of_fuel.
  - destruct v; try apply keeps_ret.
    apply keeps_bind; [apply keeps_isWrappable|intros w].
    match goal with |- keeps R (if ?b then _ else _) => destruct b end;
      [apply keeps_ret|].
    apply keeps_bind; [apply keeps_lookupObj|intros o0].
    case_bool_decide.
    + apply keeps_bind.
      { destruct (frozen o0); [|apply keeps_ret].
        destruct (sliceFollowed o0); [|apply keeps_unsupported].
        apply keeps_bind; [apply R_alloc|intros; apply keeps_ret]. }
      intros ls. apply keeps_bind; [apply keeps_lookupObj|intros o].
      apply keeps_bind; [|intros; apply keeps_ret].
      apply keeps_forM. intros i st.
      apply (keeps_unwrap_body fuel ls.1 (KIdx i) st IH).
    + apply keeps_bind.
      { destruct (frozen o0); [|apply keeps_ret].
        destruct (copyFollowed l o0); [|apply keeps_unsupported].
        apply keeps_bind; [apply R_alloc|intros; apply keeps_ret]. }
      intros ls. apply keeps_bind; [apply keeps_lookupObj|intros o].
      apply keeps_bind; [|intros; apply keeps_ret].
      apply keeps_forM. intros prop st.
      pose proof (keeps_unwrap_body fuel ls.1 prop st IH) as Hb.
      destruct (props_get (props o) prop) as [[]|]; try exact Hb.
      apply keeps_ret.
Qed.

Lemma keeps_trap_set fuel l k v : keeps R (trap_set fuel l k v).
Proof.
  unfold trap_set. apply keeps_bind; [apply keeps_get_state|intros s].
  apply keeps_bind; [|intros; apply keeps_ret].
  destruct (Writing s); [|apply keeps_ret].
  apply keeps_bind; [apply keeps_unwrap|intros; apply R_setProperty].
Qed.

Lemma keeps_trap_deleteProperty l k : keeps R (trap_deleteProperty l k).
Proof.
  unfold trap_deleteProperty. apply keeps_bind; [apply keeps_get_state|intros s].
  apply keeps_bind; [|intros; apply keeps_ret].
  destruct (Writing s); [|apply keeps_ret]. apply R_setProperty.
Qed.

Lemma keeps_view_set fuel v k x : keeps R (view_set fuel v k x).
Proof.
  destruct v; simpl; try apply keeps_throw.
  apply keeps_bind; [apply keeps_trap_set|intros []]; [|apply keeps_throw].
  apply keeps_bind; [apply keeps_lookupObj|intros o].
  case_match; [apply keeps_ret|apply keeps_throw].
Qed.

Lemma keeps_view_delete v k : keeps R (view_delete v k).
Proof.
  destruct v; simpl; try apply keeps_throw.
  apply keeps_bind; [apply keeps_trap_deleteProperty|intros []];
    [|apply keeps_throw].
  apply keeps_bind; [apply keeps_lookupObj|intros o].
  case_match; [apply keeps_ret|apply keeps_throw].
Qed.

Lemma keeps_createStore fuel v : keeps R (createStore fuel v).
Proof.
  unfold createStore.
  apply keeps_bind; [apply keeps_unwrap|intros; apply R_wrap].
Qed.

Lemma keeps_setStore view fn :
  (forall v, keeps R (fn v)) -> keeps R (setStore view fn).
Proof.
  intros Hf s. unfold setStore. simpl.
  etransitivity; [|etransitivity; [apply (Hf view (set_Writing true s))|]];
    apply R_flags; reflexivity.
Qed.

Lemma keeps_inReaction {A} r (m : M A) : keeps R m -> keeps R (inReaction r m).
Proof.
  intros Hm s. unfold inReaction. simpl.
  etransitivity; [|etransitivity; [apply (Hm (set_CurrentReaction (Some r) s))|]];
    apply R_flags; reflexivity.
Qed.

End Keeps.

(** ** Cells are never dropped *)

#[global] Instance cells_kept_preorder : PreOrder cells_kept.
Proof.
  split.
  - intros s l k c Hc. exists c. split; [exact Hc|reflexivity].
  - intros s1 s2 s3 H12 H23 l k c Hc.
    destruct (H12 l k c Hc) as (c2 & Hc2 & Hs2).
    destruct (H23 l k c2 Hc2) as (c3 & Hc3 & Hs3).
    exists c3. split; [exact Hc3|]. etransitivity; eassumption.
Qed.

Lemma cells_kept_heap_eq s s' : heap s' = heap s -> cells_kept s s'.
Proof.
  intros H l k c Hc. exists c. split; [|reflexivity].
  rewrite (cellOf_heap_eq s s' l k H). exact Hc.
Qed.

Lemma cells_le_refl n : cells_le n n.
Proof. intros k c Hc. exists c. split; [exact Hc|reflexivity]. Qed.

Lemma cells_le_insert n k v obs :
  (forall c, n !! k = Some c -> observers c ⊆ obs) ->
  cells_le (Some n) (Some (<[k := mkCell v obs]> n)).
Proof.
  intros Hobs k' c Hc. simpl in *.
  destruct (decide (k = k')) as [<-|Hne].
  - rewrite lookup_insert_eq. eexists. split; [reflexivity|]. simpl. auto.
  - rewrite lookup_insert_ne by exact Hne. exists c. split; [exact Hc|reflexivity].
Qed.

Lemma cells_kept_store s s' l o o' :
  heap s !! l = Some o -> cells_le (nodes o) (nodes o') ->
  heap s' = <[l := o']> (heap s) ->
  cells_kept s s'.
Proof.
  intros Ho Hle Hh l1 k c Hc. unfold cellOf in *. rewrite Hh.
  destruct (decide (l = l1)) as [<-|Hne].
  - rewrite lookup_insert_eq. rewrite Ho in Hc. simpl in *.
    apply Hle. exact Hc.
  - rewrite lookup_insert_ne by exact Hne. exists c. split; [exact Hc|reflexivity].
Qed.

Lemma cells_kept_readCell l k : keeps cells_kept (readCell l k).
Proof.
  intros s. unfold readCell; unfold_m.
  destruct (heap s !! l) as [o|] eqn:Ho; simpl; [|reflexivity].
  destruct (nodes o) as [n|] eqn:Hn; simpl; [|reflexivity].
  destruct (n !! k) as [c|] eqn:Hc; simpl; [|reflexivity].
  destruct (CurrentReaction s); simpl; [|reflexivity].
  eapply cells_kept_store; [exact Ho| |reflexivity].
  rewrite Hn. apply cells_le_insert. intros c' Hc'.
  assert (c' = c) by congruence. subst c'. apply union_subseteq_r.
Qed.

Lemma cells_kept_writeCell l k v : keeps cells_kept (writeCell l k v).
Proof.
  intros s. unfold writeCell; unfold_m.
  destruct (heap s !! l) as [o|] eqn:Ho; simpl; [|reflexivity].
  destruct (nodes o) as [n|] eqn:Hn; simpl; [|reflexivity].
  destruct (n !! k) as [c|] eqn:Hc; simpl; [|reflexivity].
  eapply cells_kept_store; [exact Ho| |reflexivity].
  rewrite Hn. apply cells_le_insert. intros c' Hc'.
  assert (c' = c) by congruence. subst c'. reflexivity.
Qed.

Lemma cells_kept_getDataNodes l : keeps cells_kept (getDataNodes l).
Proof.
  intros s. unfold getDataNodes; unfold_m.
  destruct (heap s !! l) as [o|] eqn:Ho; simpl; [|reflexivity].
  destruct (nodes o) as [n|] eqn:Hn; simpl; [reflexivity|].
  unfold obj_defineNodes. destruct (frozen o) eqn:Hf; simpl; [reflexivity|].
  eapply cells_kept_store; [exact Ho| |reflexivity].
  rewrite Hn. intros k c Hc. discriminate.
Qed.

Lemma cells_kept_getDataNode l k v : keeps cells_kept (getDataNode l k v).
Proof.
  intros s. unfold getDataNode; unfold_m.
  destruct (heap s !! l) as [o|] eqn:Ho; simpl; [|reflexivity].
  destruct (nodes o) as [n|] eqn:Hn; simpl; [|reflexivity].
  destruct (n !! k) as [c|] eqn:Hc; simpl; [reflexivity|].
  destruct (inheritedNode k); [reflexivity|].
  eapply cells_kept_store; [exact Ho| |reflexivity].
  rewrite Hn. apply cells_le_insert. intros c' Hc'. congruence.
Qed.

Lemma cells_kept_assignProp l k v : keeps cells_kept (assignProp l k v).
Proof.
  intros s. unfold assignProp; unfold_m.
  destruct (heap s !! l) as [o|] eqn:Ho; simpl; [|reflexivity].
  destruct (obj_assign o k v) as [o'|] eqn:Ha; simpl;
    [|destruct (assignFollowed o k v); reflexivity].
  eapply cells_kept_store; [exact Ho| |reflexivity].
  destruct (obj_assign_fields _ _ _ _ Ha) as (_ & _ & _ & ->).
  apply cells_le_refl.
Qed.

Lemma cells_kept_alloc o : keeps cells_kept (alloc o).
Proof.
  intros s l k c Hc. unfold alloc. simpl. exists c. split; [|reflexivity].
  unfold cellOf in *. simpl.
  rewrite lookup_insert_ne; [exact Hc|].
  intros <-. rewrite (not_elem_of_dom_1 (heap s) (fresh (dom (heap s)))) in Hc;
    [discriminate|apply is_fresh].
Qed.

Lemma cells_kept_wrap v : keeps cells_kept (wrap v).
Proof.
  intros s l k c Hc. exists c. split; [|reflexivity].
  rewrite wrap_cells. exact Hc.
Qed.

Lemma cells_kept_setProperty l k v d : keeps cells_kept (setProperty l k v d).
Proof.
  intros s. unfold setProperty. unfold bind at 1. unfold lookupObj.
  destruct (heap s !! l) as [o|] eqn:Ho; simpl; [|reflexivity].
  match goal with |- context [if ?b then _ else _] => destruct b end;
    [reflexivity|].
  match goal with |- context [match ?x with Some _ => _ | None => _ end] =>
    destruct x as [o1|] eqn:Hm end;
    [|destruct (d || assignFollowed o k v); reflexivity].
  assert (Hn : nodes o1 = nodes o).
  { destruct (rawMutation_fields o k v d o1 Hm) as (_ & _ & _ & Hn). exact Hn. }
  unfold bind at 1. unfold storeObj at 1, modify.
  match goal with |- cells_kept _ (?m ?s1).2 =>
    assert (Hp : keeps cells_kept m); [|etransitivity; [|apply (Hp s1)]] end.
  2:{ eapply cells_kept_store; [exact Ho| |reflexivity].
      rewrite Hn. apply cells_le_refl. }
  apply keeps_bind; [typeclasses eauto|apply cells_kept_getDataNodes|intros n].
  apply keeps_bind; [typeclasses eauto|apply cells_kept_getDataNode|intros _].
  apply keeps_bind; [typeclasses eauto|apply cells_kept_writeCell|intros _].
  apply keeps_bind; [typeclasses eauto|apply keeps_lookupObj; typeclasses eauto|intros o2].
  apply keeps_bind; [typeclasses eauto| |].
  { match goal with |- keeps _ (if ?b then _ else _) => destruct b end;
      [|apply keeps_ret; typeclasses eauto].
    apply keeps_bind; [typeclasses eauto|apply cells_kept_getDataNode|
                       intros; apply cells_kept_writeCell]. }
  intros _. apply keeps_bind; [typeclasses eauto|apply keeps_lookupObj; typeclasses eauto|intros o3].
  destruct (nodes o3 ≫= _); [apply cells_kept_writeCell|apply keeps_ret; typeclasses eauto].
Qed.

(** X7: cells are never pruned.  Under every operation of the module,
    whatever its outcome, a cell that exists keeps existing and keeps
    all of its observers: no read, write, deletion, enumeration,
    existence check, unwrapping or store creation ever drops a
    dependency.  The mutator keeps this for every callback that does. *)
Theorem cells_never_dropped :
  (forall l p recv, keeps cells_kept (trap_get l p recv))
  /\ (forall l p, keeps cells_kept (trap_has l p))
  /\ (forall l, keeps cells_kept (ownKeys l))
  /\ (forall fuel l k v, keeps cells_kept (trap_set fuel l k v))
  /\ (forall l k, keeps cells_kept (trap_deleteProperty l k))
  /\ (forall l k v d, keeps cells_kept (setProperty l k v d))
  /\ (forall fuel v set, keeps cells_kept (unwrap fuel v set))
  /\ (forall v, keeps cells_kept (wrap v))
  /\ (forall fuel v, keeps cells_kept (createStore fuel v))
  /\ (forall view fn,
        (forall d, keeps cells_kept (fn d)) ->
        keeps cells_kept (setStore view fn)).
Proof.
  pose proof cells_kept_readCell. pose proof cells_kept_writeCell.
  pose proof cells_kept_getDataNodes. pose proof cells_kept_getDataNode.
  pose proof cells_kept_assignProp. pose proof cells_kept_alloc.
  pose proof cells_kept_wrap. pose proof cells_kept_setProperty.
  pose proof cells_kept_heap_eq.
  repeat split; intros.
  - apply keeps_trap_get; auto; typeclasses eauto.
  - apply keeps_trap_has; auto; typeclasses eauto.
  - apply keeps_ownKeys; auto; typeclasses eauto.
  - apply keeps_trap_set; auto; typeclasses eauto.
  - apply keeps_trap_deleteProperty; auto; typeclasses eauto.
  - apply cells_kept_setProperty.
  - apply keeps_unwrap; auto; typeclasses eauto.
  - apply cells_kept_wrap.
  - apply keeps_createStore; auto; typeclasses eauto.
  - apply keeps_setStore; auto; typeclasses eauto.
Qed.

(** ** Tracked reads are notified *)

Lemma trap_get_tracked_present l o n k c recv r s :
  CurrentReaction s = Some r ->
  heap s !! l = Some o -> nodes o = Some n -> n !! k = Some c ->
  cellOf (trap_get l (PK k) recv s).2 l k
  = Some (mkCell (payload c) ({[r]} ∪ observers c)).
Proof.
  intros Hr Ho Hn Hc. unfold trap_get.
  rewrite (getDataNodes_k l o) by (eauto || (right; eauto)).
  rewrite Hn. cbn [default].
  rewrite obj_setNodes_id by exact Hn. rewrite upd_id by exact Ho.
  rewrite bool_decide_eq_true_2 by eauto. cbv iota.
  unfold bind at 1.
  rewrite (readCell_tracked l o n k c r s Hr Ho Hn Hc).
  case_bool_decide.
  - unfold ret. cbn [snd]. rewrite cellOf_upd.
    cbn [nodes obj_setNodes mbind option_bind].
    apply lookup_insert_eq.
  - rewrite ret_k.
    fold (wrapIfWrappable (payload c)).
    rewrite wrapIfWrappable_cells, cellOf_upd.
    cbn [nodes obj_setNodes mbind option_bind].
    apply lookup_insert_eq.
Qed.

Lemma tracked_read_registers l o k recv r s :
  CurrentReaction s = Some r ->
  heap s !! l = Some o ->
  (frozen o = false \/ is_Some (nodes o)) ->
  trackable l o k ->
  exists c, cellOf (trap_get l (PK k) recv s).2 l k = Some c
            /\ r ∈ observers c.
Proof.
  intros Hr Ho Hreg Htr.
  destruct (default ∅ (nodes o) !! k) as [c|] eqn:Hk.
  - destruct (nodes o) as [n|] eqn:Hn; simpl in Hk;
      [|rewrite lookup_empty in Hk; discriminate].
    eexists. split; [eapply trap_get_tracked_present; eauto|].
    simpl. apply elem_of_union_l, elem_of_singleton. reflexivity.
  - destruct Htr as [[c Hc]|Hcr]; [rewrite Hk in Hc; discriminate|].
    eexists. split;
      [apply (tracked_read_creates l o k recv r s Hr Ho Hreg Hk Hcr)|].
    simpl. apply elem_of_singleton. reflexivity.
Qed.

(** A reaction that observes the cell of [k0] on [l] is notified by a
    later mutation of [l] that writes [k0], or, when [k0] is the
    reserved key, by any later mutation of [l]. *)
Lemma observer_notified {A} (m : M A) l k0 c0 r s1 o2 o3 k v d :
  cellOf s1 l k0 = Some c0 -> r ∈ observers c0 ->
  keeps cells_kept m ->
  heap (m s1).2 !! l = Some o2 ->
  (d = true \/ strict_eq (rawGet o2 (VObj l) k) v = false) ->
  rawMutation o2 k v d = Some o3 ->
  (k0 = k \/ (k0 = selfKey /\ inheritedNode k = false)) ->
  exists s3 c3,
    setProperty l k v d (m s1).2 = (Ok tt, s3)
    /\ fired s3 = (fired (m s1).2 ++ firings l o2 o3 k v)%list
    /\ In (l, k0) (firings l o2 o3 k v)
    /\ cellOf s3 l k0 = Some c3
    /\ r ∈ observers c3.
Proof.
  intros Hc0 Hr Hm Ho2 Hg Hmut Hk0.
  destruct (Hm s1 l k0 c0 Hc0) as (c2 & Hc2 & Hsub2).
  destruct (cellOf_Some_inv _ _ _ _ Hc2) as (o2' & n2 & Ho2' & Hn2 & Hnc2).
  assert (o2' = o2) by congruence. subst o2'.
  assert (Hreg : frozen o2 = false \/ is_Some (nodes o2)) by (right; eauto).
  assert (Hav : cellAvailable o2 k = true).
  { destruct Hk0 as [->|[_ Hi]]; [|apply cellAvailable_ordinary; exact Hi].
    unfold cellAvailable. apply orb_true_iff. right.
    apply bool_decide_eq_true_2. rewrite Hn2. simpl. eauto. }
  pose proof (setProperty_effect l o2 o3 k v d _ Ho2 Hg Hmut Hreg Hav) as Hset.
  destruct (cells_kept_setProperty l k v d (m s1).2 l k0 c2 Hc2)
    as (c3 & Hc3 & Hsub3).
  rewrite Hset in Hc3. cbn [snd] in Hc3.
  eexists _, c3. split; [exact Hset|].
  split; [reflexivity|].
  split.
  - destruct Hk0 as [->|[-> _]]; [unfold firings; simpl; auto|].
    assert (Hse : selfExists l o2 o3 k v = true).
    { unfold selfExists. apply bool_decide_eq_true_2.
      unfold nodesAfterProperty. rewrite Hn2. simpl.
      destruct (lengthChanged l o2 o3); repeat apply fireReg_is_Some; eauto. }
    unfold firings. rewrite Hse. simpl. right. apply in_or_app. right.
    simpl. auto.
  - split; [exact Hc3|]. apply Hsub3, Hsub2, Hr.
Qed.

(** X8: a tracked read is notified.  When a reaction [r] reads through
    the view a property [k] of [l] that has a cell, or for which the
    read creates one (it is no accessor, no function found on the
    prototype chain and no name of [Object.prototype]), then, after any
    computation that keeps cells, every mutation of [k] on [l] by
    [setProperty] (a write that is not idempotent, or a deletion)
    completes, schedules the firing of the cell of [k], and leaves [r]
    among the observers of that cell. *)
Theorem tracked_read_is_notified {A} (m : M A) l o k recv r s o2 o3 v d :
  CurrentReaction s = Some r ->
  heap s !! l = Some o ->
  (frozen o = false \/ is_Some (nodes o)) ->
  trackable l o k ->
  keeps cells_kept m ->
  heap (m (trap_get l (PK k) recv s).2).2 !! l = Some o2 ->
  (d = true \/ strict_eq (rawGet o2 (VObj l) k) v = false) ->
  rawMutation o2 k v d = Some o3 ->
  exists s3 c3,
    setProperty l k v d (m (trap_get l (PK k) recv s).2).2 = (Ok tt, s3)
    /\ fired s3
       = (fired (m (trap_get l (PK k) recv s).2).2 ++ firings l o2 o3 k v)%list
    /\ In (l, k) (firings l o2 o3 k v)
    /\ cellOf s3 l k = Some c3
    /\ r ∈ observers c3.
Proof.
  intros Hr Ho Hreg Htr Hm Ho2 Hg Hmut.
  destruct (tracked_read_registers l o k recv r s Hr Ho Hreg Htr) as (c & Hc & Hin).
  eapply observer_notified; eauto.
Qed.

(** ** Enumeration and existence checks are tracked *)

Lemma ret_then {A B} (a : A) (K : M B) s : (ret a;;; K) s = K s.
Proof. reflexivity. Qed.

Lemma trackSelf_tracked l o r s :
  CurrentReaction s = Some r ->
  heap s !! l = Some o ->
  (frozen o = false \/ is_Some (nodes o)) ->
  exists o1 c,
    trackSelf l s = (Ok tt, upd l o1 [] s)
    /\ shape o1 = shape o /\ props o1 = props o /\ elems o1 = elems o
    /\ proxy o1 = proxy o
    /\ nodes o1 ≫= (.!! selfKey) = Some c
    /\ r ∈ observers c.
Proof.
  intros Hr Ho Hreg. unfold trackSelf.
  rewrite get_state_k, Hr.
  rewrite (getDataNodes_k l o) by assumption.
  set (n := default ∅ (nodes o)).
  set (o0 := obj_setNodes o n).
  assert (Ho0 : heap (upd l o0 [] s) !! l = Some o0) by apply upd_lookup.
  destruct (n !! selfKey) as [c|] eqn:Hc.
  - unfold getDataNode. rewrite bind_assoc_s.
    rewrite (lookupObj_k _ _ _ _ Ho0). cbn [nodes obj_setNodes o0]. rewrite Hc.
    rewrite ret_then. unfold bind at 1.
    erewrite readCell_tracked; [|exact Hr|exact Ho0|reflexivity|exact Hc].
    unfold ret. rewrite upd_upd. cbn [app].
    eexists _, _. split; [reflexivity|].
    cbn [shape props elems proxy nodes obj_setNodes o0 mbind option_bind].
    rewrite lookup_insert_eq.
    repeat split. simpl. apply elem_of_union_l, elem_of_singleton. reflexivity.
  - rewrite (getDataNode_absent_k l o0 n) by (assumption || reflexivity).
    rewrite upd_upd. cbn [app]. unfold bind at 1.
    erewrite readCell_tracked;
      [|exact Hr|apply upd_lookup|reflexivity|apply lookup_insert_eq].
    unfold ret. rewrite upd_upd. cbn [app].
    eexists _, _. split; [reflexivity|].
    cbn [shape props elems proxy nodes obj_setNodes o0 mbind option_bind].
    rewrite lookup_insert_eq.
    repeat split. simpl. apply elem_of_union_l, elem_of_singleton. reflexivity.
Qed.

Lemma ownKeys_tracked l o r s :
  CurrentReaction s = Some r ->
  heap s !! l = Some o ->
  (frozen o = false \/ is_Some (nodes o)) ->
  exists s1 c,
    ownKeys l s = (Ok (rawOwnKeys (withRegistry o)), s1)
    /\ cellOf s1 l selfKey = Some c
    /\ r ∈ observers c.
Proof.
  intros Hr Ho Hreg.
  destruct (trackSelf_tracked l o r s Hr Ho Hreg)
    as (o1 & c & Ht & Hs & Hp & He & Hx & Hc & Hin).
  unfold ownKeys. unfold bind at 1. rewrite Ht.
  erewrite lookupObj_k by apply upd_lookup.
  eexists _, c. split; [|split; [rewrite cellOf_upd; exact Hc|exact Hin]].
  unfold ret. f_equal. f_equal. unfold rawOwnKeys, ownEnumKeys, withRegistry.
  cbn [shape props elems proxy nodes obj_setNodes].
  rewrite Hs, Hp, He, Hx.
  destruct (nodes o1); [reflexivity|discriminate].
Qed.

Lemma ownKeys_untracked l o s :
  CurrentReaction s = None -> heap s !! l = Some o ->
  ownKeys l s = (Ok (rawOwnKeys o), s).
Proof.
  intros Hr Ho. unfold ownKeys, trackSelf.
  rewrite bind_assoc_s, get_state_k, Hr. rewrite ret_then.
  rewrite (lookupObj_k _ _ _ _ Ho). reflexivity.
Qed.

(** X9: enumeration is tracked on the whole object.  Outside a tracking
    context [ownKeys] returns the own keys of the raw object, as
    [Reflect.ownKeys] lists them (indices in ascending order, then the
    other string keys, then the symbols of the module), and changes
    nothing.  Inside a reaction [r] it returns the own keys of the
    object with its registry, which the call creates when absent, and
    registers [r] on the whole-object cell; then, after any computation
    that keeps cells, every mutation of the object by [setProperty], on
    whatever key that is no name of [Object.prototype], schedules the
    firing of that cell, with [r] still observing. *)
Theorem enumeration_is_notified {A} (m : M A) l o r s s0 o2 o3 k v d :
  CurrentReaction s = Some r ->
  heap s !! l = Some o ->
  (frozen o = false \/ is_Some (nodes o)) ->
  CurrentReaction s0 = None ->
  heap s0 !! l = Some o ->
  keeps cells_kept m ->
  heap (m (ownKeys l s).2).2 !! l = Some o2 ->
  (d = true \/ strict_eq (rawGet o2 (VObj l) k) v = false) ->
  rawMutation o2 k v d = Some o3 ->
  inheritedNode k = false ->
  ownKeys l s0 = (Ok (rawOwnKeys o), s0)
  /\ (ownKeys l s).1 = Ok (rawOwnKeys (withRegistry o))
  /\ exists s3 c3,
       setProperty l k v d (m (ownKeys l s).2).2 = (Ok tt, s3)
       /\ fired s3
          = (fired (m (ownKeys l s).2).2 ++ firings l o2 o3 k v)%list
       /\ In (l, selfKey) (firings l o2 o3 k v)
       /\ cellOf s3 l selfKey = Some c3
       /\ r ∈ observers c3.
Proof.
  intros Hr Ho Hreg Hr0 Ho0 Hm Ho2 Hg Hmut Hi.
  split; [apply ownKeys_untracked; assumption|].
  destruct (ownKeys_tracked l o r s Hr Ho Hreg) as (s1 & c & Hk & Hc & Hin).
  rewrite Hk in *. cbn [fst snd] in *.
  split; [reflexivity|].
  eapply observer_notified; eauto.
Qed.

Lemma protoHas_false sh k : protoHas sh k = false -> protoGet sh k = VUndef.
Proof.
  unfold protoHas, protoGet. destruct k as [t|i]; [|reflexivity].
  intros H. apply orb_false_iff in H. destruct H as [H H3].
  apply orb_false_iff in H. destruct H as [H1 H2].
  rewrite H1, H2, H3.
  destruct (bool_decide (sh = Custom) && bool_decide (t = "constructor")) eqn:Hc;
    [|reflexivity].
  apply andb_true_iff in Hc. destruct Hc as [_ Hc].
  apply bool_decide_eq_true_1 in Hc. subst t. discriminate.
Qed.

Lemma rawHas_false o this k :
  rawHas o k = false ->
  rawGet o this k = VUndef /\ hasGetter o k = false /\ hasOwn o k = false.
Proof.
  unfold rawHas. intros H. apply orb_false_iff in H. destruct H as [Hown Hproto].
  unfold hasOwn in Hown. apply bool_decide_eq_false_1 in Hown.
  assert (Hslot : ownSlot o k = None).
  { destruct (ownSlot o k); [exfalso; apply Hown; eauto|reflexivity]. }
  unfold rawGet, hasGetter, hasOwn. rewrite Hslot.
  split; [apply protoHas_false; exact Hproto|].
  split; [reflexivity|].
  apply bool_decide_eq_false_2. intros [? ?]; discriminate.
Qed.

Lemma protoHas_inherited sh k : protoHas sh k = false -> inheritedNode k = false.
Proof.
  unfold protoHas, inheritedNode. destruct k as [t|i]; [|reflexivity].
  intros H. apply orb_false_iff in H. destruct H as [H H3].
  apply orb_false_iff in H. destruct H as [H1 H2].
  rewrite H1, H3. reflexivity.
Qed.

Lemma trap_has_state l k s :
  k <> protoKey ->
  (trap_has l (PK k) s).2 = (trap_get l (PK k) (VObj l) s).2.
Proof.
  intros Hk. unfold trap_has. rewrite (bool_decide_eq_false_2 _ Hk).
  unfold bind.
  destruct (trap_get l (PK k) (VObj l) s) as [[x| | |] s1]; try reflexivity.
  unfold lookupObj. destruct (heap s1 !! l); reflexivity.
Qed.

(** X10: an existence check is tracked.  When a reaction [r] evaluates
    [k in view] for a key that neither the raw node nor its prototype
    chain has, and that has no cell,
    the answer is [false] and [r] is registered on a new cell of [k];
    then, after any computation that keeps cells, an assignment that
    adds [k] schedules the firing of that cell, with [r] observing. *)
Theorem existence_check_is_notified {A} (m : M A) l o k r s o2 o3 v :
  CurrentReaction s = Some r ->
  heap s !! l = Some o ->
  (frozen o = false \/ is_Some (nodes o)) ->
  rawHas o k = false ->
  default ∅ (nodes o) !! k = None ->
  keeps cells_kept m ->
  heap (m (trap_has l (PK k) s).2).2 !! l = Some o2 ->
  strict_eq (rawGet o2 (VObj l) k) v = false ->
  obj_assign o2 k v = Some o3 ->
  (trap_has l (PK k) s).1 = Ok false
  /\ exists s3 c3,
       setProperty l k v false (m (trap_has l (PK k) s).2).2 = (Ok tt, s3)
       /\ fired s3
          = (fired (m (trap_has l (PK k) s).2).2 ++ firings l o2 o3 k v)%list
       /\ In (l, k) (firings l o2 o3 k v)
       /\ cellOf s3 l k = Some c3
       /\ r ∈ observers c3.
Proof.
  intros Hr Ho Hreg Hhas Hk Hm Ho2 Hg Hmut.
  destruct (rawHas_false o (VObj l) k Hhas) as (Hv & Hget & Hown).
  assert (Hi : inheritedNode k = false).
  { apply (protoHas_inherited (shape o)). unfold rawHas in Hhas.
    apply orb_false_iff in Hhas. tauto. }
  pose proof (inheritedNode_protoKey k Hi) as Hpk.
  assert (Hfn : is_function (rawGet o (VObj l) k) = false)
    by (rewrite Hv; reflexivity).
  pose proof (trap_get_tracked_absent l o k (VObj l) r s Hr Ho Hreg Hk
                (conj Hi (conj Hget (or_introl Hfn)))) as Htg.
  rewrite Hv in Htg. rewrite wrapIfWrappable_primitive in Htg
    by (exact isPrimitive_undef || reflexivity).
  split.
  - unfold trap_has. rewrite (bool_decide_eq_false_2 _ Hpk).
    unfold bind at 1. rewrite Htg.
    erewrite lookupObj_k by apply upd_lookup.
    unfold ret. cbn [fst]. f_equal. exact Hhas.
  - rewrite trap_has_state in * by exact Hpk. rewrite Htg in *. cbn [snd] in *.
    eapply (observer_notified m l k); eauto.
    + rewrite cellOf_upd. cbn [nodes obj_setNodes mbind option_bind].
      apply lookup_insert_eq.
    + simpl. apply elem_of_union_l, elem_of_singleton. reflexivity.
Qed.

(** ** What a tracked read does not track *)

(** A read that cannot go through a cell: no cell exists, and the
    property is an accessor, or a function found on the prototype
    chain.  The tracking context plays no part, as long as the test
    [target.hasOwnProperty(property)], made in a tracking context for a
    value that is a function, is that of [Object.prototype]. *)
Lemma trap_get_untrackable l o k recv s :
  heap s !! l = Some o ->
  (frozen o = false \/ is_Some (nodes o)) ->
  default ∅ (nodes o) !! k = None ->
  k <> protoKey ->
  (CurrentReaction s = None
   \/ is_function (rawGet o (VObj l) k) = false
   \/ plainHasOwn l o) ->
  (hasGetter o k = true
   \/ (is_function (rawGet o (VObj l) k) = true /\ hasOwn o k = false)) ->
  trap_get l (PK k) recv s
  = wrapIfWrappable (rawGet o (VObj l) k)
      (upd l (obj_setNodes o (default ∅ (nodes o))) [] s).
Proof.
  intros Ho Hreg Hk Hpk Hfol Hun. unfold trap_get.
  rewrite (getDataNodes_k l o) by assumption.
  set (n := default ∅ (nodes o)) in *.
  set (o1 := obj_setNodes o n).
  set (s1 := upd l o1 [] s).
  assert (Ho1 : heap s1 !! l = Some o1) by apply upd_lookup.
  rewrite bool_decide_eq_false_2 by (rewrite Hk; intros [? ?]; discriminate).
  cbv iota. rewrite bind_assoc_s.
  rewrite (lookupObj_k _ _ _ _ Ho1). rewrite ret_k.
  rewrite (bool_decide_eq_false_2 _ Hpk).
  rewrite !bind_assoc_s.
  rewrite (lookupObj_k _ _ _ _ Ho1).
  rewrite bind_assoc_s, get_state_k.
  change (CurrentReaction s1) with (CurrentReaction s).
  change (rawGet o1 (VObj l) k) with (rawGet o (VObj l) k).
  change (hasGetter o1 k) with (hasGetter o k).
  assert (Htrack :
    (if bool_decide (is_Some (CurrentReaction s))
     then own <- (if is_function (rawGet o (VObj l) k)
                  then targetHasOwn l o1 k else ret true);;
          ret (own && negb (hasGetter o k))
     else ret false) s1 = (Ok false, s1)).
  { destruct (CurrentReaction s) as [r|] eqn:Hr; [|reflexivity].
    rewrite bool_decide_eq_true_2 by eauto.
    destruct Hfol as [Hfol|Hfol]; [discriminate|].
    destruct (is_function (rawGet o (VObj l) k)) eqn:Hfn.
    - destruct Hfol as [Hfol|Hfol]; [discriminate|].
      unfold targetHasOwn.
      change (rawGet o1 (VObj l) (KStr "hasOwnProperty"))
        with (rawGet o (VObj l) (KStr "hasOwnProperty")).
      unfold plainHasOwn in Hfol.
      rewrite Hfol, bool_decide_eq_true_2 by reflexivity.
      change (hasOwn o1 k) with (hasOwn o k). rewrite ret_k.
      destruct Hun as [-> | [_ ->]]; [|reflexivity].
      unfold ret. rewrite andb_false_r. reflexivity.
    - rewrite ret_k. destruct Hun as [-> | [? _]]; [reflexivity|discriminate]. }
  rewrite !bind_assoc_s. unfold bind at 1. rewrite Htrack.
  reflexivity.
Qed.



Lemma props_get_Some_In_keys ps k sl :
  props_get ps k = Some sl -> In k (fst <$> ps).
Proof.
  induction ps as [|[k' sl'] ps IH]; simpl; [discriminate|].
  destruct (decide (k' = k)) as [->|Hne]; [left; reflexivity|].
  intros H. right. apply IH. exact H.
Qed.


(** X12: array methods are not tracked.  On an array that does not
    shadow the method [m] and has no cell for it, a read of [m] through
    the view, inside or outside a tracking context, hands out the
    function of the prototype and creates no cell.  (In a tracking
    context the trap calls [target.hasOwnProperty]: the array must
    answer it with the method of [Object.prototype].) *)
Theorem array_method_is_not_tracked l o m recv s :
  heap s !! l = Some o ->
  shape o = Arr ->
  (frozen o = false \/ is_Some (nodes o)) ->
  m ∈ arrayMethods ->
  props_get (props o) (KStr m) = None ->
  default ∅ (nodes o) !! KStr m = None ->
  (CurrentReaction s = None \/ plainHasOwn l o) ->
  trap_get l (PK (KStr m)) recv s
  = (Ok (VFun ("Array.prototype." ++ m)),
     upd l (obj_setNodes o (default ∅ (nodes o))) [] s)
  /\ (forall l' k',
        cellOf (trap_get l (PK (KStr m)) recv s).2 l' k' = cellOf s l' k').
Proof.
  intros Ho Hsh Hreg Hm Hp Hk Hfol.
  assert (Hnot : forall t, t ∉ arrayMethods -> KStr m <> KStr t).
  { intros t Ht [= ->]. exact (Ht Hm). }
  assert (Hne : KStr m <> lengthKey).
  { apply Hnot. unfold arrayMethods. intros H.
    repeat (apply elem_of_cons in H; destruct H as [H|H]; [discriminate|]).
    apply elem_of_nil in H. exact H. }
  assert (Hpk : KStr m <> protoKey).
  { apply Hnot. unfold arrayMethods. intros H.
    repeat (apply elem_of_cons in H; destruct H as [H|H]; [discriminate|]).
    apply elem_of_nil in H. exact H. }
  assert (Hown : ownSlot o (KStr m) = None).
  { rewrite ownSlot_props by (intros _; split; [exact Hne|discriminate]).
    exact Hp. }
  assert (Hv : rawGet o (VObj l) (KStr m) = VFun ("Array.prototype." ++ m)).
  { unfold rawGet. rewrite Hown. unfold protoGet. rewrite Hsh.
    rewrite (bool_decide_eq_false_2 _ Hpk).
    rewrite (bool_decide_eq_true_2 (Arr = Arr)) by reflexivity.
    rewrite (bool_decide_eq_true_2 _ Hm). reflexivity. }
  assert (Htg : trap_get l (PK (KStr m)) recv s
                = (Ok (VFun ("Array.prototype." ++ m)),
                   upd l (obj_setNodes o (default ∅ (nodes o))) [] s)).
  { rewrite (trap_get_untrackable l o (KStr m) recv s Ho Hreg Hk Hpk).
    - rewrite Hv. reflexivity.
    - destruct Hfol as [Hfol|Hfol]; [left; exact Hfol|right; right; exact Hfol].
    - right. rewrite Hv. split; [reflexivity|].
      unfold hasOwn. rewrite Hown. apply bool_decide_eq_false_2.
      intros [? ?]; discriminate. }
  split; [exact Htg|].
  intros l' k'. rewrite Htg. apply cellOf_ensure_nodes. exact Ho.
Qed.

Lemma bind_OutOfFuel {A B} (m : M A) (k : A -> M B) s :
  (m s).1 = OutOfFuel -> (bind m k s).1 = OutOfFuel.
Proof.
  unfold bind. destruct (m s) as [[a| | |] s1]; simpl; intros H;
    try discriminate; reflexivity.
Qed.

(** A loop one step of which runs out of fuel, while the steps before
    it change nothing. *)
Lemma forM_OutOfFuel {A St} (xs : list A) (f : A -> St -> M St) st s :
  (forall x, In x xs -> (f x st s).1 = OutOfFuel \/ f x st s = (Ok st, s)) ->
  (exists x, In x xs /\ (f x st s).1 = OutOfFuel) ->
  (forM xs f st s).1 = OutOfFuel.
Proof.
  induction xs as [|x xs IH]; intros Hall (y & Hy & Hout); [destruct Hy|].
  cbn [forM].
  destruct (Hall x (or_introl eq_refl)) as [Hx|Hx].
  - apply bind_OutOfFuel. exact Hx.
  - unfold bind. rewrite Hx. apply IH.
    + intros z Hz. apply Hall. right. exact Hz.
    + destruct Hy as [->|Hy]; [rewrite Hx in Hout; discriminate|].
      exists y. split; assumption.
Qed.

(** The step of the loops of [unwrap] on a primitive. *)
Lemma visit_primitive fuel l o k st s :
  heap s !! l = Some o -> frozen o = false ->
  (ownSlot o k = Some (SData (rawGet o (VObj l) k))
   \/ rawGet o (VObj l) k = VUndef) ->
  (shape o = Arr -> exists i, k = KIdx i) ->
  isPrimitive (rawGet o (VObj l) k) ->
  visit (S fuel) l k st s = (Ok st, s).
Proof.
  intros Ho Hf Hown Hk Hp. unfold visit.
  rewrite (lookupObj_k _ _ _ _ Ho). cbv zeta.
  unfold bind at 1. rewrite (unwrap_primitive _ _ _ _ Hp). cbn [fst snd].
  destruct (strict_eq (rawGet o (VObj l) k) (rawGet o (VObj l) k)) eqn:Heq;
    simpl; [reflexivity|].
  destruct Hown as [Hown|Hu]; [|rewrite Hu in Heq; discriminate].
  unfold bind. rewrite (assignProp_same _ _ _ _ _ Ho Hf Hown Hk). reflexivity.
Qed.

Lemma visit_OutOfFuel fuel l o k st s :
  heap s !! l = Some o ->
  (unwrap fuel (rawGet o (VObj l) k) st s).1 = OutOfFuel ->
  (visit fuel l k st s).1 = OutOfFuel.
Proof.
  intros Ho H. unfold visit. rewrite (lookupObj_k _ _ _ _ Ho). cbv zeta.
  apply bind_OutOfFuel. exact H.
Qed.

Lemma unwrap_frozen_cycle fuel : forall l0 o0 set s,
  heap s !! l0 = Some o0 -> frozen o0 = true -> wrappableObj o0 = true ->
  l0 ∉ set -> frozenCopyFollowed l0 o0 = true -> holdsItself l0 o0 ->
  (unwrap fuel (VObj l0) set s).1 = OutOfFuel.
Proof.
  induction fuel as [|fuel IH]; intros l0 o0 set s Ho Hf Hw Hin Hfol Hself;
    [reflexivity|].
  set (r := fresh (dom (heap s))).
  assert (Hrl : r <> l0) by (apply (fresh_not_in_heap s l0 o0 Ho)).
  cbn [unwrap]. unfold bind at 1. rewrite (isWrappable_obj _ _ _ Ho), Hw.
  rewrite bool_decide_eq_false_2 by exact Hin. cbn [negb orb].
  rewrite (lookupObj_k _ _ _ _ Ho). rewrite Hf.
  unfold frozenCopyFollowed in Hfol. destruct Hself as [Hex Hall].
  set (sa := set_heap (<[r := frozenCopy l0 o0]> (heap s)) s).
  assert (Hra : heap sa !! r = Some (frozenCopy l0 o0)) by apply lookup_insert_eq.
  assert (Hla : heap sa !! l0 = Some o0).
  { unfold sa. simpl. rewrite lookup_insert_ne by exact Hrl. exact Ho. }
  destruct (frozenCopy_fields l0 o0) as (Hcf & _ & Hcs & _ & _).
  (* one step of the loop, on the copy *)
  assert (Hstep : forall k,
            rawGet (frozenCopy l0 o0) (VObj r) k = rawGet o0 (VObj l0) k
            \/ (exists k', rawGet (frozenCopy l0 o0) (VObj r) k
                           = rawGet o0 (VObj l0) k') ->
            (ownSlot (frozenCopy l0 o0) k
             = Some (SData (rawGet (frozenCopy l0 o0) (VObj r) k))
             \/ rawGet (frozenCopy l0 o0) (VObj r) k = VUndef) ->
            (shape (frozenCopy l0 o0) = Arr -> exists i, k = KIdx i) ->
            (visit fuel r k set sa).1 = OutOfFuel
            \/ visit fuel r k set sa = (Ok set, sa)).
  { intros k Hval Hown Hk.
    assert (Hv : isPrimitive (rawGet (frozenCopy l0 o0) (VObj r) k)
                 \/ rawGet (frozenCopy l0 o0) (VObj r) k = VObj l0).
    { destruct Hval as [->|[k' ->]]; apply Hall. }
    destruct Hv as [Hp|Hs].
    - destruct fuel as [|fuel']; [left|right].
      + apply (visit_OutOfFuel 0 r _ k set sa Hra). reflexivity.
      + apply (visit_primitive fuel' r _ k set sa Hra Hcf Hown Hk Hp).
    - left. apply (visit_OutOfFuel fuel r _ k set sa Hra). rewrite Hs.
      apply (IH l0 o0 set sa Hla Hf Hw Hin).
      + exact Hfol.
      + split; assumption. }
  unfold frozenCopy in *.
  destruct (bool_decide (shape o0 = Arr)) eqn:Hs.
  - apply bool_decide_eq_true_1 in Hs. rewrite Hfol.
    rewrite bind_assoc_s. unfold bind at 1. rewrite alloc_fresh. fold r. fold sa.
    rewrite ret_k. cbn [fst snd]. rewrite (lookupObj_k _ _ _ _ Hra).
    apply bind_OutOfFuel.
    assert (Hget : forall i, rawGet (sliceCopy o0) (VObj r) (KIdx i)
                             = rawGet o0 (VObj l0) (KIdx i)).
    { intros i. unfold rawGet, ownSlot. simpl. rewrite Hs.
      destruct (mjoin (elems o0 !! i)); reflexivity. }
    assert (Hbody : forall i,
              (visit fuel r (KIdx i) set sa).1 = OutOfFuel
              \/ visit fuel r (KIdx i) set sa = (Ok set, sa)).
    { intros i. apply Hstep; [left; apply Hget| |eauto].
      unfold rawGet, ownSlot. simpl.
      destruct (elems o0 !! i) as [[v|]|]; simpl; auto. }
    apply (forM_OutOfFuel (seq 0 (length (elems (sliceCopy o0))))
             (fun i st => visit fuel r (KIdx i) st) set sa).
    + intros i _. apply Hbody.
    + destruct Hex as (i & Hi). exists i. split.
      * apply list_elem_of_In, elem_of_seq. simpl.
        apply lookup_lt_Some in Hi. lia.
      * apply (visit_OutOfFuel fuel r _ (KIdx i) set sa Hra).
        rewrite Hget. unfold rawGet, ownSlot. rewrite Hs, Hi. simpl.
        apply (IH l0 o0 set sa Hla Hf Hw Hin).
        -- unfold frozenCopyFollowed.
           rewrite bool_decide_eq_true_2 by exact Hs. exact Hfol.
        -- split; [|exact Hall].
           rewrite bool_decide_eq_true_2 by exact Hs. eauto.
  - apply bool_decide_eq_false_1 in Hs. rewrite Hfol.
    rewrite bind_assoc_s. unfold bind at 1. rewrite alloc_fresh. fold r. fold sa.
    rewrite ret_k. cbn [fst snd]. rewrite (lookupObj_k _ _ _ _ Hra).
    apply bind_OutOfFuel.
    set (oc := assignCopy l0 o0) in *.
    assert (Hown : forall k, ownSlot oc k = props_get (props oc) k)
      by reflexivity.
    assert (Hbody : forall k, In k (ownEnumKeys oc) ->
              props_get (props oc) k
              = Some (SData (rawGet oc (VObj r) k))
              /\ ((visit fuel r k set sa).1 = OutOfFuel
                  \/ visit fuel r k set sa = (Ok set, sa))).
    { intros k Hk. apply list_elem_of_In, ownEnumKeys_own in Hk.
      destruct Hk as [sl Hsl].
      destruct (assignCopy_slots l0 o0 k sl (props_get_In _ _ _ Hsl)) as (k' & ->).
      assert (Hv : rawGet oc (VObj r) k = rawGet o0 (VObj l0) k').
      { unfold rawGet. rewrite Hown, Hsl. reflexivity. }
      split; [rewrite Hv; exact Hsl|].
      apply Hstep; [right; eauto| |discriminate].
      left. rewrite Hown, Hv. exact Hsl. }
    apply (forM_OutOfFuel (ownEnumKeys oc)
             (fun prop st =>
                match props_get (props oc) prop with
                | Some (SGet _ _) => ret st
                | _ => visit fuel r prop st
                end) set sa).
    + intros k Hk. destruct (Hbody k Hk) as [-> H]. exact H.
    + destruct Hex as (k & Hpk & Hhas & Hval).
      assert (Hck : ownSlot oc k = Some (SData (VObj l0))).
      { unfold oc. rewrite (assignCopy_own l0 o0 k Hs Hpk), Hhas, Hval.
        reflexivity. }
      rewrite Hown in Hck.
      exists k. split.
      * apply list_elem_of_In. unfold ownEnumKeys. apply keyOrder_elem.
        eapply props_get_Some_elem. exact Hck.
      * rewrite Hck.
        apply (visit_OutOfFuel fuel r _ k set sa Hra).
        unfold rawGet. rewrite Hown, Hck.
        apply (IH l0 o0 set sa Hla Hf Hw Hin).
        -- unfold frozenCopyFollowed.
           rewrite bool_decide_eq_false_2 by exact Hs. exact Hfol.
        -- split; [|exact Hall].
           rewrite bool_decide_eq_false_2 by exact Hs. eauto.
Qed.

(** X13: a frozen cycle is never cut.  The frozen branch of [unwrap]
    works on a copy and does not enter the object in the visited set.
    For a frozen plain object or array that holds itself (in an element,
    or in an own property other than [__proto__]) and otherwise holds
    primitives only, [unwrap], and [createStore] with it, runs out of
    every fuel: the recursion never ends. *)
Theorem frozen_cycle_is_not_cut fuel l0 o0 s :
  heap s !! l0 = Some o0 ->
  frozen o0 = true ->
  wrappableObj o0 = true ->
  frozenCopyFollowed l0 o0 = true ->
  holdsItself l0 o0 ->
  (unwrap fuel (VObj l0) ∅ s).1 = OutOfFuel
  /\ (createStore fuel (VObj l0) s).1 = OutOfFuel.
Proof.
  intros Ho Hf Hw Hfol Hself.
  assert (H : (unwrap fuel (VObj l0) ∅ s).1 = OutOfFuel).
  { eapply unwrap_frozen_cycle; eauto. apply not_elem_of_empty. }
  split; [exact H|]. unfold createStore. apply bind_OutOfFuel. exact H.
Qed.

Lemma isView_stripped v : isView (stripped v) = false.
Proof. destruct v; reflexivity. Qed.

Lemma refersInside_stripped s v : refersInside s v -> refersInside s (stripped v).
Proof. destruct v; simpl; auto. Qed.

Lemma refersInside_dom s s' v :
  dom (heap s') = dom (heap s) -> refersInside s v -> refersInside s' v.
Proof. intros Hd. destruct v; simpl; rewrite ?Hd; auto. Qed.

Lemma sameKind_refl a : sameKind a a.
Proof. destruct a as [[?|? ?]|]; exact I. Qed.

Lemma sameKind_trans a b c : sameKind a b -> sameKind b c -> sameKind a c.
Proof.
  destruct a as [[?|? ?]|], b as [[?|? ?]|], c as [[?|? ?]|]; simpl; tauto.
Qed.

Lemma sameLayout_refl o : sameLayout o o.
Proof. repeat split; auto using sameKind_refl. Qed.

Lemma sameLayout_trans o1 o2 o3 :
  sameLayout o1 o2 -> sameLayout o2 o3 -> sameLayout o1 o3.
Proof.
  intros (H1 & H2 & H3 & H4 & H5 & H6) (G1 & G2 & G3 & G4 & G5 & G6).
  repeat split; try congruence.
  intros k. eapply sameKind_trans; [apply G5|apply H5].
Qed.

Lemma sameLayout_wrappable o o' : sameLayout o o' -> wrappableObj o' = wrappableObj o.
Proof.
  intros (H1 & _ & H3 & _). unfold wrappableObj. rewrite H1, H3. reflexivity.
Qed.

Lemma set_heap_set_heap h h' s : set_heap h (set_heap h' s) = set_heap h s.
Proof. reflexivity. Qed.

(** Reading an assignable key gives the value of its data slot, or
    [undefined] at a hole of an array. *)
Lemma assignable_read o this k :
  assignable o k ->
  ownSlot o k = Some (SData (rawGet o this k))
  \/ (ownSlot o k = None /\ rawGet o this k = VUndef).
Proof.
  unfold assignable, rawGet. intros Hk.
  destruct (decide (shape o = Arr)) as [Hs|Hs].
  - rewrite Hs in Hk. destruct k as [str|i]; [contradiction|].
    unfold ownSlot. rewrite Hs.
    destruct (mjoin (elems o !! i)) as [v|]; simpl; [left|right]; auto.
  - rewrite ownSlot_props by congruence.
    assert (Hp : exists v, props_get (props o) k = Some (SData v)).
    { destruct (shape o); try congruence; exact Hk. }
    destruct Hp as (v & ->). left. reflexivity.
Qed.

(** Assigning to a data slot changes the value of that slot only. *)
Lemma obj_assign_slot o k u v0 :
  frozen o = false -> assignable o k -> ownSlot o k = Some (SData v0) ->
  exists o', obj_assign o k u = Some o'
    /\ sameLayout o o'
    /\ ownSlot o' k = Some (SData u)
    /\ forall k', k' <> k -> ownSlot o' k' = ownSlot o k'.
Proof.
  intros Hf Hk Hown.
  assert (Hh : hasOwn o k = true).
  { unfold hasOwn. rewrite Hown. apply bool_decide_eq_true_2. eauto. }
  destruct (decide (shape o = Arr)) as [Hs|Hs].
  - unfold assignable in Hk. rewrite Hs in Hk.
    destruct k as [str|i]; [contradiction|].
    set (o' := mkObj (shape o) (frozen o) (props o) (<[i:=Some u]> (elems o))
                 (proxy o) (nodes o)).
    assert (Ha : obj_assign o (KIdx i) u = Some o').
    { unfold obj_assign, o'. rewrite Hh, andb_false_r. rewrite Hf, Hs.
      rewrite (bool_decide_eq_true_2 _ Hk). cbn [orb].
      unfold resize. replace (Nat.max (S i) (length (elems o)))
        with (length (elems o)) by lia.
      rewrite firstn_all, Nat.sub_diag, app_nil_r. reflexivity. }
    assert (Hne : forall k', k' <> KIdx i -> ownSlot o' k' = ownSlot o k').
    { intros k' Hk'. unfold ownSlot, o'. cbn [shape elems props]. rewrite Hs.
      destruct k' as [str|j].
      - rewrite length_insert. reflexivity.
      - rewrite list_lookup_insert_ne by congruence. reflexivity. }
    assert (Heq : ownSlot o' (KIdx i) = Some (SData u)).
    { unfold ownSlot, o'. cbn [shape elems]. rewrite Hs.
      rewrite list_lookup_insert_eq by exact Hk. reflexivity. }
    exists o'. split; [exact Ha|]. split; [|split; [exact Heq|exact Hne]].
    repeat split; auto.
    + unfold o'. cbn [elems]. apply length_insert.
    + intros k'. destruct (decide (k' = KIdx i)) as [->|Hk'].
      * rewrite Heq, Hown. exact I.
      * rewrite (Hne k' Hk'). apply sameKind_refl.
  - assert (Hown' : forall o', shape o' = shape o -> forall k',
               ownSlot o' k' = props_get (props o') k').
    { intros o' Hs' k'. apply ownSlot_props. congruence. }
    rewrite (Hown' o eq_refl) in Hown.
    set (o' := mkObj (shape o) (frozen o)
              (props_set (props o) k (SData u)) (elems o) (proxy o) (nodes o)).
    assert (Ha : obj_assign o k u = Some o').
    { unfold obj_assign, o'. rewrite Hh, andb_false_r. rewrite Hf.
      destruct (shape o) eqn:Hsh; try congruence; rewrite Hown; reflexivity. }
    assert (Hne : forall k', k' <> k -> ownSlot o' k' = ownSlot o k').
    { intros k' Hk'. rewrite !Hown' by reflexivity. unfold o'. cbn [props].
      apply props_get_set_ne. congruence. }
    assert (Heq : ownSlot o' k = Some (SData u)).
    { rewrite Hown' by reflexivity. unfold o'. cbn [props].
      apply props_get_set_eq. }
    exists o'. split; [exact Ha|]. split; [|split; [exact Heq|exact Hne]].
    repeat split; auto.
    intros k'. destruct (decide (k' = k)) as [->|Hk'].
    + rewrite Heq, (Hown' o eq_refl), Hown. exact I.
    + rewrite (Hne k' Hk'). apply sameKind_refl.
Qed.

Lemma closedHeap_store l0 o o' k u s :
  closedHeap s -> heap s !! l0 = Some o ->
  sameLayout o o' -> refersInside s u ->
  ownSlot o' k = Some (SData u) ->
  (forall k', k' <> k -> ownSlot o' k' = ownSlot o k') ->
  closedHeap (upd l0 o' [] s)
  /\ dom (heap (upd l0 o' [] s)) = dom (heap s).
Proof.
  intros Hc Ho Hl Hu Heq Hne.
  assert (Hd : dom (heap (upd l0 o' [] s)) = dom (heap s)).
  { simpl. apply dom_insert_lookup_L. eauto. }
  split; [|exact Hd].
  intros l o2 Ho2. simpl in Ho2.
  destruct (decide (l = l0)) as [->|Hl0].
  - rewrite lookup_insert_eq in Ho2. injection Ho2 as <-.
    destruct (Hc l0 o Ho) as [Hfz Hcl]. split.
    + rewrite (sameLayout_wrappable _ _ Hl).
      destruct Hl as (_ & -> & _). exact Hfz.
    + intros k' v Hv. apply (refersInside_dom s); [exact Hd|].
      destruct (decide (k' = k)) as [->|Hk'].
      * rewrite Heq in Hv. injection Hv as <-. exact Hu.
      * rewrite (Hne k' Hk') in Hv. eapply Hcl; eauto.
  - rewrite lookup_insert_ne in Ho2 by congruence.
    destruct (Hc l o2 Ho2) as [Hfz Hcl]. split; [exact Hfz|].
    intros k' v Hv. apply (refersInside_dom s); [exact Hd|]. eapply Hcl; eauto.
Qed.

(** One round of a loop of [unwrap]: the slot under [k] is left free of
    views; apart from it, only objects entered in the visited set
    during the round have changed. *)
Lemma visit_step fuel l0 k st s o :
  strips fuel ->
  closedHeap s -> heap s !! l0 = Some o -> frozen o = false -> l0 ∈ st ->
  size (dom (heap s) ∖ st) < fuel ->
  assignable o k ->
  exists st' s' o',
    visit fuel l0 k st s = (Ok st', s')
    /\ st ⊆ st' /\ closedHeap s' /\ dom (heap s') = dom (heap s)
    /\ s' = set_heap (heap s') s
    /\ heap s' !! l0 = Some o' /\ sameLayout o o'
    /\ (forall k', k' <> k -> ownSlot o' k' = ownSlot o k')
    /\ (forall v, ownSlot o' k = Some (SData v) -> isView v = false)
    /\ (forall l, l <> l0 -> l ∈ st \/ l ∉ st' -> heap s' !! l = heap s !! l)
    /\ (forall l, l ∈ st' -> l ∉ st ->
          exists o'', heap s' !! l = Some o'' /\ viewFree o'')
    /\ (forall l o1, heap s !! l = Some o1 ->
          exists o2, heap s' !! l = Some o2 /\ sameLayout o1 o2).
Proof.
  intros IH Hc Ho Hf Hin Hsz Hk.
  unfold visit. rewrite (lookupObj_k _ _ _ _ Ho). cbv zeta.
  pose proof (assignable_read o (VObj l0) k Hk) as Hread.
  set (v := rawGet o (VObj l0) k) in *.
  assert (Hv : refersInside s v).
  { destruct Hread as [Hown|[_ ->]]; [|exact I].
    destruct (Hc l0 o Ho) as [_ Hcl]. eapply Hcl; eauto. }
  destruct (IH v st s Hc Hv Hsz)
    as (st' & s1 & Hu & Hsub & Hc1 & Hd1 & Hs1 & Hfr1 & Hcl1 & _ & Hlay1).
  unfold bind at 1. rewrite Hu. cbn [fst snd].
  assert (Ho1 : heap s1 !! l0 = Some o) by (rewrite Hfr1 by (left; exact Hin); exact Ho).
  destruct (strict_eq (stripped v) v) eqn:Heq; cbn [negb].
  - exists st', s1, o. split; [reflexivity|].
    split; [exact Hsub|]. split; [exact Hc1|]. split; [exact Hd1|].
    split; [exact Hs1|]. split; [exact Ho1|]. split; [apply sameLayout_refl|].
    split; [reflexivity|]. split.
    { intros w Hw. destruct Hread as [Hown|[Hown _]]; [|congruence].
      rewrite Hown in Hw. injection Hw as <-.
      rewrite <- (strict_eq_true _ _ Heq). apply isView_stripped. }
    split; [|split; [exact Hcl1|exact Hlay1]].
    intros l _ Hl. apply Hfr1. exact Hl.
  - destruct Hread as [Hown|[_ Hundef]];
      [|rewrite Hundef in Heq; discriminate].
    destruct (obj_assign_slot o k (stripped v) v Hf Hk Hown)
      as (o' & Ha & Hlay & Hnew & Hold).
    unfold assignProp. rewrite bind_assoc_s. rewrite (lookupObj_k _ _ _ _ Ho1).
    rewrite Ha. rewrite storeObj_k.
    destruct (closedHeap_store l0 o o' k (stripped v) s1 Hc1 Ho1 Hlay
                (refersInside_stripped _ _ (refersInside_dom _ _ _ Hd1 Hv))
                Hnew Hold) as [Hc2 Hd2].
    exists st', (upd l0 o' [] s1), o'. split; [reflexivity|].
    split; [exact Hsub|]. split; [exact Hc2|].
    split; [rewrite Hd2; exact Hd1|].
    split.
    { rewrite Hs1 at 1. unfold upd, set_heap. simpl. rewrite app_nil_r. reflexivity. }
    split; [apply upd_lookup|]. split; [exact Hlay|]. split; [exact Hold|].
    split.
    { intros w Hw. rewrite Hnew in Hw. injection Hw as <-. apply isView_stripped. }
    split.
    + intros l Hl Hl'. simpl. rewrite lookup_insert_ne by congruence.
      apply Hfr1. exact Hl'.
    + split.
      * intros l Hl Hl'. destruct (Hcl1 l Hl Hl') as (o'' & Ho'' & Hvf).
        exists o''. split; [|exact Hvf].
        simpl. rewrite lookup_insert_ne; [exact Ho''|].
        intros <-. apply Hl'. exact Hin.
      * intros l o1 Hl. destruct (decide (l = l0)) as [->|Hne].
        -- exists o'. split; [apply upd_lookup|]. congruence.
        -- destruct (Hlay1 l o1 Hl) as (o2 & Ho2 & Hl2).
           exists o2. split; [|exact Hl2].
           simpl. rewrite lookup_insert_ne by congruence. exact Ho2.
Qed.

(** The loops of [unwrap]: each round either skips its key, which then
    holds no data, or is [visit]. *)
Lemma unwrap_loop {A} fuel l0 o0 set0 s0 (key : A -> Key)
    (f : A -> gset Loc -> M (gset Loc)) :
  strips fuel ->
  heap s0 !! l0 = Some o0 -> frozen o0 = false -> l0 ∉ set0 ->
  size (dom (heap s0) ∖ set0) < S fuel ->
  forall xs,
  (forall x st s o, x ∈ xs -> heap s !! l0 = Some o -> sameLayout o0 o ->
     (f x st s = (Ok st, s) /\ forall v, ownSlot o (key x) <> Some (SData v))
     \/ (f x st s = visit fuel l0 (key x) st s /\ assignable o (key x))) ->
  forall done st s, unwrapInv l0 o0 set0 s0 done st s ->
  exists st' s',
    forM xs f st s = (Ok st', s')
    /\ unwrapInv l0 o0 set0 s0 (done ++ (key <$> xs)) st' s'.
Proof.
  intros IH Ho0 Hf0 Hin0 Hsz0.
  induction xs as [|x xs IHxs]; intros Hf done st s Hinv.
  - exists st, s. split; [reflexivity|]. simpl. rewrite app_nil_r. exact Hinv.
  - destruct Hinv as (Hsub & Hc & Hd & Hs & (o & Ho & Hlay & Hdone) & Hfr & Hcl & Hall).
    assert (Hl0 : l0 ∈ st).
    { apply Hsub. apply elem_of_union. left. apply elem_of_singleton. reflexivity. }
    assert (Hnext : forall st' s',
      unwrapInv l0 o0 set0 s0 (done ++ [key x]) st' s' ->
      exists st'' s'', forM xs f st' s' = (Ok st'', s'')
        /\ unwrapInv l0 o0 set0 s0 (done ++ (key <$> x :: xs)) st'' s'').
    { intros st' s' Hinv'.
      assert (Hf' : forall y st s o, y ∈ xs -> heap s !! l0 = Some o ->
                sameLayout o0 o ->
                (f y st s = (Ok st, s)
                 /\ forall v, ownSlot o (key y) <> Some (SData v))
                \/ (f y st s = visit fuel l0 (key y) st s /\ assignable o (key y))).
      { intros y st1 s1 o1 Hy. apply Hf. apply list_elem_of_further. exact Hy. }
      destruct (IHxs Hf' (done ++ [key x])%list st' s' Hinv')
        as (st'' & s'' & Hrun & Hinv'').
      exists st'', s''. split; [exact Hrun|].
      rewrite <- app_assoc in Hinv''. exact Hinv''. }
    cbn [forM]. unfold bind at 1.
    destruct (Hf x st s o (list_elem_of_here _ _) Ho Hlay) as [[Hskip Hng]|[Hvis Hasg]].
    + rewrite Hskip. apply Hnext.
      split; [exact Hsub|]. split; [exact Hc|]. split; [exact Hd|].
      split; [exact Hs|]. split; [|split; [exact Hfr|split; [exact Hcl|exact Hall]]].
      exists o. split; [exact Ho|]. split; [exact Hlay|].
      intros k v Hk Hv. apply elem_of_app in Hk. destruct Hk as [Hk|Hk].
      * eapply Hdone; eauto.
      * apply list_elem_of_singleton in Hk. subst k. exfalso. eapply Hng; eauto.
    + rewrite Hvis.
      assert (Hsz : size (dom (heap s) ∖ st) < fuel).
      { rewrite Hd. apply (visited_measure _ set0 _ l0); auto.
        apply elem_of_dom. eauto. }
      assert (Hfo : frozen o = false).
      { destruct Hlay as (_ & -> & _). exact Hf0. }
      destruct (visit_step fuel l0 (key x) st s o IH Hc Ho Hfo Hl0 Hsz Hasg)
        as (st' & s' & o' & Hrun & Hsub' & Hc' & Hd' & Hs' & Ho' & Hlay'
            & Hold & Hnew & Hfr' & Hcl' & Hall').
      rewrite Hrun. apply Hnext.
      split; [etransitivity; eassumption|]. split; [exact Hc'|].
      split; [congruence|].
      split; [rewrite Hs' at 1; rewrite Hs; reflexivity|].
      split; [|split; [|split]].
      * exists o'. split; [exact Ho'|].
        split; [eapply sameLayout_trans; eassumption|].
        intros k v Hk Hv. destruct (decide (k = key x)) as [->|Hne].
        -- eapply Hnew; eauto.
        -- apply elem_of_app in Hk. destruct Hk as [Hk|Hk].
           ++ rewrite (Hold k Hne) in Hv. eapply Hdone; eauto.
           ++ apply list_elem_of_singleton in Hk. contradiction.
      * intros l Hl Hl'. rewrite Hfr'; [apply Hfr; [exact Hl|]|exact Hl|].
        -- destruct Hl' as [Hl'|Hl']; [left; exact Hl'|].
           right. intros Hst. apply Hl'. apply Hsub'. exact Hst.
        -- destruct Hl' as [Hl'|Hl']; [left|right; exact Hl'].
           apply Hsub. apply elem_of_union. right. exact Hl'.
      * intros l Hl Hl'. destruct (decide (l ∈ st)) as [Hst|Hst].
        -- destruct (Hcl l Hst Hl') as (o'' & Ho'' & Hvf).
           exists o''. split; [|exact Hvf]. rewrite Hfr'; [exact Ho''| |left; exact Hst].
           intros ->. apply Hl'. apply elem_of_union. left.
           apply elem_of_singleton. reflexivity.
        -- apply Hcl'; assumption.
      * intros l o1 Hl. destruct (Hall l o1 Hl) as (o2 & Ho2 & Hl2).
        destruct (Hall' l o2 Ho2) as (o3 & Ho3 & Hl3).
        exists o3. split; [exact Ho3|]. eapply sameLayout_trans; eassumption.
Qed.

Lemma strips_trivial fuel item set s :
  closedHeap s ->
  unwrap fuel item set s = (Ok (stripped item, set), s) ->
  (forall l o, item = VObj l -> heap s !! l = Some o ->
     wrappableObj o = true -> l ∈ set) ->
  exists set' s',
    unwrap fuel item set s = (Ok (stripped item, set'), s')
    /\ set ⊆ set'
    /\ closedHeap s'
    /\ dom (heap s') = dom (heap s)
    /\ s' = set_heap (heap s') s
    /\ (forall l, l ∈ set \/ l ∉ set' -> heap s' !! l = heap s !! l)
    /\ (forall l, l ∈ set' -> l ∉ set ->
          exists o', heap s' !! l = Some o' /\ viewFree o')
    /\ (forall l o, item = VObj l -> heap s !! l = Some o ->
          wrappableObj o = true -> l ∈ set')
    /\ (forall l o, heap s !! l = Some o ->
          exists o', heap s' !! l = Some o' /\ sameLayout o o').
Proof.
  intros Hc Hrun Hvis. exists set, s.
  split; [exact Hrun|]. split; [reflexivity|]. split; [exact Hc|].
  split; [reflexivity|]. split; [destruct s; reflexivity|].
  split; [reflexivity|]. split; [|split; [exact Hvis|]].
  - intros l Hl Hl'. contradiction.
  - intros l o Hl. exists o. split; [exact Hl|apply sameLayout_refl].
Qed.

(** The end of either loop of [unwrap]. *)
Lemma strips_finish l0 o0 set s xs st' s' :
  closedHeap s -> heap s !! l0 = Some o0 -> l0 ∉ set ->
  unwrapInv l0 o0 set s xs st' s' ->
  (forall o k v, sameLayout o0 o -> traversed o k = true ->
     ownSlot o k = Some (SData v) -> k ∈ xs) ->
  set ⊆ st'
  /\ closedHeap s'
  /\ dom (heap s') = dom (heap s)
  /\ s' = set_heap (heap s') s
  /\ (forall l, l ∈ set \/ l ∉ st' -> heap s' !! l = heap s !! l)
  /\ (forall l, l ∈ st' -> l ∉ set ->
        exists o', heap s' !! l = Some o' /\ viewFree o')
  /\ (forall l o, VObj l0 = VObj l -> heap s !! l = Some o ->
        wrappableObj o = true -> l ∈ st')
  /\ (forall l o, heap s !! l = Some o ->
        exists o', heap s' !! l = Some o' /\ sameLayout o o').
Proof.
  intros Hc Ho Hin
    (Hsub & Hc' & Hd & Hs & (o & Ho' & Hlay & Hdone) & Hfr & Hcl & Hlays) Hall.
  assert (Hl0 : l0 ∈ st').
  { apply Hsub. apply elem_of_union. left. apply elem_of_singleton. reflexivity. }
  split.
  { intros l Hl. apply Hsub. apply elem_of_union. right. exact Hl. }
  split; [exact Hc'|]. split; [exact Hd|]. split; [exact Hs|].
  split; [|split; [|split; [|exact Hlays]]].
  - intros l Hl. apply Hfr; [|exact Hl].
    intros ->. destruct Hl as [Hl|Hl]; contradiction.
  - intros l Hl Hl'. destruct (decide (l = l0)) as [->|Hne].
    + exists o. split; [exact Ho'|].
      intros k v Ht Hv. eapply Hdone; [|exact Hv]. eapply Hall; eauto.
    + apply Hcl; [exact Hl|]. intros Hu. apply elem_of_union in Hu.
      destruct Hu as [Hu|Hu]; [|contradiction].
      apply elem_of_singleton in Hu. contradiction.
  - intros l o1 [= <-] _ _. exact Hl0.
Qed.

Lemma unwrapInv_start l0 o0 set s :
  closedHeap s -> heap s !! l0 = Some o0 ->
  unwrapInv l0 o0 set s [] ({[l0]} ∪ set) s.
Proof.
  intros Hc Ho. split; [reflexivity|]. split; [exact Hc|].
  split; [reflexivity|]. split; [destruct s; reflexivity|].
  split; [|split; [|split]].
  - exists o0. split; [exact Ho|]. split; [apply sameLayout_refl|].
    intros k v Hk. apply elem_of_nil in Hk. contradiction.
  - reflexivity.
  - intros l Hl Hl'. contradiction.
  - intros l o Hl. exists o. split; [exact Hl|apply sameLayout_refl].
Qed.

Lemma unwrap_strips fuel : strips fuel.
Proof.
  induction fuel as [|fuel IH]; intros item set s Hc Hit Hsz; [lia|].
  destruct item as [| | | | | | |l0|id t|h];
    try (apply strips_trivial; [exact Hc|reflexivity|intros; discriminate]).
  simpl in Hit. apply elem_of_dom in Hit. destruct Hit as [o0 Ho].
  destruct (wrappableObj o0) eqn:Hw; [destruct (decide (l0 ∈ set)) as [Hin|Hin]|].
  - apply strips_trivial; [exact Hc| |intros l o [= <-] _ _; exact Hin].
    cbn [unwrap]. unfold bind at 1. rewrite (isWrappable_obj _ _ _ Ho), Hw.
    rewrite bool_decide_eq_true_2 by exact Hin. reflexivity.
  - destruct (Hc l0 o0 Ho) as [Hfz _]. specialize (Hfz Hw).
    cbn [unwrap stripped]. unfold bind at 1. rewrite (isWrappable_obj _ _ _ Ho), Hw.
    rewrite bool_decide_eq_false_2 by exact Hin. cbn [negb orb].
    rewrite (lookupObj_k _ _ _ _ Ho). rewrite Hfz.
    destruct (decide (shape o0 = Arr)) as [Hs|Hs].
    + rewrite bool_decide_eq_true_2 by exact Hs.
      rewrite ret_k. cbn [fst snd]. rewrite (lookupObj_k _ _ _ _ Ho).
      lazymatch goal with
      | |- context [forM ?xs0 ?f0 ?st0] =>
          destruct (unwrap_loop fuel l0 o0 set s KIdx f0 IH Ho Hfz Hin Hsz xs0)
            with (done := @nil Key) (st := st0) (s := s)
            as (st' & s' & Hrun & Hinv)
      end.
      { intros x st s1 o Hx Ho1 Hlay. right. split; [reflexivity|].
        unfold assignable. destruct Hlay as (-> & _ & _ & -> & _). rewrite Hs.
        apply elem_of_seq in Hx. lia. }
      { apply unwrapInv_start; assumption. }
      unfold bind at 1. rewrite Hrun. exists st', s'. split; [reflexivity|].
      apply (strips_finish l0 o0 set s _ st' s' Hc Ho Hin Hinv).
      intros o k v Hlay Ht Hv. simpl.
      unfold traversed in Ht. destruct Hlay as (Hsh & _ & _ & Hlen & _).
      rewrite Hsh, Hs in Ht. destruct k as [str|i]; [discriminate|].
      apply list_elem_of_fmap. exists i. split; [reflexivity|].
      apply elem_of_seq. unfold ownSlot in Hv. rewrite Hsh, Hs in Hv.
      destruct (elems o !! i) as [e|] eqn:He; [|discriminate].
      apply lookup_lt_Some in He. lia.
    + rewrite bool_decide_eq_false_2 by exact Hs.
      rewrite ret_k. cbn [fst snd]. rewrite (lookupObj_k _ _ _ _ Ho).
      assert (Hown : forall o, sameLayout o0 o -> forall k,
                ownSlot o k = props_get (props o) k).
      { intros o (Hsh & _) k. apply ownSlot_props. congruence. }
      lazymatch goal with
      | |- context [forM ?xs0 ?f0 ?st0] =>
          destruct (unwrap_loop fuel l0 o0 set s (fun k : Key => k) f0 IH Ho Hfz Hin Hsz xs0)
            with (done := @nil Key) (st := st0) (s := s)
            as (st' & s' & Hrun & Hinv)
      end.
      { intros x st s1 o Hx Ho1 Hlay.
        pose proof (Hlay) as (Hsh & _ & _ & _ & Hkind & _).
        specialize (Hkind x).
        rewrite (Hown o Hlay), (Hown o0 (sameLayout_refl o0)) in Hkind.
        destruct (props_get (props o0) x) as [[v|g b]|] eqn:Hp.
        - right. split; [reflexivity|].
          unfold assignable.
          assert (Hd : exists w, props_get (props o) x = Some (SData w)).
          { destruct (props_get (props o) x) as [[w|g b]|]; try contradiction. eauto. }
          destruct (shape o) eqn:Hso; try exact Hd. congruence.
        - left. split; [reflexivity|]. intros v.
          rewrite (Hown o Hlay).
          destruct (props_get (props o) x) as [[w|g' b']|]; try contradiction.
          discriminate.
        - apply ownEnumKeys_own in Hx. rewrite Hp in Hx.
          destruct Hx as [? Hx]. discriminate. }
      { apply unwrapInv_start; assumption. }
      unfold bind at 1. rewrite Hrun. exists st', s'. split; [reflexivity|].
      apply (strips_finish l0 o0 set s (ownEnumKeys o0) st' s' Hc Ho Hin).
      { cbn [app] in Hinv.
        change ((fun k : Key => k) <$> ownEnumKeys o0)
          with (id <$> ownEnumKeys o0) in Hinv.
        rewrite list_fmap_id in Hinv. exact Hinv. }
      intros o k v Hlay Ht Hv.
      pose proof (Hlay) as (_ & _ & _ & _ & Hkind & _). specialize (Hkind k).
      rewrite Hv in Hkind. rewrite (Hown o0 (sameLayout_refl o0)) in Hkind.
      destruct (props_get (props o0) k) as [sl|] eqn:Hp; [|contradiction].
      unfold ownEnumKeys. apply keyOrder_elem.
      eapply props_get_Some_elem. exact Hp.
  - apply strips_trivial; [exact Hc| |intros l o [= <-] Ho'; congruence].
    cbn [unwrap]. unfold bind at 1. rewrite (isWrappable_obj _ _ _ Ho), Hw.
    reflexivity.
Qed.

(** X14: [unwrap] on a heap that holds views.  On a closed heap with no
    frozen wrappable object, [unwrap] returns as soon as the fuel
    exceeds the number of objects.  A view is answered by its target;
    anything else is handed back as it is.  Every object entered in the
    visited set is left with no view in a traversed data property
    (each own key of an object, each index of an array): a view found
    there has been replaced by its target.  An object outside the
    visited set is left as it was, and nothing but the data of visited
    objects changes in the state: each object keeps its shape, its
    frozenness, its view, its cells, and the kind of each own
    property. *)
Theorem unwrap_strips_views fuel item s :
  closedHeap s ->
  refersInside s item ->
  size (dom (heap s)) < fuel ->
  exists visited s',
    unwrap fuel item ∅ s = (Ok (stripped item, visited), s')
    /\ s' = set_heap (heap s') s
    /\ dom (heap s') = dom (heap s)
    /\ closedHeap s'
    /\ (forall l o, item = VObj l -> heap s !! l = Some o ->
          wrappableObj o = true -> l ∈ visited)
    /\ (forall l, l ∈ visited ->
          exists o', heap s' !! l = Some o' /\ viewFree o')
    /\ (forall l, l ∉ visited -> heap s' !! l = heap s !! l)
    /\ (forall l o, heap s !! l = Some o ->
          exists o', heap s' !! l = Some o' /\ sameLayout o o').
Proof.
  intros Hc Hit Hsz.
  assert (Hsz' : size (dom (heap s) ∖ ∅) < fuel).
  { rewrite difference_empty_L. exact Hsz. }
  destruct (unwrap_strips fuel item ∅ s Hc Hit Hsz')
    as (visited & s' & Hrun & _ & Hc' & Hd & Hs & Hfr & Hcl & Hvis & Hlay).
  exists visited, s'. split; [exact Hrun|]. split; [exact Hs|].
  split; [exact Hd|]. split; [exact Hc'|]. split; [exact Hvis|].
  split; [|split; [|exact Hlay]].
  - intros l Hl. apply Hcl; [exact Hl|]. apply not_elem_of_empty.
  - intros l Hl. apply Hfr. right. exact Hl.
Qed.

(** ** Writing an object or a view *)

Lemma sameLayout_hasGetter o o' k :
  sameLayout o o' -> hasGetter o' k = hasGetter o k.
Proof.
  intros (_ & _ & _ & _ & Hkind & _). specialize (Hkind k). unfold hasGetter.
  destruct (ownSlot o' k) as [[?|? ?]|], (ownSlot o k) as [[?|? ?]|];
    simpl in Hkind; try contradiction; reflexivity.
Qed.

(** X15: a write stores the target, never the view.  Inside a
    transaction, on a closed heap with no frozen wrappable object,
    assigning any value through a view to a data property of its
    unfrozen node succeeds once the fuel exceeds the number of objects.
    The raw node then holds the value itself, or the target of the
    value when the value is a view: raw data never receives a view.
    The key is no name of [Object.prototype], and on an array neither
    [length] nor an integer beyond the index range. *)
Theorem write_stores_target fuel id l o k value s :
  Writing s = true ->
  closedHeap s ->
  refersInside s value ->
  size (dom (heap s)) < fuel ->
  heap s !! l = Some o ->
  frozen o = false ->
  hasGetter o k = false ->
  inheritedNode k = false ->
  assignableKey (shape o) k ->
  exists s1 o1,
    view_set fuel (VProxy id l) k value s = (Ok tt, s1)
    /\ heap s1 !! l = Some o1
    /\ rawGet o1 (VObj l) k = stripped value
    /\ isView (rawGet o1 (VObj l) k) = false.
Proof.
  intros Hw Hc Hv Hsz Ho Hf Hg Hi Hk.
  destruct (unwrap_strips fuel value ∅ s Hc Hv)
    as (visited & s' & Hrun & _ & _ & _ & _ & _ & _ & _ & Hlay).
  { rewrite difference_empty_L. exact Hsz. }
  destruct (Hlay l o Ho) as (o' & Ho' & Hl).
  assert (Hf' : frozen o' = false).
  { destruct Hl as (_ & -> & _). exact Hf. }
  assert (Hg' : hasGetter o' k = false).
  { rewrite (sameLayout_hasGetter _ _ _ Hl). exact Hg. }
  assert (Hk' : assignableKey (shape o') k).
  { destruct Hl as (-> & _). exact Hk. }
  destruct (strict_eq (rawGet o' (VObj l) k) (stripped value)) eqn:Heq.
  - exists s', o'. split.
    { eapply (view_set_steps fuel id l k value _ _ s s' s' o');
        [exact Hw|exact Hrun| |exact Ho'|].
      - apply (setProperty_same l o'); assumption.
      - apply setInvariant_unfrozen. exact Hf'. }
    split; [exact Ho'|].
    rewrite (strict_eq_true _ _ Heq). split; [reflexivity|apply isView_stripped].
  - destruct (obj_assign_get o' k (stripped value) (VObj l) Hf' Hg'
                (inheritedNode_protoKey k Hi) Hk')
      as (o1 & Ha & Hget).
    pose proof (setProperty_effect l o' o1 k (stripped value) false s' Ho'
                  (or_intror Heq) Ha (or_introl Hf')
                  (cellAvailable_ordinary o' k Hi)) as Hset.
    destruct (rawMutation_fields o' k (stripped value) false o1 Ha)
      as (_ & Hf1 & _ & _).
    eexists. exists (obj_setNodes o1 (nodesAfter l o' o1 k (stripped value))).
    split.
    { eapply (view_set_steps fuel id l k value); 
        [exact Hw|exact Hrun|exact Hset|apply upd_lookup|].
      apply setInvariant_unfrozen. simpl. congruence. }
    split; [apply upd_lookup|].
    rewrite rawGet_setNodes, Hget. split; [reflexivity|apply isView_stripped].
Qed.

(** ** The store over unfrozen and over frozen data *)

(** X16: [createStore] does not copy unfrozen input.  On a closed heap
    with no frozen wrappable object, [createStore] of a raw object
    returns a view whose target is that very object, once the fuel
    exceeds the number of objects; the object now carries that view,
    and a view it already had is the one returned. *)
Theorem createStore_aliases_input fuel r o s :
  closedHeap s ->
  heap s !! r = Some o ->
  frozen o = false ->
  size (dom (heap s)) < fuel ->
  exists id s1 o1,
    createStore fuel (VObj r) s = (Ok (VProxy id r), s1)
    /\ heap s1 !! r = Some o1
    /\ proxy o1 = Some id
    /\ (forall id', proxy o = Some id' -> id = id').
Proof.
  intros Hc Ho Hf Hsz.
  destruct (unwrap_strips fuel (VObj r) ∅ s Hc)
    as (visited & s' & Hrun & _ & _ & _ & _ & _ & _ & _ & Hlay).
  { simpl. apply elem_of_dom. eauto. }
  { rewrite difference_empty_L. exact Hsz. }
  destruct (Hlay r o Ho) as (o' & Ho' & Hl).
  assert (Hf' : frozen o' = false).
  { destruct Hl as (_ & -> & _). exact Hf. }
  assert (Hp' : proxy o' = proxy o).
  { destruct Hl as (_ & _ & -> & _). reflexivity. }
  destruct (wrap_unfrozen r o' s' Ho' Hf') as (id & s1 & Hw).
  destruct (wrap_ok_inv r s' _ s1 Hw) as (o1 & id1 & Ho1 & Hp1 & Hid).
  injection Hid as <-.
  exists id, s1, o1. split.
  { unfold createStore, bind. rewrite Hrun. exact Hw. }
  split; [exact Ho1|]. split; [exact Hp1|].
  intros id' Hid'. rewrite <- Hp' in Hid'.
  rewrite (wrap_cached r o' id' s' Ho' Hid') in Hw. congruence.
Qed.

(** X17: a frozen child cannot be read through a view.  When the value
    an untracked read of a key [k] other than [__proto__] finds is a
    frozen plain object or array that has no view yet, the read throws:
    [wrap] cannot define the view on it. *)
Theorem frozen_child_read_throws id l o k c oc s :
  CurrentReaction s = None ->
  heap s !! l = Some o ->
  (frozen o = false \/ is_Some (nodes o)) ->
  untrackedValue l o k = VObj c ->
  c <> l ->
  heap s !! c = Some oc ->
  frozen oc = true ->
  proxy oc = None ->
  wrappableObj oc = true ->
  k <> protoKey ->
  (view_get (VProxy id l) (PK k) s).1 = Throw.
Proof.
  intros Hr Ho Hreg Huv Hcl Hoc Hf Hp Hw Hk.
  unfold view_get. unfold bind at 1.
  rewrite (trap_get_untracked l o k _ s Hr Ho Hreg Hk), Huv.
  set (s1 := upd l _ [] s).
  assert (Hoc1 : heap s1 !! c = Some oc).
  { unfold s1. simpl. rewrite lookup_insert_ne by congruence. exact Hoc. }
  unfold wrapIfWrappable, bind. rewrite (isWrappable_obj _ _ _ Hoc1), Hw.
  simpl. unfold_m. rewrite Hoc1. simpl.
  unfold rawGetProxy, obj_defineProxy. rewrite Hp, Hf. reflexivity.
Qed.

(** ** Worked instances *)


Lemma createStore_of_view_witness :
  createStore 1 (VProxy 0 0) exWrappedState = (Ok (VProxy 0 0), exWrappedState).
Proof.
  exact (proj1 (createStore_of_view 0 0 0 exWrapped exWrappedState
                  eq_refl eq_refl)).
Defined.

Lemma view_read_never_leaks_raw_witness :
  (exists id t, VProxy 0 0 = VProxy id t)
  \/ isWrappable (VProxy 0 0)
       (trap_get 0 (PK (KStr "self")) (VProxy 0 0) exCyclicState).2
     = (Ok false, (trap_get 0 (PK (KStr "self")) (VProxy 0 0) exCyclicState).2).
Proof.
  apply (view_read_never_leaks_raw 0 (KStr "self") (VProxy 0 0) exCyclicState).
  - discriminate.
  - reflexivity.
Defined.

Lemma write_then_read_witness :
  exists s1 s2 o2,
    view_set 1 (VProxy 0 0) (KStr "a") (VNum 7) exStateW = (Ok tt, s1)
    /\ view_get (VProxy 0 0) (PK (KStr "a")) s1 = (Ok (VNum 7), s2)
    /\ heap s2 !! 0 = Some o2
    /\ rawGet o2 (VObj 0) (KStr "a") = VNum 7.
Proof.
  apply (write_then_read 0 0 0 exObj (KStr "a") (VNum 7) exStateW).
  - reflexivity.
  - reflexivity.
  - reflexivity.
  - reflexivity.
  - reflexivity.
  - discriminate.
  - reflexivity.
  - intros H. discriminate H.
  - split; intros; discriminate.
  - reflexivity.
  - reflexivity.
Defined.

Lemma reserved_key_reads_undefined_witness :
  exists s1 s2 o2,
    view_set 1 (VProxy 0 0) selfKey (VNum 9) exStateW = (Ok tt, s1)
    /\ view_get (VProxy 0 0) (PK selfKey) s1 = (Ok VUndef, s2)
    /\ heap s2 !! 0 = Some o2
    /\ rawGet o2 (VObj 0) selfKey = VNum 9.
Proof.
  exact (reserved_key_reads_undefined 0 0 0 exObj (VNum 9) exStateW
           eq_refl eq_refl eq_refl eq_refl eq_refl
           ltac:(split; intros; discriminate) eq_refl).
Defined.

Lemma exObj_keys_NoDup : NoDup (fst <$> props exObj).
Proof.
  simpl. apply NoDup_cons. split.
  - intros H. apply list_elem_of_singleton in H. discriminate.
  - apply NoDup_singleton.
Qed.

Lemma delete_then_read_witness :
  exists s1 s2 s3 o3,
    view_delete (VProxy 0 0) (KStr "a") exStateW = (Ok tt, s1)
    /\ view_get (VProxy 0 0) (PK (KStr "a")) s1 = (Ok VUndef, s2)
    /\ view_has (VProxy 0 0) (PK (KStr "a")) s2 = (Ok false, s3)
    /\ heap s3 !! 0 = Some o3
    /\ hasOwn o3 (KStr "a") = false.
Proof.
  apply (delete_then_read 0 0 exObj (KStr "a") exStateW).
  - reflexivity.
  - reflexivity.
  - reflexivity.
  - reflexivity.
  - exact exObj_keys_NoDup.
  - discriminate.
  - reflexivity.
Defined.

Lemma cells_never_dropped_witness :
  keeps cells_kept (setStore (VProxy 0 0) (fun _ => ret tt)).
Proof.
  apply (proj2 (proj2 (proj2 (proj2 (proj2 (proj2 (proj2 (proj2 (proj2
           cells_never_dropped))))))))).
  intros d s. reflexivity.
Defined.

Lemma tracked_read_is_notified_witness :
  exists s3 c3,
    setProperty 0 (KStr "a") (VNum 7) false
      (trap_get 0 (PK (KStr "a")) (VProxy 0 0) exTracked).2 = (Ok tt, s3)
    /\ cellOf s3 0 (KStr "a") = Some c3
    /\ 7 ∈ observers c3.
Proof.
  destruct (tracked_read_is_notified (ret tt) 0 exObj (KStr "a") (VProxy 0 0) 7
              exTracked
              (default exObj
                 (heap (trap_get 0 (PK (KStr "a")) (VProxy 0 0) exTracked).2 !! 0))
              (default exObj
                 (obj_assign
                    (default exObj
                       (heap (trap_get 0 (PK (KStr "a")) (VProxy 0 0)
                                exTracked).2 !! 0))
                    (KStr "a") (VNum 7)))
              (VNum 7) false
              eq_refl eq_refl (or_introl eq_refl)
              (or_intror (conj eq_refl (conj eq_refl (or_introl eq_refl))))
              ltac:(intros s0; reflexivity)
              eq_refl (or_intror eq_refl) eq_refl)
    as (s3 & c3 & H1 & _ & _ & H4 & H5).
  exists s3, c3. split; [exact H1|]. split; [exact H4|exact H5].
Defined.

Lemma enumeration_is_notified_witness :
  ownKeys 0 exState = (Ok [PK (KStr "_"); PK (KStr "a")], exState)
  /\ (ownKeys 0 exTracked).1
     = Ok [PK (KStr "_"); PK (KStr "a"); PS NODE]
  /\ exists s3 c3,
       setProperty 0 (KStr "a") (VNum 7) false (ownKeys 0 exTracked).2
       = (Ok tt, s3)
       /\ cellOf s3 0 selfKey = Some c3
       /\ 7 ∈ observers c3.
Proof.
  destruct (enumeration_is_notified (ret tt) 0 exObj 7 exTracked exState
              (default exObj (heap (ownKeys 0 exTracked).2 !! 0))
              (default exObj
                 (obj_assign
                    (default exObj (heap (ownKeys 0 exTracked).2 !! 0))
                    (KStr "a") (VNum 7)))
              (KStr "a") (VNum 7) false
              eq_refl eq_refl (or_introl eq_refl) eq_refl eq_refl
              ltac:(intros s0; reflexivity)
              eq_refl (or_intror eq_refl) eq_refl eq_refl)
    as (H0 & H00 & s3 & c3 & H1 & _ & _ & H4 & H5).
  split; [exact H0|]. split; [exact H00|].
  exists s3, c3. split; [exact H1|]. split; [exact H4|exact H5].
Defined.

Lemma existence_check_is_notified_witness :
  (trap_has 0 (PK (KStr "zz")) exTracked).1 = Ok false
  /\ exists s3 c3,
       setProperty 0 (KStr "zz") (VNum 7) false
         (trap_has 0 (PK (KStr "zz")) exTracked).2 = (Ok tt, s3)
       /\ cellOf s3 0 (KStr "zz") = Some c3
       /\ 7 ∈ observers c3.
Proof.
  destruct (existence_check_is_notified (ret tt) 0 exObj (KStr "zz") 7 exTracked
              (default exObj (heap (trap_has 0 (PK (KStr "zz")) exTracked).2 !! 0))
              (default exObj
                 (obj_assign
                    (default exObj
                       (heap (trap_has 0 (PK (KStr "zz")) exTracked).2 !! 0))
                    (KStr "zz") (VNum 7)))
              (VNum 7)
              eq_refl eq_refl (or_introl eq_refl) eq_refl eq_refl
              ltac:(intros s0; reflexivity)
              eq_refl eq_refl eq_refl)
    as (H0 & s3 & c3 & H1 & _ & _ & H4 & H5).
  split; [exact H0|].
  exists s3, c3. split; [exact H1|]. split; [exact H4|exact H5].
Defined.


Lemma array_method_is_not_tracked_witness :
  (trap_get 0 (PK (KStr "push")) (VProxy 0 0) exArrIdle).1
  = Ok (VFun "Array.prototype.push")
  /\ forall l' k',
       cellOf (trap_get 0 (PK (KStr "push")) (VProxy 0 0) exArrIdle).2 l' k'
       = cellOf exArrIdle l' k'.
Proof.
  destruct (array_method_is_not_tracked 0 exArr "push" (VProxy 0 0) exArrIdle
              eq_refl eq_refl (or_introl eq_refl)
              ltac:(unfold arrayMethods;
                     repeat first [apply list_elem_of_here
                                  |apply list_elem_of_further])
              eq_refl eq_refl (or_introl eq_refl))
    as [H1 H2].
  split; [rewrite H1; reflexivity|exact H2].
Defined.

Lemma exFrozenCyclic_holdsItself : holdsItself 0 exFrozenCyclic.
Proof.
  split.
  - exists (KStr "self"). split; [discriminate|]. split; reflexivity.
  - intros k. unfold rawGet, ownSlot. simpl.
    destruct (decide (KStr "self" = k)); [right; reflexivity|left].
    unfold protoGet. repeat case_match; split; intros; discriminate.
Qed.

Lemma frozen_cycle_is_not_cut_witness :
  (unwrap 5 (VObj 0) ∅ exFrozenCyclicState).1 = OutOfFuel
  /\ (createStore 5 (VObj 0) exFrozenCyclicState).1 = OutOfFuel.
Proof.
  apply (frozen_cycle_is_not_cut 5 0 exFrozenCyclic exFrozenCyclicState).
  - reflexivity.
  - reflexivity.
  - reflexivity.
  - reflexivity.
  - exact exFrozenCyclic_holdsItself.
Defined.

Lemma exViewsState_closed : closedHeap exViewsState.
Proof.
  assert (H0 : 0 ∈ dom (heap exViewsState))
    by (apply elem_of_dom; eexists; reflexivity).
  assert (H1 : 1 ∈ dom (heap exViewsState))
    by (apply elem_of_dom; eexists; reflexivity).
  intros l o Ho. unfold exViewsState in Ho. cbn [heap] in Ho.
  apply lookup_insert_Some in Ho. destruct Ho as [[<- <-]|[Hne Ho]].
  - split; [reflexivity|]. intros k v Hv.
    unfold ownSlot in Hv. simpl in Hv.
    repeat case_decide; simplify_eq; simpl; auto.
  - apply lookup_singleton_Some in Ho. destruct Ho as [<- <-].
    split; [reflexivity|]. intros k v Hv.
    unfold ownSlot in Hv. simpl in Hv.
    repeat case_decide; simplify_eq; simpl; auto.
Qed.

Lemma exViewsState_holder : refersInside exViewsState (VObj 0).
Proof. simpl. apply elem_of_dom. eexists. reflexivity. Qed.

Lemma exViewsState_view : refersInside exViewsState (VProxy 0 1).
Proof. simpl. apply elem_of_dom. eexists. reflexivity. Qed.

Lemma exViewsState_size : size (dom (heap exViewsState)) < 3.
Proof. vm_compute. lia. Qed.

Lemma unwrap_strips_views_witness :
  exists visited s' o',
    unwrap 3 (VObj 0) ∅ exViewsState = (Ok (VObj 0, visited), s')
    /\ heap s' !! 0 = Some o'
    /\ viewFree o'.
Proof.
  destruct (unwrap_strips_views 3 (VObj 0) exViewsState exViewsState_closed
              exViewsState_holder exViewsState_size)
    as (visited & s' & Hrun & _ & _ & _ & Hvis & Hfree & _).
  destruct (Hfree 0 (Hvis 0 exHolder eq_refl eq_refl eq_refl))
    as (o' & Ho' & Hvf).
  exists visited, s', o'. split; [exact Hrun|]. split; [exact Ho'|exact Hvf].
Defined.

Lemma write_stores_target_witness :
  exists s1 o1,
    view_set 3 (VProxy 0 1) (KStr "c") (VProxy 0 1) exViewsState = (Ok tt, s1)
    /\ heap s1 !! 1 = Some o1
    /\ rawGet o1 (VObj 1) (KStr "c") = VObj 1.
Proof.
  destruct (write_stores_target 3 0 1 exTarget (KStr "c") (VProxy 0 1)
              exViewsState eq_refl exViewsState_closed
              exViewsState_view exViewsState_size
              eq_refl eq_refl eq_refl eq_refl
              ltac:(intros H; discriminate H))
    as (s1 & o1 & H1 & H2 & H3 & _).
  exists s1, o1. split; [exact H1|]. split; [exact H2|exact H3].
Defined.

Lemma createStore_aliases_input_witness :
  exists id s1 o1,
    createStore 3 (VObj 0) exViewsState = (Ok (VProxy id 0), s1)
    /\ heap s1 !! 0 = Some o1
    /\ proxy o1 = Some id.
Proof.
  destruct (createStore_aliases_input 3 0 exHolder exViewsState
              exViewsState_closed eq_refl eq_refl exViewsState_size)
    as (id & s1 & o1 & H1 & H2 & H3 & _).
  exists id, s1, o1. split; [exact H1|]. split; [exact H2|exact H3].
Defined.

Lemma frozen_child_read_throws_witness :
  (view_get (VProxy 0 0) (PK (KStr "child")) exFrozenChildState).1 = Throw.
Proof.
  apply (frozen_child_read_throws 0 0 exParent (KStr "child") 1 exFrozen
           exFrozenChildState).
  - reflexivity.
  - reflexivity.
  - left. reflexivity.
  - reflexivity.
  - discriminate.
  - reflexivity.
  - reflexivity.
  - reflexivity.
  - reflexivity.
  - discriminate.
Defined.
